(** * OrbitMeetAI frontend: the dual-pane layout controller of [App.jsx]
      and the combobox of [SearchableSelect.jsx]

    The two React components are embedded as explicit state records, one
    field per [useState] hook, with one transition function per event
    handler; the state setters called by a handler are batched into one
    state change, and the two persistence effects of [App.jsx] are run
    after it on a store passed along with the state.

    - JavaScript numbers are IEEE-754 binary64 values: [spec_float] with
      the operations of [SpecFloat] at precision 53.  [parseFloat] and
      [Number.prototype.toString] follow their definitions in ECMA-262.
    - Strings are sequences of 8-bit code units.
    - [localStorage] is a finite map from strings to strings.
    - A call that may throw ([getOptionLabel], [getOptionValue],
      [onChange]) is a partial function; what a handler does to the
      outside world is returned as a list of effects.
    - The handlers are modelled as the functions they are; the conditions
      under which the JSX attaches them (a button rendered only while
      nothing is collapsed, the option list rendered only while open) are
      not imposed on the event sequences.

    The selection state and the meeting date of [App.jsx], the project
    selector, the chat and the response interceptor of [api.js] follow
    the same scheme.  An asynchronous handler is split at its [await]
    into the part that starts the request and the part that runs when
    the request settles, so that other events can come in between.  The
    time stamps of chat messages are left out.

    The file has two parts: the embedding, then the properties. *)

From Stdlib Require Import ZArith Lia Bool List Ascii String.
From Stdlib Require Import Floats.SpecFloat.
From stdpp Require Import base option list strings gmap.

Local Open Scope Z_scope.

(** * The embedding *)

(** ** JavaScript numbers *)

Module Number.

Definition prec : Z := 53.
Definition emax : Z := 1024.

Definition number : Type := spec_float.

Definition NaN : number := S754_nan.
Definition Infinity : number := S754_infinity false.
Definition zero : number := S754_zero false.
Definition neg_zero : number := S754_zero true.

(** The number denoted by an integer literal. *)
Definition of_Z (z : Z) : number := binary_normalize prec emax z 0 false.

Definition isNaN (x : number) : bool :=
  match x with S754_nan => true | _ => false end.

Definition isFinite (x : number) : bool :=
  match x with S754_zero _ | S754_finite _ _ _ => true | _ => false end.

(** [x - y], [x / y], [x * y] and the relational operators. *)
Definition sub (x y : number) : number := SFsub prec emax x y.
Definition div (x y : number) : number := SFdiv prec emax x y.
Definition mul (x y : number) : number := SFmul prec emax x y.
Definition ltb (x y : number) : bool := SFltb x y.
Definition leb (x y : number) : bool := SFleb x y.
Definition geb (x y : number) : bool := SFleb y x.

(** The correctly rounded quotient of two positive integers, with the
    sign [s]: the number value of the rational [n / d]. *)
Definition of_ratio (s : bool) (n d : positive) : number :=
  let '(q, e, l) := SFdiv_core_binary prec emax (Zpos n) 0 (Zpos d) 0 in
  binary_round_aux prec emax s q e l.

(** The number value of [(-1)^s * mant * 10^e10]. *)
Definition of_decimal (s : bool) (mant : N) (e10 : Z) : number :=
  match mant with
  | N0 => S754_zero s
  | Npos m =>
      match e10 with
      | Zneg k => of_ratio s m (10 ^ k)%positive
      | Z0 => of_ratio s m 1
      | Zpos k => of_ratio s (m * 10 ^ k)%positive 1
      end
  end.

Definition valid (x : number) : bool := valid_binary prec emax x.

#[global] Instance number_eq_dec : EqDecision number.
Proof. solve_decision. Defined.

(** Equality of numbers as values (SameValueZero of ECMA-262): [NaN] is
    the same as [NaN], and the two zeros are the same number. *)
Definition sameValueZero (x y : number) : bool :=
  match x, y with
  | S754_nan, S754_nan => true
  | S754_zero _, S754_zero _ => true
  | _, _ => bool_decide (x = y)
  end.

End Number.

Import Number.

(** ** [Math.max] and [Math.min]

    Both return [NaN] as soon as one argument is [NaN]; otherwise the
    arguments are folded from [-Infinity] (resp. [+Infinity]), with [+0]
    taken as larger than [-0]. *)

Module Math.

Definition max_step (highest n : number) : number :=
  match highest, n with
  | S754_zero true, S754_zero false => n
  | _, _ => if ltb highest n then n else highest
  end.

Definition min_step (lowest n : number) : number :=
  match lowest, n with
  | S754_zero false, S754_zero true => n
  | _, _ => if ltb n lowest then n else lowest
  end.

Definition max (a b : number) : number :=
  if isNaN a || isNaN b then NaN
  else max_step (max_step (S754_infinity true) a) b.

Definition min (a b : number) : number :=
  if isNaN a || isNaN b then NaN
  else min_step (min_step (S754_infinity false) a) b.

End Math.

(** ** Strings as sequences of code units

    A JavaScript string is handled as a list of characters while it is
    scanned or built; [string] is kept at the interfaces ([localStorage],
    props). *)

Definition chars : Type := list ascii.

Definition is_digit (c : ascii) : bool :=
  (48 <=? N_of_ascii c)%N && (N_of_ascii c <=? 57)%N.

Definition digit_value (c : ascii) : N := (N_of_ascii c - 48)%N.

Definition digit_char (d : N) : ascii := ascii_of_N (48 + d).

(** Decimal digits of [n], most significant first, pushed in front of
    [acc]; [fuel] bounds the number of digits produced. *)
Fixpoint digits_aux (fuel : nat) (n : N) (acc : chars) : chars :=
  match fuel with
  | O => acc
  | S fuel' =>
      let acc' := digit_char (n mod 10) :: acc in
      if (n / 10 =? 0)%N then acc' else digits_aux fuel' (n / 10) acc'
  end.

Definition digits_of (n : N) : chars := digits_aux (S (N.to_nat (N.log2 n))) n [].

(** The value of the longest prefix of decimal digits, how many digits it
    has, and what follows it. *)
Fixpoint scan_digits (acc : N) (cnt : nat) (l : chars) : N * nat * chars :=
  match l with
  | c :: l' =>
      if is_digit c then scan_digits (10 * acc + digit_value c) (S cnt) l'
      else (acc, cnt, l)
  | [] => (acc, cnt, l)
  end.

Definition zeros (j : nat) : chars := replicate j "0"%char.

(** *** [parseFloat]

    The argument is trimmed of leading white space; the longest prefix
    that is a [StrDecimalLiteral] is read (a sign, then [Infinity] or
    digits with an optional fraction and an optional exponent) and its
    mathematical value is rounded to the nearest number.  Without such a
    prefix the result is [NaN]. *)

Definition is_white_space (c : ascii) : bool :=
  let n := N_of_ascii c in
  ((9 <=? n) && (n <=? 13) || (n =? 32) || (n =? 160))%N.

Fixpoint trim_start (l : chars) : chars :=
  match l with
  | c :: l' => if is_white_space c then trim_start l' else l
  | [] => []
  end.

Fixpoint starts_with (p l : chars) : bool :=
  match p, l with
  | [], _ => true
  | a :: p', b :: l' => if Ascii.eqb a b then starts_with p' l' else false
  | _ :: _, [] => false
  end.

(** The value of an [ExponentPart] at the head of [l], 0 when there is
    none. *)
Definition parse_exponent (l : chars) : Z :=
  match l with
  | c :: l1 =>
      if Ascii.eqb c "e" || Ascii.eqb c "E" then
        let '(neg, l2) :=
          match l1 with
          | "-"%char :: r => (true, r)
          | "+"%char :: r => (false, r)
          | _ => (false, l1)
          end in
        let '(v, cnt, _) := scan_digits 0 0 l2 in
        match cnt with
        | O => 0
        | S _ => if neg then - Z.of_N v else Z.of_N v
        end
      else 0
  | [] => 0
  end.

Definition parse_unsigned (neg : bool) (l : chars) : number :=
  if starts_with (list_ascii_of_string "Infinity") l then S754_infinity neg
  else
    let '(vi, ci, l1) := scan_digits 0 0 l in
    let '(v, cf, l2) :=
      match l1 with
      | "."%char :: r => scan_digits vi 0 r
      | _ => (vi, O, l1)
      end in
    match ci, cf with
    | O, O => NaN
    | _, _ => of_decimal neg v (parse_exponent l2 - Z.of_nat cf)
    end.

Definition parse_chars (l : chars) : number :=
  match trim_start l with
  | "-"%char :: r => parse_unsigned true r
  | "+"%char :: r => parse_unsigned false r
  | l' => parse_unsigned false l'
  end.

Definition parseFloat (s : string) : number :=
  parse_chars (list_ascii_of_string s).

(** *** [Number.prototype.toString]

    For a finite non-zero [x] the digits are those of the integers
    [n], [k], [s] with [k] as small as possible such that
    [s * 10^(n-k)] reads back as [x]; when two values of [s] qualify the
    one closest to [x] is taken, the even one on a tie.  The digits are
    then laid out in positional or exponent notation according to [n]. *)

Definition format_decimal (ds : chars) (n : Z) : chars :=
  let k := Z.of_nat (length ds) in
  if (-5 <=? n) && (n <=? 21) then
    if k <=? n then ds ++ zeros (Z.to_nat (n - k))
    else if 0 <? n then take (Z.to_nat n) ds ++ "."%char :: drop (Z.to_nat n) ds
    else "0"%char :: "."%char :: zeros (Z.to_nat (- n)) ++ ds
  else
    let sign := if n <? 0 then "-"%char else "+"%char in
    let e := digits_of (Z.to_N (Z.abs (n - 1))) in
    match ds with
    | [d] => d :: "e"%char :: sign :: e
    | _ => take 1 ds ++ "."%char :: drop 1 ds ++ "e"%char :: sign :: e
    end.

(** [m * 2^e] written as [M * 10^(-K)] with [M] and [K] integers. *)
Definition exact_decimal (m : positive) (e : Z) : N * Z :=
  match e with
  | Zneg k => (Npos (m * 5 ^ k), Zpos k)
  | Z0 => (Npos m, 0)
  | Zpos k => (Npos (m * 2 ^ k), 0)
  end.

(** The [k]-digit decimals just below and just above [M * 10^(n-D)]
    ([M] has [D] digits), kept when they read back as [x]. *)
Definition candidate (x : number) (M : N) (D : nat) (n : Z) (k : nat)
  : option chars :=
  let P := (10 ^ N.of_nat (D - k))%N in
  let lo := (M / P)%N in
  let hi := (lo + 1)%N in
  let r := (M mod P)%N in
  let str_lo := format_decimal (digits_of lo) n in
  let str_hi :=
    if (hi =? 10 ^ N.of_nat k)%N then format_decimal (digits_of 1) (n + 1)
    else format_decimal (digits_of hi) n in
  match bool_decide (parse_chars str_lo = x), bool_decide (parse_chars str_hi = x) with
  | true, true =>
      Some (if (2 * r <? P)%N then str_lo
            else if (P <? 2 * r)%N then str_hi
            else if N.even lo then str_lo else str_hi)
  | true, false => Some str_lo
  | false, true => Some str_hi
  | false, false => None
  end.

Fixpoint first_some {A B : Type} (f : A -> option B) (l : list A) : option B :=
  match l with
  | [] => None
  | a :: l' => match f a with Some b => Some b | None => first_some f l' end
  end.

Definition toString_pos (m : positive) (e : Z) : chars :=
  let '(M, K) := exact_decimal m e in
  let ds := digits_of M in
  let D := length ds in
  let n := Z.of_nat D - K in
  match first_some (candidate (S754_finite false m e) M D n) (seq 1 (D - 1)) with
  | Some str => str
  | None => format_decimal ds n
  end.

Definition toString_chars (x : number) : chars :=
  match x with
  | S754_nan => list_ascii_of_string "NaN"
  | S754_zero _ => list_ascii_of_string "0"
  | S754_infinity false => list_ascii_of_string "Infinity"
  | S754_infinity true => list_ascii_of_string "-Infinity"
  | S754_finite false m e => toString_pos m e
  | S754_finite true m e => "-"%char :: toString_pos m e
  end.

Definition toString (x : number) : string :=
  string_of_list_ascii (toString_chars x).

(** *** Digit sequences *)

(** The value of a digit sequence read after [acc]. *)
Definition digits_value (acc : N) (ds : chars) : N :=
  fold_left (fun a c => (10 * a + digit_value c)%N) ds acc.

Definition all_digits (ds : chars) : Prop := Forall (fun c => is_digit c = true) ds.

(** What follows a digit sequence does not start with a digit. *)
Definition no_digit_head (rest : chars) : Prop :=
  match rest with
  | c :: _ => is_digit c = false
  | [] => True
  end.

(** A string that starts with a decimal digit. *)
Definition digit_head (str : chars) : Prop :=
  exists c l, str = c :: l /\ is_digit c = true.

Definition boolToString (b : bool) : string :=
  if b then "true"%string else "false"%string.

(** ** The preference store: [localStorage] *)

Module localStorage.

Definition getItem (ls : gmap string string) (key : string) : option string :=
  ls !! key.

Definition setItem (ls : gmap string string) (key value : string)
  : gmap string string :=
  <[key := value]> ls.

End localStorage.

(** ** The layout controller ([App.jsx]) *)

Record DOMRect := { left : number; width : number }.

(** [newWidth] of [handleMouseMove]:
    [((rect.width - (clientX - rect.left)) / rect.width) * 100]. *)
Definition newWidth (clientX : number) (containerRect : DOMRect) : number :=
  mul (div (sub (width containerRect) (sub clientX (left containerRect)))
           (width containerRect))
      (of_Z 100).

(** [Math.max(lo, Math.min(hi, newWidth))]. *)
Definition constrain (lo hi x : number) : number :=
  Math.max lo (Math.min hi x).

Module App.

Record State := {
  chatbotWidth : number;
  isDesktop : bool;
  isChatbotVisible : bool;
  isAnalysisCollapsed : bool;
  isChatbotCollapsed : bool;
  isResizing : bool
}.

Definition setChatbotWidth (w : number) (s : State) : State :=
  {| chatbotWidth := w; isDesktop := isDesktop s;
     isChatbotVisible := isChatbotVisible s;
     isAnalysisCollapsed := isAnalysisCollapsed s;
     isChatbotCollapsed := isChatbotCollapsed s;
     isResizing := isResizing s |}.

Definition setIsDesktop (b : bool) (s : State) : State :=
  {| chatbotWidth := chatbotWidth s; isDesktop := b;
     isChatbotVisible := isChatbotVisible s;
     isAnalysisCollapsed := isAnalysisCollapsed s;
     isChatbotCollapsed := isChatbotCollapsed s;
     isResizing := isResizing s |}.

Definition setIsChatbotVisible (b : bool) (s : State) : State :=
  {| chatbotWidth := chatbotWidth s; isDesktop := isDesktop s;
     isChatbotVisible := b;
     isAnalysisCollapsed := isAnalysisCollapsed s;
     isChatbotCollapsed := isChatbotCollapsed s;
     isResizing := isResizing s |}.

Definition setIsAnalysisCollapsed (b : bool) (s : State) : State :=
  {| chatbotWidth := chatbotWidth s; isDesktop := isDesktop s;
     isChatbotVisible := isChatbotVisible s;
     isAnalysisCollapsed := b;
     isChatbotCollapsed := isChatbotCollapsed s;
     isResizing := isResizing s |}.

Definition setIsChatbotCollapsed (b : bool) (s : State) : State :=
  {| chatbotWidth := chatbotWidth s; isDesktop := isDesktop s;
     isChatbotVisible := isChatbotVisible s;
     isAnalysisCollapsed := isAnalysisCollapsed s;
     isChatbotCollapsed := b;
     isResizing := isResizing s |}.

Definition setIsResizing (b : bool) (s : State) : State :=
  {| chatbotWidth := chatbotWidth s; isDesktop := isDesktop s;
     isChatbotVisible := isChatbotVisible s;
     isAnalysisCollapsed := isAnalysisCollapsed s;
     isChatbotCollapsed := isChatbotCollapsed s;
     isResizing := b |}.

(** *** State initializers

    [saved ? parseFloat(saved) : 20] and [saved ? saved === 'true' : true]:
    [null] and the empty string are the falsy values of [saved]. *)

Definition initialChatbotWidth (ls : gmap string string) : number :=
  match localStorage.getItem ls "chatbotWidth" with
  | Some saved =>
      match saved with
      | EmptyString => of_Z 20
      | String _ _ => parseFloat saved
      end
  | None => of_Z 20
  end.

Definition initialIsChatbotVisible (ls : gmap string string) : bool :=
  match localStorage.getItem ls "chatbotVisible" with
  | Some saved =>
      match saved with
      | EmptyString => true
      | String _ _ => bool_decide (saved = "true"%string)
      end
  | None => true
  end.

Definition initialState (ls : gmap string string) (innerWidth : number) : State :=
  {| chatbotWidth := initialChatbotWidth ls;
     isDesktop := geb innerWidth (of_Z 1024);
     isChatbotVisible := initialIsChatbotVisible ls;
     isAnalysisCollapsed := false;
     isChatbotCollapsed := false;
     isResizing := false |}.

(** *** Persistence effects

    Each effect runs after the first render and after every render in
    which its dependency changed. *)

Definition saveWidth (s : State) (ls : gmap string string) : gmap string string :=
  localStorage.setItem ls "chatbotWidth" (toString (chatbotWidth s)).

Definition saveVisible (s : State) (ls : gmap string string) : gmap string string :=
  localStorage.setItem ls "chatbotVisible" (boolToString (isChatbotVisible s)).

Definition mountEffects (s : State) (ls : gmap string string) : gmap string string :=
  saveVisible s (saveWidth s ls).

Definition updateEffects (prev next : State) (ls : gmap string string)
  : gmap string string :=
  let ls1 :=
    if bool_decide (chatbotWidth prev = chatbotWidth next) then ls
    else saveWidth next ls in
  if bool_decide (isChatbotVisible prev = isChatbotVisible next) then ls1
  else saveVisible next ls1.

(** *** Handlers *)

Definition handleResize (innerWidth : number) (s : State) : State :=
  setIsDesktop (geb innerWidth (of_Z 1024)) s.

Definition handleCollapseAnalysis (s : State) : State :=
  setChatbotWidth (of_Z 95)
    (setIsChatbotCollapsed false (setIsAnalysisCollapsed true s)).

Definition handleCollapseChatbot (s : State) : State :=
  setChatbotWidth (of_Z 5)
    (setIsAnalysisCollapsed false (setIsChatbotCollapsed true s)).

Definition handleExpandBoth (s : State) : State :=
  setChatbotWidth (of_Z 20)
    (setIsChatbotCollapsed false (setIsAnalysisCollapsed false s)).

(** [container] is [None] when [resizeRef.current] or its parent element
    is missing. *)
Definition handleMouseMove (clientX : number) (container : option DOMRect)
    (s : State) : State :=
  if negb (isResizing s) then s
  else
    match container with
    | None => s
    | Some containerRect =>
        let constrainedWidth :=
          constrain (of_Z 5) (of_Z 95) (newWidth clientX containerRect) in
        setChatbotWidth constrainedWidth s
    end.

Definition handleMouseUp (s : State) : State := setIsResizing false s.

Definition handleSeparatorMouseDown (s : State) : State := setIsResizing true s.

Definition handleToggleChatbot (s : State) : State :=
  setIsChatbotVisible (negb (isChatbotVisible s)) s.

Inductive Event :=
| ToggleChatbot
| WindowResize (innerWidth : number)
| CollapseAnalysis
| CollapseChatbot
| ExpandBoth
| SeparatorMouseDown
| MouseMove (clientX : number) (container : option DOMRect)
| MouseUp.

Definition handle (ev : Event) (s : State) : State :=
  match ev with
  | ToggleChatbot => handleToggleChatbot s
  | WindowResize w => handleResize w s
  | CollapseAnalysis => handleCollapseAnalysis s
  | CollapseChatbot => handleCollapseChatbot s
  | ExpandBoth => handleExpandBoth s
  | SeparatorMouseDown => handleSeparatorMouseDown s
  | MouseMove x r => handleMouseMove x r s
  | MouseUp => handleMouseUp s
  end.

(** The component together with the store it writes to. *)
Definition mount (ls : gmap string string) (innerWidth : number)
  : State * gmap string string :=
  let s := initialState ls innerWidth in (s, mountEffects s ls).

Definition step (ev : Event) (w : State * gmap string string)
  : State * gmap string string :=
  let s' := handle ev (fst w) in (s', updateEffects (fst w) s' (snd w)).

Definition run (evs : list Event) (w : State * gmap string string)
  : State * gmap string string :=
  fold_left (fun w ev => step ev w) evs w.

(** States reachable from a mount on the store [ls]. *)
Inductive reachable (ls : gmap string string) : State * gmap string string -> Prop :=
| reachable_mount innerWidth : reachable ls (mount ls innerWidth)
| reachable_step ev w : reachable ls w -> reachable ls (step ev w).

Definition inRange (lo hi x : number) : bool := leb lo x && leb x hi.

End App.

(** The earlier variant of the component: no collapse and no visibility
    toggle, default width 33.33, resize constrained to 25..60. *)

Module AppResizable.

Record State := {
  chatbotWidth : number;
  isResizing : bool;
  isDesktop : bool
}.

Definition initialChatbotWidth (ls : gmap string string) : number :=
  match localStorage.getItem ls "chatbotWidth" with
  | Some saved =>
      match saved with
      | EmptyString => of_decimal false 3333 (-2)
      | String _ _ => parseFloat saved
      end
  | None => of_decimal false 3333 (-2)
  end.

Definition handleMouseMove (clientX : number) (container : option DOMRect)
    (s : State) : State :=
  if negb (isResizing s) then s
  else
    match container with
    | None => s
    | Some containerRect =>
        let constrainedWidth :=
          constrain (of_Z 25) (of_Z 60) (newWidth clientX containerRect) in
        {| chatbotWidth := constrainedWidth;
           isResizing := isResizing s; isDesktop := isDesktop s |}
    end.

End AppResizable.

(** *** Auxiliary notions for the layout controller *)

Definition isNonZeroFinite (x : number) : bool :=
  match x with S754_finite _ _ _ => true | _ => false end.

(** A pointer move is regular when it computes a width that is a number:
    there is no container, or [newWidth] is not [NaN]. *)
Definition regularMove (ev : App.Event) : bool :=
  match ev with
  | App.MouseMove clientX (Some r) => negb (isNaN (newWidth clientX r))
  | _ => true
  end.

Definition minPercent : number := of_Z 5.
Definition maxPercent : number := of_Z 95.
Definition defaultPercent : number := of_Z 20.

(** ** The combobox ([SearchableSelect.jsx]) *)

(** [String.prototype.toLowerCase] on the letters A-Z; other code units
    are left as they are, so that this is the built-in function on
    strings of ASCII characters only.  The properties of the filter use
    nothing of it but that it is a function on strings, except the one
    on longer queries, which is stated for ASCII queries. *)
Definition lower_ascii (c : ascii) : ascii :=
  let n := N_of_ascii c in
  if ((65 <=? n) && (n <=? 90))%N then ascii_of_N (n + 32) else c.

Fixpoint toLowerCase (s : string) : string :=
  match s with
  | EmptyString => EmptyString
  | String c s' => String (lower_ascii c) (toLowerCase s')
  end.

(** The strings of code units below 128. *)
Definition isAscii (s : string) : bool :=
  forallb (fun c => (N_of_ascii c <? 128)%N) (list_ascii_of_string s).

(** [s.includes(sub)]: [sub] occurs in [s] at some position. *)
Fixpoint includes (s sub : string) : bool :=
  String.prefix sub s ||
  match s with
  | EmptyString => false
  | String _ s' => includes s' sub
  end.

(** [Array.prototype.filter]: the elements for which the callback returns
    a truthy value are pushed, in index order, on a fresh array. *)
Fixpoint array_filter {A : Type} (callback : A -> bool) (arr result : list A)
  : list A :=
  match arr with
  | [] => result
  | a :: arr' =>
      array_filter callback arr' (if callback a then result ++ [a] else result)
  end.

Module SearchableSelect.

(** What the handlers do to the outside world. *)
Inductive Effect (V : Type) :=
| OnChange (v : V)
| ConsoleError
| PreventDefault.
Arguments OnChange {V} v.
Arguments ConsoleError {V}.
Arguments PreventDefault {V}.

(** The props.  An accessor that throws on an option (or does not
    return a string) has no result there; [onChangeThrows] tells
    whether the caller's callback throws on a value. *)
Record Props (O V : Type) := {
  options : list O;
  disabled : bool;
  getOptionLabel : O -> option string;
  getOptionValue : O -> option V;
  onChangeThrows : V -> bool
}.
Arguments options {O V} _.
Arguments disabled {O V} _.
Arguments getOptionLabel {O V} _ _.
Arguments getOptionValue {O V} _ _.
Arguments onChangeThrows {O V} _ _.

Record State := {
  isOpen : bool;
  searchTerm : string;
  highlightedIndex : Z
}.

Definition initialState : State :=
  {| isOpen := false; searchTerm := ""%string; highlightedIndex := -1 |}.

Definition setIsOpen (b : bool) (s : State) : State :=
  {| isOpen := b; searchTerm := searchTerm s;
     highlightedIndex := highlightedIndex s |}.

Definition setSearchTerm (q : string) (s : State) : State :=
  {| isOpen := isOpen s; searchTerm := q;
     highlightedIndex := highlightedIndex s |}.

Definition setHighlightedIndex (f : Z -> Z) (s : State) : State :=
  {| isOpen := isOpen s; searchTerm := searchTerm s;
     highlightedIndex := f (highlightedIndex s) |}.

Inductive Key := Enter | ArrowDown | ArrowUp | Escape | OtherKey.

Section Component.
Context {O V : Type}.
Variable props : Props O V.

(** The callback of [options.filter]: the [try] block, [false] from
    the [catch]. *)
Definition filterCallback (searchTerm : string) (opt : O) : bool :=
  match getOptionLabel props opt with
  | Some l => includes (toLowerCase l) (toLowerCase searchTerm)
  | None => false
  end.

(** [options] is an array ([Array.isArray(options)] holds). *)
Definition filteredOptions (s : State) : list O :=
  array_filter (filterCallback (searchTerm s)) (options props) [].

(** [targetInside] is the negation of
    [dropdownRef.current && !dropdownRef.current.contains(event.target)]. *)
Definition handleClickOutside (targetInside : bool) (s : State) : State :=
  if targetInside then s
  else setHighlightedIndex (fun _ => -1) (setSearchTerm ""%string (setIsOpen false s)).

Definition handleSelect (option : O) (s : State) : State * list (Effect V) :=
  match getOptionValue props option with
  | None => (s, [ConsoleError])
  | Some optionValue =>
      if onChangeThrows props optionValue
      then (s, [OnChange optionValue; ConsoleError])
      else (setHighlightedIndex (fun _ => -1)
              (setSearchTerm ""%string (setIsOpen false s)),
            [OnChange optionValue])
  end.

(** [filteredOptions[highlightedIndex]], when it is an element (the
    options are objects, hence truthy). *)
Definition highlightedOption (s : State) : option O :=
  if 0 <=? highlightedIndex s
  then filteredOptions s !! Z.to_nat (highlightedIndex s)
  else None.

Definition handleKeyDown (key : Key) (s : State) : State * list (Effect V) :=
  if disabled props then (s, [])
  else
    match key with
    | Enter =>
        match highlightedOption s with
        | Some option =>
            let '(s', effs) := handleSelect option s in
            (s', PreventDefault :: effs)
        | None =>
            if isOpen s then (setIsOpen false s, [PreventDefault])
            else (setIsOpen true s, [PreventDefault])
        end
    | ArrowDown =>
        if negb (isOpen s) then (setIsOpen true s, [PreventDefault])
        else
          (setHighlightedIndex
             (fun prev =>
                if prev <? Z.of_nat (length (filteredOptions s)) - 1
                then prev + 1 else prev) s,
           [PreventDefault])
    | ArrowUp =>
        (setHighlightedIndex (fun prev => if 0 <? prev then prev - 1 else 0) s,
         [PreventDefault])
    | Escape =>
        (setHighlightedIndex (fun _ => -1)
           (setSearchTerm ""%string (setIsOpen false s)), [])
    | OtherKey => (s, [])
    end.

Definition handleInputChange (value : string) (s : State) : State :=
  let s' := setHighlightedIndex (fun _ => -1) (setSearchTerm value s) in
  if negb (isOpen s) then setIsOpen true s' else s'.

Definition handleFocus (s : State) : State :=
  if negb (disabled props) then setSearchTerm ""%string (setIsOpen true s)
  else s.

(** [onClick] of the control: [!disabled && setIsOpen(!isOpen)]. *)
Definition handleToggleClick (s : State) : State :=
  if negb (disabled props) then setIsOpen (negb (isOpen s)) s else s.

(** [onMouseEnter] of the list item at [index]. *)
Definition handleMouseEnter (index : nat) (s : State) : State :=
  setHighlightedIndex (fun _ => Z.of_nat index) s.

Inductive Event :=
| ClickOutside (targetInside : bool)
| KeyDown (key : Key)
| Select (option : O)
| InputChange (value : string)
| Focus
| ToggleClick
| MouseEnter (index : nat).

Definition handle (ev : Event) (s : State) : State * list (Effect V) :=
  match ev with
  | ClickOutside inside => (handleClickOutside inside s, [])
  | KeyDown key => handleKeyDown key s
  | Select option => handleSelect option s
  | InputChange value => (handleInputChange value s, [])
  | Focus => (handleFocus s, [])
  | ToggleClick => (handleToggleClick s, [])
  | MouseEnter index => (handleMouseEnter index s, [])
  end.

Definition run (evs : list Event) (s : State) : State :=
  fold_left (fun s ev => fst (handle ev s)) evs s.

Inductive reachable : State -> Prop :=
| reachable_init : reachable initialState
| reachable_step ev s : reachable s -> reachable (fst (handle ev s)).

(** The closed state with nothing typed and nothing highlighted. *)
Definition neutral : State := initialState.

End Component.

End SearchableSelect.

(** *** The filter of the specification and two sample widgets *)

(** The filter in the words of the specification, for a label accessor
    that has a string for every option. *)
Definition spec_filteredOptions {O : Type} (labelOf : O -> string)
    (query : string) (options : list O) : list O :=
  List.filter
    (fun o => includes (toLowerCase (labelOf o)) (toLowerCase query)) options.

(** Two options, as in the example of the specification. *)
Definition exampleProps : SearchableSelect.Props (nat * string) nat :=
  {| SearchableSelect.options := [(1%nat, "Alpha"%string); (2%nat, "Beta"%string)];
     SearchableSelect.disabled := false;
     SearchableSelect.getOptionLabel := fun o => Some (snd o);
     SearchableSelect.getOptionValue := fun o => Some (fst o);
     SearchableSelect.onChangeThrows := fun _ => false |}.

(** An accessor that throws on the second option and a callback that
    throws on the value 1. *)
Definition throwingProps : SearchableSelect.Props (nat * string) nat :=
  {| SearchableSelect.options := [(1%nat, "Alpha"%string); (2%nat, "Beta"%string)];
     SearchableSelect.disabled := false;
     SearchableSelect.getOptionLabel := fun o => Some (snd o);
     SearchableSelect.getOptionValue :=
       fun o => if Nat.eqb (fst o) 2 then None else Some (fst o);
     SearchableSelect.onChangeThrows := fun v => Nat.eqb v 1 |}.

(** ** What the combobox shows, and what a sequence of events does to the
    caller *)

(** [Array.prototype.find]: the first element for which the callback
    returns a truthy value. *)
Fixpoint array_find {A : Type} (callback : A -> bool) (arr : list A) : option A :=
  match arr with
  | [] => None
  | a :: arr' => if callback a then Some a else array_find callback arr'
  end.

Module SearchableSelectView.

Section View.
Context {O V : Type} `{EqDecision V}.
Variable props : SearchableSelect.Props O V.
Variable value : V.
Variable placeholder : string.

(** The callback of [options.find]: [getOptionValue(opt) === value],
    [false] from the [catch]. *)
Definition selectedCallback (opt : O) : bool :=
  match SearchableSelect.getOptionValue props opt with
  | Some v => bool_decide (v = value)
  | None => false
  end.

Definition selectedOption : option O :=
  array_find selectedCallback (SearchableSelect.options props).

(** The label of the selected option, [''] when there is none or when the
    label accessor throws. *)
Definition displayValue : string :=
  match selectedOption with
  | Some opt =>
      match SearchableSelect.getOptionLabel props opt with
      | Some l => l
      | None => ""%string
      end
  | None => ""%string
  end.

(** [value] and [placeholder] of the input element. *)
Definition inputValue (s : SearchableSelect.State) : string :=
  if SearchableSelect.isOpen s then SearchableSelect.searchTerm s else displayValue.

Definition inputPlaceholder (s : SearchableSelect.State) : string :=
  if SearchableSelect.isOpen s then "Type to search..."%string else placeholder.

(** The option list is rendered when [isOpen && !disabled]. *)
Definition listShown (s : SearchableSelect.State) : bool :=
  SearchableSelect.isOpen s && negb (SearchableSelect.disabled props).

End View.

Section Trace.
Context {O V : Type}.
Variable props : SearchableSelect.Props O V.

(** The state after a sequence of events, with everything the handlers
    did to the outside world, in order. *)
Fixpoint trace (evs : list (SearchableSelect.Event (O := O)))
    (s : SearchableSelect.State)
  : SearchableSelect.State * list (SearchableSelect.Effect V) :=
  match evs with
  | [] => (s, [])
  | ev :: evs' =>
      let '(s1, effs1) := SearchableSelect.handle props ev s in
      let '(s2, effs2) := trace evs' s1 in
      (s2, effs1 ++ effs2)
  end.

(** One press of ArrowDown. *)
Definition arrowDown (s : SearchableSelect.State) : SearchableSelect.State :=
  fst (SearchableSelect.handleKeyDown props SearchableSelect.ArrowDown s).

(** The events that the handlers ignore while [disabled] holds: key
    presses, focus and the click on the control. *)
Definition isGuardedEvent (ev : SearchableSelect.Event (O := O)) : bool :=
  match ev with
  | SearchableSelect.KeyDown _ => true
  | SearchableSelect.Focus => true
  | SearchableSelect.ToggleClick => true
  | _ => false
  end.

Definition isOnChange (eff : SearchableSelect.Effect V) : bool :=
  match eff with SearchableSelect.OnChange _ => true | _ => false end.

Definition countOnChange (effs : list (SearchableSelect.Effect V)) : nat :=
  length (List.filter isOnChange effs).

(** The events that can commit: a click on an option and the Enter key. *)
Definition isCommitEvent (ev : SearchableSelect.Event (O := O)) : bool :=
  match ev with
  | SearchableSelect.Select _ => true
  | SearchableSelect.KeyDown SearchableSelect.Enter => true
  | _ => false
  end.

End Trace.

End SearchableSelectView.

(** ** JavaScript values where the code relies on truthiness *)

Inductive JsValue :=
| JUndefined
| JNull
| JBool (b : bool)
| JNumber (x : number)
| JString (s : string)
| JObject.

Definition truthy (v : JsValue) : bool :=
  match v with
  | JUndefined | JNull => false
  | JBool b => b
  | JNumber x =>
      match x with
      | S754_zero _ | S754_nan => false
      | _ => true
      end
  | JString s => match s with EmptyString => false | String _ _ => true end
  | JObject => true
  end.

(** [a || b]. *)
Definition js_or (a b : JsValue) : JsValue := if truthy a then a else b.

(** A string is truthy when it is not empty. *)
Definition nonEmpty (s : string) : bool :=
  match s with EmptyString => false | String _ _ => true end.

(** [String.prototype.substring(start, end)]: both indices are clamped to
    the length and swapped when [start > end]. *)
Definition substring (start stop : nat) (l : chars) : chars :=
  let a := Nat.min start (length l) in
  let b := Nat.min stop (length l) in
  take (Nat.max a b - Nat.min a b) (drop (Nat.min a b) l).

(** ** The project data of [App.jsx]: selection and meeting date *)

Module AppData.

Record Meeting := {
  meeting_name : string;
  date_time : option string;
  participants : option (list string)
}.

Record ProjectData := { meetings : option (list Meeting) }.

Record State := {
  selectedProject : string;
  selectedMeeting : string;
  projectData : option ProjectData;
  loading : bool;
  error : JsValue;
  projectKey : string
}.

Definition initialState : State :=
  {| selectedProject := ""; selectedMeeting := ""; projectData := None;
     loading := false; error := JNull; projectKey := "" |}.

(** [projectData?.meetings?.find(m => m.meeting_name === selectedMeeting)]. *)
Definition selectedMeetingData (s : State) : option Meeting :=
  match projectData s with
  | Some data =>
      match meetings data with
      | Some ms =>
          array_find (fun m => bool_decide (meeting_name m = selectedMeeting s)) ms
      | None => None
      end
  | None => None
  end.

(** [selectedMeetingData?.participants || []]. *)
Definition participantsOf (s : State) : list string :=
  match selectedMeetingData s with
  | Some m => match participants m with Some ps => ps | None => [] end
  | None => []
  end.

(** *** The regular expression [/-(\d{8})_(\d{6})/] *)

(** [n] decimal digits at the head of [l], and what follows them. *)
Fixpoint take_digits (n : nat) (l : chars) : option (chars * chars) :=
  match n with
  | O => Some ([], l)
  | S n' =>
      match l with
      | c :: l' =>
          if is_digit c then
            match take_digits n' l' with
            | Some (ds, rest) => Some (c :: ds, rest)
            | None => None
            end
          else None
      | [] => None
      end
  end.

(** The two groups of a match that starts at the head of [l]. *)
Definition match_here (l : chars) : option (chars * chars) :=
  match l with
  | c :: l1 =>
      if Ascii.eqb c "-" then
        match take_digits 8 l1 with
        | Some (dateStr, c' :: l2) =>
            if Ascii.eqb c' "_" then
              match take_digits 6 l2 with
              | Some (timeStr, _) => Some (dateStr, timeStr)
              | None => None
              end
            else None
        | _ => None
        end
      else None
  | [] => None
  end.

(** The groups of the leftmost match in [l]. *)
Fixpoint regex_match (l : chars) : option (chars * chars) :=
  match match_here l with
  | Some groups => Some groups
  | None =>
      match l with
      | [] => None
      | _ :: l' => regex_match l'
      end
  end.

Definition formatDateTime (dateStr timeStr : chars) : chars :=
  let year := substring 0 4 dateStr in
  let month := substring 4 6 dateStr in
  let day := substring 6 8 dateStr in
  let hour := substring 0 2 timeStr in
  let minute := substring 2 4 timeStr in
  let second := substring 4 6 timeStr in
  year ++ "-"%char :: month ++ "-"%char :: day ++ " "%char ::
  hour ++ ":"%char :: minute ++ ":"%char :: second.

(** [selectedMeetingData?.date_time], when it is truthy. *)
Definition recordedDateTime (s : State) : option string :=
  match selectedMeetingData s with
  | Some m =>
      match date_time m with
      | Some dt => if nonEmpty dt then Some dt else None
      | None => None
      end
  | None => None
  end.

Definition getMeetingDateTime (s : State) : option string :=
  match recordedDateTime s with
  | Some dt => Some dt
  | None =>
      match regex_match (list_ascii_of_string (selectedMeeting s)) with
      | Some (dateStr, timeStr) =>
          Some (string_of_list_ascii (formatDateTime dateStr timeStr))
      | None => None
      end
  end.

(** *** [handleSelect]

    The handler is asynchronous: [handleSelectBegin] is what it does up to
    the [await], with the key of the request it starts, if any;
    [handleSelectSettle] is what it does when that request settles. *)

(** What [getProjectData] rejects with, as far as the handler reads it:
    [err.response?.data?.detail] and [err.message]. *)
Record FetchError := { detail : JsValue; message : JsValue }.

Definition setLoading (b : bool) (s : State) : State :=
  {| selectedProject := selectedProject s; selectedMeeting := selectedMeeting s;
     projectData := projectData s; loading := b; error := error s;
     projectKey := projectKey s |}.

Definition setError (e : JsValue) (s : State) : State :=
  {| selectedProject := selectedProject s; selectedMeeting := selectedMeeting s;
     projectData := projectData s; loading := loading s; error := e;
     projectKey := projectKey s |}.

Definition setProjectData (d : option ProjectData) (s : State) : State :=
  {| selectedProject := selectedProject s; selectedMeeting := selectedMeeting s;
     projectData := d; loading := loading s; error := error s;
     projectKey := projectKey s |}.

Definition keyToUse (projectKeyValue : string) (s : State) : string :=
  if nonEmpty projectKeyValue then projectKeyValue else projectKey s.

Definition handleSelectBegin (projectName meetingName projectKeyValue : string)
    (s : State) : State * option string :=
  let key := keyToUse projectKeyValue s in
  let s1 :=
    {| selectedProject := projectName; selectedMeeting := meetingName;
       projectData := projectData s; loading := loading s; error := JNull;
       projectKey := if nonEmpty projectKeyValue then projectKeyValue
                     else projectKey s |} in
  if nonEmpty projectName && nonEmpty key && nonEmpty meetingName then
    (setLoading true (setProjectData None s1), Some key)
  else if negb (nonEmpty meetingName) then (setProjectData None s1, None)
  else if nonEmpty projectName && negb (nonEmpty key) then
    (setProjectData None
       (setError (JString "Project key not found. Please select the project again.") s1),
     None)
  else (s1, None).

Definition errorMessage (err : FetchError) : JsValue :=
  js_or (js_or (detail err) (message err))
        (JString "Failed to load project data. Please try again.").

Definition handleSelectSettle (result : ProjectData + FetchError) (s : State) : State :=
  match result with
  | inl data => setLoading false (setProjectData (Some data) s)
  | inr err => setLoading false (setProjectData None (setError (errorMessage err) s))
  end.

End AppData.

(** ** The widths [App.jsx] gives to the two panes *)

Module AppView.

(** [`${x}%`]. *)
Definition percent (x : number) : string := (toString x ++ "%")%string.

(** The [width] style of the analysis pane. *)
Definition analysisPaneWidth (s : App.State) : string :=
  if App.isDesktop s && App.isChatbotVisible s && negb (App.isAnalysisCollapsed s)
  then percent (sub (of_Z 100) (App.chatbotWidth s))
  else if App.isDesktop s && App.isChatbotVisible s && App.isAnalysisCollapsed s
  then "5%"%string
  else "100%"%string.

(** The [width] style of the chat pane, which is rendered only when
    [isChatbotVisible] holds. *)
Definition chatPaneWidth (s : App.State) : option string :=
  if App.isChatbotVisible s then
    Some (if App.isDesktop s && negb (App.isChatbotCollapsed s)
          then percent (App.chatbotWidth s)
          else if App.isDesktop s && App.isChatbotCollapsed s then "5%"%string
          else "100%"%string)
  else None.

(** The separator is rendered, and a drag can start, when the chat is
    visible and nothing is collapsed. *)
Definition separatorShown (s : App.State) : bool :=
  App.isChatbotVisible s && negb (App.isAnalysisCollapsed s)
  && negb (App.isChatbotCollapsed s).

Definition isMouseMove (ev : App.Event) : bool :=
  match ev with App.MouseMove _ _ => true | _ => false end.

End AppView.

(** The pointer moves of the earlier variant that compute a number. *)
Definition inRangeResizable (x : number) : bool := App.inRange (of_Z 25) (of_Z 60) x.

(** ** The project selector ([ProjectSelector.jsx]) *)

(** A field of a JSON object that holds a string or is missing. *)

(** [a || b]. *)
Definition or_field (a b : option string) : option string :=
  match a with
  | Some s => if nonEmpty s then a else b
  | None => b
  end.

(** [a || '']. *)
Definition or_empty (a : option string) : string :=
  match a with
  | Some s => s
  | None => ""%string
  end.

Module ProjectSelector.

(** The transcripts as the backend sends them. *)
Module Raw.

Record Meeting := {
  meeting_name : option string;
  meetingName : option string;
  meeting_time : option string;
  meetingTime : option string
}.

Record Transcript := {
  project_name : option string;
  Project_name : option string;
  project_key : option string;
  Project_key : option string;
  meetings : option (list Meeting)
}.

End Raw.

Record Meeting := { meeting_name : string; meeting_time : string }.

Record Project := {
  project_name : string;
  project_key : string;
  meetings : list Meeting
}.

(** [projectsMap], a [Map] from project names to projects, in the order
    of insertion. *)
Definition map_has (k : string) (pm : list (string * Project)) : bool :=
  existsb (fun e => bool_decide (fst e = k)) pm.

(** A change of the project stored under [k], which the code makes
    through the object that [projectsMap.get] returns. *)
Fixpoint map_alter (f : Project -> Project) (k : string)
    (pm : list (string * Project)) : list (string * Project) :=
  match pm with
  | [] => []
  | e :: pm' =>
      if bool_decide (fst e = k) then (fst e, f (snd e)) :: pm'
      else e :: map_alter f k pm'
  end.

Definition meetingKey (meeting : Raw.Meeting) : option string :=
  or_field (Raw.meeting_name meeting) (Raw.meetingName meeting).

(** The body of [transcript.meetings.forEach]. *)
Definition addMeeting (acc : list Meeting) (meeting : Raw.Meeting) : list Meeting :=
  let meetingExists :=
    existsb (fun m => bool_decide (Some (meeting_name m) = meetingKey meeting)) acc in
  if meetingExists then acc
  else acc ++ [{| meeting_name := or_empty (meetingKey meeting);
                  meeting_time :=
                    or_empty (or_field (Raw.meeting_time meeting)
                                       (Raw.meetingTime meeting)) |}].

Definition projectNameOf (transcript : Raw.Transcript) : option string :=
  or_field (Raw.project_name transcript) (Raw.Project_name transcript).

Definition projectKeyOf (transcript : Raw.Transcript) : option string :=
  or_field (Raw.project_key transcript) (Raw.Project_key transcript).

Definition pushMeetings (ms : list Raw.Meeting) (p : Project) : Project :=
  {| project_name := project_name p; project_key := project_key p;
     meetings := fold_left addMeeting ms (meetings p) |}.

(** The body of [transcripts.forEach]. *)
Definition addTranscript (pm : list (string * Project)) (transcript : Raw.Transcript)
  : list (string * Project) :=
  match projectNameOf transcript with
  | Some projectName =>
      if nonEmpty projectName then
        let pm1 :=
          if map_has projectName pm then pm
          else pm ++ [(projectName,
                       {| project_name := projectName;
                          project_key := or_empty (projectKeyOf transcript);
                          meetings := [] |})] in
        match Raw.meetings transcript with
        | Some ms => map_alter (pushMeetings ms) projectName pm1
        | None => pm1
        end
      else pm
  | None => pm
  end.

(** [Array.from(projectsMap.values())]. *)
Definition extractProjects (transcripts : list Raw.Transcript) : list Project :=
  map snd (fold_left addTranscript transcripts []).

Definition findProject (projectList : list Project) (name : string) : option Project :=
  array_find (fun p => bool_decide (project_name p = name)) projectList.

(** The names that are not empty. *)
Definition namedOnly (ms : list Meeting) : list string :=
  List.filter nonEmpty (map meeting_name ms).

(** What holds of [projectsMap] after any number of transcripts: distinct
    keys, each the non-empty name of its project, and distinct non-empty
    meeting names within each project. *)
Definition groupedWell (pm : list (string * Project)) : Prop :=
  NoDup (map fst pm)
  /\ forall k p, (k, p) ∈ pm ->
       project_name p = k /\ nonEmpty k = true /\ NoDup (namedOnly (meetings p)).

(** The selector next to the selection state of [App], which it reads
    ([selectedProject]) and changes through [onSelect]. *)
Record State := {
  app : AppData.State;
  selectedProjectKey : string
}.

(** [onChange] of the project list. *)
Definition onProjectChange (projectList : list Project) (projectName : string)
    (s : State) : State * option string :=
  let project := findProject projectList projectName in
  let projectKey :=
    match project with Some p => project_key p | None => ""%string end in
  let name :=
    match project with Some p => project_name p | None => ""%string end in
  let r := AppData.handleSelectBegin name "" projectKey (app s) in
  ({| app := fst r; selectedProjectKey := projectKey |}, snd r).

(** [onChange] of the meeting list. *)
Definition onMeetingChange (projectList : list Project) (meetingName : string)
    (s : State) : State * option string :=
  let selectedProject := AppData.selectedProject (app s) in
  let project := findProject projectList selectedProject in
  let projectKey :=
    match project with
    | Some p => if nonEmpty (project_key p) then project_key p
                else selectedProjectKey s
    | None => selectedProjectKey s
    end in
  let r := AppData.handleSelectBegin selectedProject meetingName projectKey (app s) in
  ({| app := fst r; selectedProjectKey := selectedProjectKey s |}, snd r).

End ProjectSelector.

(** ** Request errors ([api.js]) *)

(** [String(v)], as a template literal converts a value. *)
Definition js_toString (v : JsValue) : string :=
  match v with
  | JUndefined => "undefined"%string
  | JNull => "null"%string
  | JBool b => boolToString b
  | JNumber x => toString x
  | JString s => s
  | JObject => "[object Object]"%string
  end.

Module api.

(** [error.response], as far as the handlers read it: [status],
    [data?.detail] and [data?.message]. *)
Record Response := {
  status : Z;
  data_detail : JsValue;
  data_message : JsValue
}.

Record AxiosError := {
  code : option string;
  message : string;
  response : option Response
}.

(** The response interceptor on a rejected request. *)
Definition interceptor (error : AxiosError) : AxiosError :=
  if bool_decide (code error = Some "ECONNABORTED"%string) then
    {| code := code error;
       message := "Request timeout. Please check if the backend server is running.";
       response := response error |}
  else if bool_decide (message error = "Network Error"%string) then
    {| code := code error;
       message := "Cannot connect to backend server. Please ensure the backend is running on port 8000.";
       response := response error |}
  else error.

(** What [handleSelect] of [App.jsx] reads of an error. *)
Definition fetchError (error : AxiosError) : AppData.FetchError :=
  {| AppData.detail :=
       match response error with
       | Some r => data_detail r
       | None => JUndefined
       end;
     AppData.message := JString (message error) |}.

End api.

(** The error banner of [App.jsx]: nothing for a falsy [error]; else the
    text and whether the hint on starting the backend is shown.  A truthy
    [error] without an [includes] method makes the render throw. *)
Inductive ErrorBanner :=
| NoBanner
| Banner (text : string) (hint : bool)
| RenderThrows.

Definition errorBanner (error : JsValue) : ErrorBanner :=
  if truthy error then
    match error with
    | JString s => Banner s (includes s "connect" || includes s "Network")
    | _ => RenderThrows
    end
  else NoBanner.

(** ** The chat ([Chatbot.jsx]) *)

Module Chatbot.

(** Messages without their time stamp. *)
Record Message := {
  role : string;
  content : string;
  sources : list string
}.

Record State := {
  messages : list Message;
  input : string;
  loading : bool
}.

(** The body of the request of [chatWithOrbit]. *)
Record Request := {
  project_name : string;
  question : string;
  chat_history : list (string * string)
}.

(** [response.answer] and [response.sources]. *)
Record Answer := { answer : string; answer_sources : option (list string) }.

Definition quote : string := String "034"%char EmptyString.

Definition welcome (projectName meetingName : string) : Message :=
  {| role := "assistant";
     content :=
       if nonEmpty projectName && nonEmpty meetingName then
         ("Hello! I'm OrbitMeetAI. I can help you understand the meeting "
          ++ quote ++ meetingName ++ quote ++ " from project "
          ++ quote ++ projectName ++ quote ++ ". What would you like to know?")%string
       else "Please select a project and meeting to start chatting."%string;
     sources := [] |}.

(** The first render and its effect. *)
Definition mount (projectName meetingName : string) : State :=
  {| messages := [welcome projectName meetingName]; input := ""; loading := false |}.

(** The effect on [projectName, meetingName] after a render with new
    props. *)
Definition propsChange (old new : string * string) (s : State) : State :=
  if bool_decide (old = new) then s
  else {| messages := [welcome (fst new) (snd new)];
          input := input s; loading := loading s |}.

Definition setInput (value : string) (s : State) : State :=
  {| messages := messages s; input := value; loading := loading s |}.

(** [!input.trim()]: nothing is left of the input once the white space
    is trimmed. *)
Definition isBlank (s : string) : bool :=
  match trim_start (list_ascii_of_string s) with
  | [] => true
  | _ :: _ => false
  end.

(** [handleSend] up to the [await], with the request it starts. *)
Definition handleSendBegin (projectName : string) (s : State)
  : State * option Request :=
  if isBlank (input s) || negb (nonEmpty projectName) || loading s then (s, None)
  else
    let userMessage := {| role := "user"; content := input s; sources := [] |} in
    let chatHistory :=
      map (fun msg => (role msg, content msg))
          (List.filter (fun msg => negb (bool_decide (role msg = "system"%string)))
                       (messages s)) in
    ({| messages := messages s ++ [userMessage]; input := ""; loading := true |},
     Some {| project_name := projectName; question := input s;
             chat_history := chatHistory |}).

Definition errorMessage (error : api.AxiosError) : string :=
  match api.response error with
  | Some r =>
      let detail :=
        js_or (js_or (api.data_detail r) (api.data_message r))
              (JString (api.message error)) in
      if (api.status r =? 404)%Z then
        "Project not found. Please make sure you've selected a valid project."%string
      else if (api.status r =? 500)%Z then
        ("Server error: "
         ++ js_toString
              (js_or detail
                 (JString "Please check backend logs and ensure all API keys are configured.")))%string
      else
        ("Error (" ++ toString (of_Z (api.status r)) ++ "): "
         ++ js_toString (js_or detail (JString (api.message error))))%string
  | None =>
      if nonEmpty (api.message error) then ("Error: " ++ api.message error)%string
      else "Sorry, I encountered an error. Please try again."%string
  end.

(** [handleSend] once the request has settled. *)
Definition handleSendSettle (outcome : Answer + api.AxiosError) (s : State) : State :=
  let reply :=
    match outcome with
    | inl response =>
        {| role := "assistant"; content := answer response;
           sources := match answer_sources response with
                      | Some l => l
                      | None => []
                      end |}
    | inr error =>
        {| role := "assistant"; content := errorMessage error; sources := [] |}
    end in
  {| messages := messages s ++ [reply]; input := input s; loading := false |}.

(** The states of a chat whose props stay [projectName] and
    [meetingName]; a request settles only while it is open. *)
Inductive reachable (projectName meetingName : string) : State -> Prop :=
| reachable_mount : reachable projectName meetingName (mount projectName meetingName)
| reachable_input value s :
    reachable projectName meetingName s ->
    reachable projectName meetingName (setInput value s)
| reachable_send s :
    reachable projectName meetingName s ->
    reachable projectName meetingName (fst (handleSendBegin projectName s))
| reachable_settle outcome s :
    reachable projectName meetingName s -> loading s = true ->
    reachable projectName meetingName (handleSendSettle outcome s).

(** The roles of a conversation of [n] completed exchanges, with a
    question pending or not. *)
Definition conversation (n : nat) (pending : bool) : list string :=
  "assistant"%string
  :: concat (replicate n ["user"%string; "assistant"%string])
  ++ (if pending then ["user"%string] else []).

End Chatbot.

(** * Properties *)

(** ** Numbers *)

Section NumberFacts.

Lemma SFcompare_refl_finite s m e :
  SFcompare (S754_finite s m e) (S754_finite s m e) = Some Eq.
Proof.
  simpl. rewrite Z.compare_refl, Pos.compare_cont_refl. by destruct s.
Qed.

Lemma leb_refl_finite s m e : leb (S754_finite s m e) (S754_finite s m e) = true.
Proof. unfold leb, SFleb. by rewrite SFcompare_refl_finite. Qed.

Lemma ltb_leb x y : ltb x y = true -> leb x y = true.
Proof. unfold ltb, leb, SFltb, SFleb. by destruct (SFcompare x y) as [[]|]. Qed.

Lemma leb_not_NaN_l x y : leb x y = true -> isNaN x = false.
Proof. by destruct x. Qed.

Lemma leb_not_NaN_r x y : leb x y = true -> isNaN y = false.
Proof. by destruct x, y. Qed.

(** [constrain] with finite non-zero bounds [lo <= hi]: the result is
    the argument when it lies strictly between them, otherwise a bound. *)
Lemma constrain_cases lo hi x :
  (exists s m e, lo = S754_finite s m e) ->
  (exists s m e, hi = S754_finite s m e) ->
  isNaN x = false ->
  constrain lo hi x = x /\ ltb lo x = true /\ ltb x hi = true
  \/ constrain lo hi x = hi /\ ltb lo hi = true
  \/ constrain lo hi x = lo.
Proof.
  intros (sl & ml & el & ->) (sh & mh & eh & ->) Hx.
  unfold constrain, Math.min, Math.max. rewrite Hx. cbn [isNaN orb].
  set (hi := S754_finite sh mh eh). set (lo := S754_finite sl ml el).
  assert (Hmin : Math.min_step (Math.min_step (S754_infinity false) hi) x
                 = if ltb x hi then x else hi).
  { unfold Math.min_step at 2. cbn [hi ltb SFltb SFcompare]. by destruct sh. }
  rewrite Hmin.
  assert (Hmax : forall y, Math.max_step (Math.max_step (S754_infinity true) lo) y
                 = if ltb lo y then y else lo).
  { intros y. unfold Math.max_step at 2. cbn [lo ltb SFltb SFcompare].
    by destruct sl. }
  destruct (ltb x hi) eqn:Hxh.
  - rewrite Hx. cbn [orb]. rewrite Hmax.
    destruct (ltb lo x) eqn:Hlx; [left | right; right]; done.
  - cbn [hi isNaN orb]. rewrite Hmax. fold hi.
    destruct (ltb lo hi) eqn:Hlh; [right; left | right; right]; done.
Qed.

Lemma constrain_inRange lo hi x :
  (exists s m e, lo = S754_finite s m e) ->
  (exists s m e, hi = S754_finite s m e) ->
  leb lo hi = true ->
  isNaN x = false ->
  App.inRange lo hi (constrain lo hi x) = true.
Proof.
  intros Hlo Hhi Hle Hx.
  destruct (constrain_cases lo hi x Hlo Hhi Hx)
    as [(-> & H1 & H2) | [(-> & H1) | ->]]; unfold App.inRange.
  - by rewrite !ltb_leb.
  - destruct Hhi as (s & m & e & ->).
    by rewrite ltb_leb, leb_refl_finite.
  - destruct Hlo as (s & m & e & ->).
    by rewrite leb_refl_finite, Hle.
Qed.

Lemma constrain_NaN lo hi : constrain lo hi NaN = NaN.
Proof.
  unfold constrain, Math.max, Math.min. cbn [isNaN].
  by rewrite !orb_true_r.
Qed.

Lemma inRange_not_NaN lo hi x : App.inRange lo hi x = true -> isNaN x = false.
Proof.
  unfold App.inRange. intros [H _]%andb_prop. by eapply leb_not_NaN_r.
Qed.

End NumberFacts.

(** Rounding a non-negative mantissa never produces [NaN]. *)

Section RoundingNotNaN.

Lemma shr_1_nonneg mrs : 0 <= shr_m mrs -> 0 <= shr_m (shr_1 mrs).
Proof. destruct mrs as [[|[p|p|]|p] r s]; simpl; lia. Qed.

Lemma iter_pos_shr_1_nonneg p mrs :
  0 <= shr_m mrs -> 0 <= shr_m (SpecFloat.iter_pos shr_1 p mrs).
Proof.
  revert mrs. induction p as [p IH|p IH|]; intros mrs H; simpl.
  - by apply IH, IH, shr_1_nonneg.
  - by apply IH, IH.
  - by apply shr_1_nonneg.
Qed.

Lemma shr_nonneg mrs e n : 0 <= shr_m mrs -> 0 <= shr_m (fst (shr mrs e n)).
Proof.
  intros H. destruct n; simpl; try done. by apply iter_pos_shr_1_nonneg.
Qed.

Lemma shr_fexp_nonneg m e l :
  0 <= m -> 0 <= shr_m (fst (shr_fexp prec emax m e l)).
Proof.
  intros H. unfold shr_fexp. apply shr_nonneg. by destruct l as [|[]].
Qed.

Lemma round_nearest_even_nonneg m l : 0 <= m -> 0 <= round_nearest_even m l.
Proof.
  intros H. destruct l as [|[]]; simpl; try done; [destruct (Z.even m)|]; lia.
Qed.

Lemma binary_round_aux_not_NaN s mx ex lx :
  0 <= mx -> isNaN (binary_round_aux prec emax s mx ex lx) = false.
Proof.
  intros H. unfold binary_round_aux.
  pose proof (shr_fexp_nonneg mx ex lx H) as H1.
  destruct (shr_fexp prec emax mx ex lx) as [mrs' e']. simpl in H1.
  pose proof (shr_fexp_nonneg _ e' loc_Exact
                (round_nearest_even_nonneg _ (loc_of_shr_record mrs') H1)) as H2.
  destruct (shr_fexp prec emax _ e' loc_Exact) as [mrs'' e'']. simpl in H2.
  destruct (shr_m mrs'') as [|m|m]; [done | by case (e'' <=? emax - prec) | lia].
Qed.

Lemma binary_normalize_not_NaN m e sz :
  isNaN (binary_normalize prec emax m e sz) = false.
Proof.
  destruct m as [|m|m]; [done | |]; simpl; unfold binary_round;
    destruct (shl_align _ _ _) as [mz ez]; by apply binary_round_aux_not_NaN.
Qed.

Lemma sub_not_NaN x y :
  isFinite x = true -> isNaN y = false -> isNaN (sub x y) = false.
Proof.
  destruct x as [sx| | |sx mx ex], y as [sy|sy| |sy my ey]; try done; intros _ _.
  - by destruct sx, sy.
  - apply binary_normalize_not_NaN.
Qed.

Lemma div_not_NaN x y :
  isNaN x = false -> (exists s m e, y = S754_finite s m e) ->
  isNaN (div x y) = false.
Proof.
  intros Hx (sy & my & ey & ->).
  destruct x as [sx|sx| |sx mx ex]; try done.
  unfold div, SFdiv.
  destruct (SFdiv_core_binary _ _ _ _ _ _) as [[mz ez] lz] eqn:E.
  apply binary_round_aux_not_NaN.
  unfold SFdiv_core_binary in E.
  destruct (Z.div_eucl _ _) as [q r] eqn:Ediv. injection E as <- _ _.
  assert (Hq: q = fst (Z.div_eucl
     (match ex - ey - Z.min (fexp prec emax (Zdigits2 (Z.pos mx) + ex - (Zdigits2 (Z.pos my) + ey))) (ex - ey) with
      | 0 => Z.pos mx | Z.pos _ => Z.shiftl (Z.pos mx) (ex - ey - Z.min (fexp prec emax (Zdigits2 (Z.pos mx) + ex - (Zdigits2 (Z.pos my) + ey))) (ex - ey)) | Z.neg _ => 0 end)
     (Z.pos my))) by (by rewrite Ediv).
  rewrite Hq. change (fst (Z.div_eucl ?a ?b)) with (a / b).
  apply Z.div_pos; [|done].
  destruct (ex - ey - _) eqn:Es; [done | | done].
  apply Z.shiftl_nonneg. done.
Qed.

Lemma mul_not_NaN x y :
  isNaN x = false -> (exists s m e, y = S754_finite s m e) ->
  isNaN (mul x y) = false.
Proof.
  intros Hx (sy & my & ey & ->).
  destruct x as [sx|sx| |sx mx ex]; try done.
  by apply binary_round_aux_not_NaN.
Qed.

(** With a finite pointer position and a finite rectangle of non-zero
    width the computed width is a number. *)
Lemma newWidth_not_NaN clientX r :
  isFinite clientX = true -> isFinite (left r) = true ->
  (exists s m e, width r = S754_finite s m e) ->
  isNaN (newWidth clientX r) = false.
Proof.
  intros Hx Hl Hw. unfold newWidth.
  apply mul_not_NaN; [|by exists false, 7036874417766400%positive, (-46)].
  apply div_not_NaN; [|done].
  destruct Hw as (s & m & e & Hw).
  apply sub_not_NaN; [by rewrite Hw|].
  apply sub_not_NaN; [done|]. by destruct (left r).
Qed.

End RoundingNotNaN.

(** ** The layout controller *)

Lemma isNonZeroFinite_inv x :
  isNonZeroFinite x = true -> exists s m e, x = S754_finite s m e.
Proof. destruct x; try done. eauto. Qed.

Section LayoutFacts.

Lemma handleMouseMove_inRange clientX r s :
  App.isResizing s = true ->
  isNaN (newWidth clientX r) = false ->
  App.inRange minPercent maxPercent
    (App.chatbotWidth (App.handleMouseMove clientX (Some r) s)) = true.
Proof.
  intros Hr Hn. unfold App.handleMouseMove. rewrite Hr. simpl.
  apply constrain_inRange; [by eexists _, _, _ .. | done | done].
Qed.

Lemma handle_inRange ev s :
  regularMove ev = true ->
  App.inRange minPercent maxPercent (App.chatbotWidth s) = true ->
  App.inRange minPercent maxPercent (App.chatbotWidth (App.handle ev s)) = true.
Proof.
  intros Hev Hs. destruct ev as [| | | | | |clientX [r|]|]; simpl; try done.
  - destruct (App.isResizing s) eqn:Hr.
    + apply handleMouseMove_inRange; [done|]. by apply negb_true_iff.
    + unfold App.handleMouseMove. by rewrite Hr.
  - unfold App.handleMouseMove. by destruct (negb _).
Qed.

(** A finite pointer position over a finite rectangle of non-zero width
    is a regular move. *)
Lemma regularMove_finite clientX r :
  isFinite clientX = true -> isFinite (left r) = true ->
  isNonZeroFinite (width r) = true ->
  regularMove (App.MouseMove clientX (Some r)) = true.
Proof.
  intros Hx Hl Hw. simpl. apply negb_true_iff.
  apply newWidth_not_NaN; auto using isNonZeroFinite_inv.
Qed.

Lemma handle_collapse_flags ev s :
  App.isAnalysisCollapsed s && App.isChatbotCollapsed s = false ->
  App.isAnalysisCollapsed (App.handle ev s)
    && App.isChatbotCollapsed (App.handle ev s) = false.
Proof.
  intros H. destruct ev as [| | | | | |clientX [r|]|]; simpl; try done;
    unfold App.handleMouseMove; by destruct (negb _).
Qed.

End LayoutFacts.

(** C1, as stated, fails: a width persisted outside the range is taken
    over unchanged at construction, and a pointer move over a container of
    width 0 at its left edge makes the width [NaN]. *)
Lemma C1_width_out_of_range :
  App.inRange minPercent maxPercent
    (App.chatbotWidth
       (fst (App.mount {[ "chatbotWidth"%string := "200"%string ]} (of_Z 1280))))
  = false
  /\ App.inRange minPercent maxPercent
       (App.chatbotWidth
          (fst (App.run
                  [App.SeparatorMouseDown;
                   App.MouseMove zero (Some {| left := zero; width := zero |})]
                  (App.mount ∅ (of_Z 1280)))))
     = false.
Proof. split; by vm_compute. Qed.

(** C1 (amended): when the persisted width is absent, empty or reads as a
    number within [5, 95], the width stays within [5, 95] in every state
    reached by operations whose pointer moves are regular, that is,
    compute a width that is not [NaN] (as every move with a finite
    pointer position over a finite rectangle of non-zero width does). *)
Theorem C1_width_in_range ls innerWidth evs :
  App.inRange minPercent maxPercent (App.initialChatbotWidth ls) = true ->
  forallb regularMove evs = true ->
  App.inRange minPercent maxPercent
    (App.chatbotWidth (fst (App.run evs (App.mount ls innerWidth)))) = true.
Proof.
  intros Hinit Hevs.
  assert (Hw : App.inRange minPercent maxPercent
                 (App.chatbotWidth (fst (App.mount ls innerWidth))) = true)
    by exact Hinit.
  revert Hevs Hw. generalize (App.mount ls innerWidth). clear Hinit.
  induction evs as [|ev evs IH]; intros w Hevs Hw; [done|].
  simpl in Hevs. apply andb_prop in Hevs as [Hev Hevs].
  simpl. apply IH; [done|]. simpl. by apply handle_inRange.
Qed.

Lemma C1_width_in_range_witness :
  let evs := [App.SeparatorMouseDown;
              App.MouseMove (of_Z 50) (Some {| left := zero; width := of_Z 1000 |});
              App.MouseUp; App.CollapseChatbot; App.ExpandBoth] in
  App.inRange minPercent maxPercent (App.initialChatbotWidth ∅) = true
  /\ forallb regularMove evs = true
  /\ App.inRange minPercent maxPercent
       (App.chatbotWidth (fst (App.run evs (App.mount ∅ (of_Z 1280))))) = true.
Proof.
  intros evs.
  assert (H1 : App.inRange minPercent maxPercent (App.initialChatbotWidth ∅) = true)
    by (by vm_compute).
  assert (H2 : forallb regularMove evs = true) by (by vm_compute).
  exact (conj H1 (conj H2 (C1_width_in_range ∅ (of_Z 1280) evs H1 H2))).
Defined.

Section ResizeFacts.

Lemma newWidth_NaN r : newWidth NaN r = NaN.
Proof. unfold newWidth. simpl. by destruct (width r). Qed.

(** Over a container of width 0 the computed width is infinite or
    [NaN]. *)
Lemma newWidth_degenerate clientX r sw :
  width r = S754_zero sw ->
  newWidth clientX r = NaN
  \/ newWidth clientX r = S754_infinity false
  \/ newWidth clientX r = S754_infinity true.
Proof.
  intros Hw. unfold newWidth. rewrite Hw.
  destruct (sub (S754_zero sw) (sub clientX (left r))) as [s|s| |s m e];
    simpl; auto; destruct (xorb s sw); auto.
Qed.

Lemma constrain_infinity :
  constrain minPercent maxPercent (S754_infinity false) = maxPercent
  /\ constrain minPercent maxPercent (S754_infinity true) = minPercent.
Proof. split; by vm_compute. Qed.

End ResizeFacts.

(** C2, as stated, fails: with a session open a [NaN] pointer position is
    not rejected, the width becomes [NaN]. *)
Lemma C2_NaN_not_rejected :
  let s := App.handleSeparatorMouseDown (App.initialState ∅ (of_Z 1280)) in
  let s' := App.handleMouseMove NaN (Some {| left := zero; width := of_Z 1000 |}) s in
  App.isResizing s = true
  /\ App.chatbotWidth s = defaultPercent
  /\ App.chatbotWidth s' = NaN
  /\ s' <> s.
Proof.
  intros s s'. split; [|split; [|split]]; [by vm_compute .. |].
  intros H. apply (f_equal App.chatbotWidth) in H. by vm_compute in H.
Qed.

(** C2 (amended): with a session open and a container present, a pointer
    move whose position is [NaN] sets the width to [NaN]
    ([Math.min] and [Math.max] propagate it) and leaves every other field
    as it was; this holds for both range configurations. *)
Theorem C2_NaN_propagates r :
  (forall s, App.isResizing s = true ->
     App.handleMouseMove NaN (Some r) s = App.setChatbotWidth NaN s)
  /\ (forall s, AppResizable.isResizing s = true ->
        AppResizable.handleMouseMove NaN (Some r) s
        = {| AppResizable.chatbotWidth := NaN;
             AppResizable.isResizing := AppResizable.isResizing s;
             AppResizable.isDesktop := AppResizable.isDesktop s |}).
Proof.
  split; intros s Hr.
  - unfold App.handleMouseMove. by rewrite Hr, newWidth_NaN, constrain_NaN.
  - unfold AppResizable.handleMouseMove. by rewrite Hr, newWidth_NaN, constrain_NaN.
Qed.

Lemma C2_NaN_propagates_witness :
  let r := {| left := zero; width := of_Z 1000 |} in
  let s := App.handleSeparatorMouseDown (App.initialState ∅ (of_Z 1280)) in
  let s0 := {| AppResizable.chatbotWidth := AppResizable.initialChatbotWidth ∅;
               AppResizable.isResizing := true;
               AppResizable.isDesktop := true |} in
  (App.isResizing s = true
   /\ App.handleMouseMove NaN (Some r) s = App.setChatbotWidth NaN s)
  /\ (AppResizable.isResizing s0 = true
      /\ AppResizable.chatbotWidth (AppResizable.handleMouseMove NaN (Some r) s0) = NaN).
Proof.
  intros r s s0. split.
  - split; [reflexivity|]. exact (proj1 (C2_NaN_propagates r) s eq_refl).
  - split; [reflexivity|].
    exact (f_equal AppResizable.chatbotWidth (proj2 (C2_NaN_propagates r) s0 eq_refl)).
Defined.

(** C3, as stated, fails on its second part: over a container of width 0
    the move is not ignored; here the width goes from 20 to 5. *)
Lemma C3_degenerate_not_ignored :
  let s := App.handleSeparatorMouseDown (App.initialState ∅ (of_Z 1280)) in
  let s' := App.handleMouseMove (of_Z 10) (Some {| left := zero; width := zero |}) s in
  App.chatbotWidth s = defaultPercent
  /\ App.chatbotWidth s' = minPercent
  /\ s' <> s.
Proof.
  intros s s'. split; [|split]; [by vm_compute .. |].
  intros H. apply (f_equal App.chatbotWidth) in H. by vm_compute in H.
Qed.

(** C3 (amended): a pointer move leaves the state unchanged whenever no
    session is open or the container element is missing.  With a session
    open and a container of width 0 it is not ignored: the division by
    zero gives an infinity or [NaN], so the width becomes the maximum, the
    minimum or [NaN], the other fields staying as they were. *)
Theorem C3_no_session_no_op clientX (s : App.State) :
  (forall container,
     App.isResizing s = false -> App.handleMouseMove clientX container s = s)
  /\ App.handleMouseMove clientX None s = s
  /\ (forall r sw,
        App.isResizing s = true -> width r = S754_zero sw ->
        exists w, App.handleMouseMove clientX (Some r) s = App.setChatbotWidth w s
                  /\ (w = maxPercent \/ w = minPercent \/ w = NaN)).
Proof.
  repeat split.
  - intros container Hr. unfold App.handleMouseMove. by rewrite Hr.
  - unfold App.handleMouseMove. by destruct (negb _).
  - intros r sw Hr Hw. unfold App.handleMouseMove. rewrite Hr. simpl.
    eexists; split; [reflexivity|]. fold minPercent maxPercent.
    destruct (newWidth_degenerate clientX r sw Hw) as [-> | [-> | ->]].
    + right; right. apply constrain_NaN.
    + left. apply constrain_infinity.
    + right; left. apply constrain_infinity.
Qed.

Lemma C3_no_session_no_op_witness :
  let s := App.initialState ∅ (of_Z 1280) in
  let r := {| left := zero; width := zero |} in
  let s1 := App.handleSeparatorMouseDown s in
  (App.isResizing s = false /\ App.handleMouseMove (of_Z 10) (Some r) s = s)
  /\ (App.isResizing s1 = true /\ width r = S754_zero false
      /\ exists w, App.handleMouseMove (of_Z 10) (Some r) s1 = App.setChatbotWidth w s1
                   /\ (w = maxPercent \/ w = minPercent \/ w = NaN)).
Proof.
  intros s r s1. split.
  - split; [reflexivity|].
    exact (proj1 (C3_no_session_no_op (of_Z 10) s) (Some r) eq_refl).
  - split; [reflexivity|]. split; [reflexivity|].
    exact (proj2 (proj2 (C3_no_session_no_op (of_Z 10) s1)) r false eq_refl eq_refl).
Defined.

(** C5: in every state reachable from a mount at most one of
    [isAnalysisCollapsed] and [isChatbotCollapsed] holds; each collapse
    operation, from any state, sets its own flag and clears the other;
    and collapsing the analysis pane and then the chat pane leaves only
    the chat pane collapsed. *)
Theorem C5_collapse_exclusive ls w :
  App.reachable ls w ->
  App.isAnalysisCollapsed (fst w) && App.isChatbotCollapsed (fst w) = false
  /\ (forall s,
        App.isAnalysisCollapsed (App.handleCollapseAnalysis s) = true
        /\ App.isChatbotCollapsed (App.handleCollapseAnalysis s) = false)
  /\ (forall s,
        App.isChatbotCollapsed (App.handleCollapseChatbot s) = true
        /\ App.isAnalysisCollapsed (App.handleCollapseChatbot s) = false)
  /\ App.isAnalysisCollapsed
       (App.handleCollapseChatbot (App.handleCollapseAnalysis (fst w))) = false
  /\ App.isChatbotCollapsed
       (App.handleCollapseChatbot (App.handleCollapseAnalysis (fst w))) = true.
Proof.
  intros Hw. split; [|done].
  induction Hw as [innerWidth | ev w Hw IH]; [done|].
  simpl. by apply handle_collapse_flags.
Qed.

Lemma C5_collapse_exclusive_witness :
  let w := App.step App.CollapseChatbot
             (App.step App.CollapseAnalysis (App.mount ∅ (of_Z 1280))) in
  let s1 := App.handleCollapseAnalysis (fst w) in
  App.reachable ∅ w
  /\ App.isAnalysisCollapsed (fst w) && App.isChatbotCollapsed (fst w) = false
  /\ (App.isAnalysisCollapsed s1 = true /\ App.isChatbotCollapsed s1 = false).
Proof.
  intros w s1.
  assert (Hw : App.reachable ∅ w) by (do 2 apply App.reachable_step; apply App.reachable_mount).
  pose proof (C5_collapse_exclusive ∅ w Hw) as (H1 & H2 & _).
  exact (conj Hw (conj H1 (H2 (fst w)))).
Defined.

(** C8, as stated, fails for malformed values: a persisted width that is
    not a number gives [NaN], not the default 20, and a persisted
    visibility other than ["true"] gives [false], not the default
    [true]. *)
Lemma C8_malformed_not_defaulted :
  let ls : gmap string string :=
    {[ "chatbotWidth"%string := "abc"%string;
       "chatbotVisible"%string := "yes"%string ]} in
  App.chatbotWidth (App.initialState ls (of_Z 1280)) = NaN
  /\ App.chatbotWidth (App.initialState ls (of_Z 1280)) <> defaultPercent
  /\ App.isChatbotVisible (App.initialState ls (of_Z 1280)) = false.
Proof. intros ls. split; [|split]; by vm_compute. Qed.

(** C8 (amended): at construction an absent or empty persisted value
    falls back to the compiled-in default (width 20, visible); any other
    persisted width is read with [parseFloat] and any other persisted
    visibility is compared with ["true"].  The initializers are total: no
    error is raised on any store. *)
Theorem C8_absent_defaults ls innerWidth :
  let s := App.initialState ls innerWidth in
  (localStorage.getItem ls "chatbotWidth" = None
   \/ localStorage.getItem ls "chatbotWidth" = Some ""%string ->
   App.chatbotWidth s = defaultPercent)
  /\ (localStorage.getItem ls "chatbotVisible" = None
      \/ localStorage.getItem ls "chatbotVisible" = Some ""%string ->
      App.isChatbotVisible s = true)
  /\ (forall saved,
        localStorage.getItem ls "chatbotWidth" = Some saved -> saved <> ""%string ->
        App.chatbotWidth s = parseFloat saved)
  /\ (forall saved,
        localStorage.getItem ls "chatbotVisible" = Some saved -> saved <> ""%string ->
        App.isChatbotVisible s = bool_decide (saved = "true"%string)).
Proof.
  simpl. unfold App.initialChatbotWidth, App.initialIsChatbotVisible.
  repeat split.
  - by intros [-> | ->].
  - by intros [-> | ->].
  - intros saved -> Hne. by destruct saved.
  - intros saved -> Hne. by destruct saved.
Qed.

Lemma C8_absent_defaults_witness :
  let ls : gmap string string := {[ "chatbotVisible"%string := "false"%string ]} in
  let s := App.initialState ls (of_Z 1280) in
  (localStorage.getItem ls "chatbotWidth" = None /\ App.chatbotWidth s = defaultPercent)
  /\ (localStorage.getItem ls "chatbotVisible" = Some "false"%string
      /\ "false"%string <> ""%string
      /\ App.isChatbotVisible s = bool_decide ("false"%string = "true"%string)).
Proof.
  intros ls s.
  assert (H1 : localStorage.getItem ls "chatbotWidth" = None) by (by vm_compute).
  assert (H2 : localStorage.getItem ls "chatbotVisible" = Some "false"%string)
    by (by vm_compute).
  assert (H3 : "false"%string <> ""%string) by done.
  pose proof (C8_absent_defaults ls (of_Z 1280)) as (Hw & _ & _ & Hv).
  exact (conj (conj H1 (Hw (or_introl H1))) (conj H2 (conj H3 (Hv _ H2 H3)))).
Defined.

(** ** Reading back what [toString] writes *)

Section DigitFacts.

Lemma digit_char_value d : (d < 10)%N -> digit_value (digit_char d) = d.
Proof.
  intros Hd. unfold digit_value, digit_char.
  rewrite N_ascii_embedding by lia. lia.
Qed.

Lemma digit_char_is_digit d : (d < 10)%N -> is_digit (digit_char d) = true.
Proof.
  intros Hd. unfold is_digit, digit_char.
  rewrite N_ascii_embedding by lia.
  apply andb_true_intro. split; apply N.leb_le; lia.
Qed.

Lemma digits_value_app acc ds1 ds2 :
  digits_value acc (ds1 ++ ds2) = digits_value (digits_value acc ds1) ds2.
Proof. unfold digits_value. by rewrite fold_left_app. Qed.

Lemma digits_value_zeros acc j :
  digits_value acc (zeros j) = (acc * 10 ^ N.of_nat j)%N.
Proof.
  revert acc. induction j as [|j IH]; intros acc.
  - simpl. lia.
  - change (zeros (S j)) with ("0"%char :: zeros j).
    change (digits_value acc ("0"%char :: zeros j))
      with (digits_value (10 * acc + digit_value "0")%N (zeros j)).
    rewrite IH. change (digit_value "0") with 0%N.
    rewrite Nat2N.inj_succ, N.pow_succ_r'. lia.
Qed.

Lemma length_zeros j : length (zeros j) = j.
Proof. apply length_replicate. Qed.

Lemma all_digits_zeros j : all_digits (zeros j).
Proof. apply Forall_replicate. done. Qed.

(** Leading zeros do not change the value. *)
Lemma digits_value_0_zeros j ds :
  digits_value 0 (zeros j ++ ds) = digits_value 0 ds.
Proof. by rewrite digits_value_app, digits_value_zeros. Qed.

Lemma digits_aux_spec fuel n acc :
  fuel <> O -> (n < 2 ^ N.of_nat fuel)%N ->
  exists pre, digits_aux fuel n acc = pre ++ acc
              /\ pre <> [] /\ all_digits pre /\ digits_value 0 pre = n.
Proof.
  revert n acc. induction fuel as [|fuel IH]; intros n acc Hfuel Hn; [done|].
  clear Hfuel.
  - assert (Hd : (n mod 10 < 10)%N) by (by apply N.mod_lt).
    simpl. destruct (n / 10 =? 0)%N eqn:E.
    + apply N.eqb_eq in E. exists [digit_char (n mod 10)]. repeat split.
      * done.
      * constructor; [by apply digit_char_is_digit | constructor].
      * unfold digits_value. simpl. rewrite digit_char_value by done.
        rewrite (N.div_mod n 10) at 2 by done. rewrite E. lia.
    + apply N.eqb_neq in E.
      assert (Hn' : (n / 10 < 2 ^ N.of_nat fuel)%N).
      { rewrite Nat2N.inj_succ, N.pow_succ_r' in Hn.
        apply N.Div0.div_lt_upper_bound. lia. }
      assert (Hfuel : fuel <> O).
      { intros ->. change (n / 10 < 1)%N in Hn'. by apply N.lt_1_r in Hn'. }
      destruct (IH (n / 10)%N (digit_char (n mod 10) :: acc) Hfuel Hn')
        as (pre & Hpre & Hne & Hall & Hval).
      exists (pre ++ [digit_char (n mod 10)]). repeat split.
      * by rewrite Hpre, <- app_assoc.
      * by destruct pre.
      * apply Forall_app. split; [done|].
        constructor; [by apply digit_char_is_digit | constructor].
      * rewrite digits_value_app, Hval. unfold digits_value. simpl.
        rewrite digit_char_value by done. symmetry. by apply N.div_mod.
Qed.

Lemma digits_of_spec n :
  digits_of n <> [] /\ all_digits (digits_of n) /\ digits_value 0 (digits_of n) = n.
Proof.
  unfold digits_of.
  destruct (digits_aux_spec (S (N.to_nat (N.log2 n))) n []) as (pre & Hpre & H).
  - done.
  - rewrite Nat2N.inj_succ, N2Nat.id.
    destruct n as [|p]; [done|]. apply N.log2_spec. lia.
  - rewrite app_nil_r in Hpre. by rewrite Hpre.
Qed.

Lemma scan_digits_app ds rest acc cnt :
  all_digits ds -> no_digit_head rest ->
  scan_digits acc cnt (ds ++ rest) = (digits_value acc ds, (cnt + length ds)%nat, rest).
Proof.
  intros Hds Hrest. revert acc cnt.
  induction Hds as [|c ds Hc Hds IH]; intros acc cnt.
  - simpl. rewrite Nat.add_0_r. destruct rest as [|c rest]; [done|].
    simpl in *. by rewrite Hrest.
  - simpl. rewrite Hc, IH. do 2 f_equal. lia.
Qed.

Lemma scan_digits_all ds acc cnt :
  all_digits ds ->
  scan_digits acc cnt ds = (digits_value acc ds, (cnt + length ds)%nat, []).
Proof.
  intros Hds. rewrite <- (app_nil_r ds) at 1. by apply scan_digits_app.
Qed.

End DigitFacts.

Section ParseFormat.

Lemma digit_not_I c : is_digit c = true -> Ascii.eqb "I"%char c = false.
Proof.
  intros Hc. destruct (Ascii.eqb_spec "I"%char c) as [<-|]; [discriminate | done].
Qed.

Lemma parse_unsigned_digit neg c l :
  is_digit c = true ->
  parse_unsigned neg (c :: l) =
    let '(vi, ci, l1) := scan_digits 0 0 (c :: l) in
    let '(v, cf, l2) :=
      match l1 with
      | "."%char :: r => scan_digits vi 0 r
      | _ => (vi, O, l1)
      end in
    match ci, cf with
    | O, O => NaN
    | _, _ => of_decimal neg v (parse_exponent l2 - Z.of_nat cf)
    end.
Proof.
  intros Hc. unfold parse_unsigned.
  change (starts_with (list_ascii_of_string "Infinity") (c :: l))
    with (if Ascii.eqb "I"%char c
          then starts_with (list_ascii_of_string "nfinity") l else false).
  by rewrite digit_not_I.
Qed.

Lemma of_decimal_shift s M j :
  of_decimal s (M * 10 ^ N.of_nat j) 0 = of_decimal s M (Z.of_nat j).
Proof.
  destruct M as [|m]; [done|]. destruct j as [|j]; simpl.
  - by rewrite Pos.mul_1_r.
  - done.
Qed.

Lemma parse_exponent_e (neg : bool) E :
  parse_exponent ("e"%char :: (if neg then "-"%char else "+"%char) :: digits_of E)
  = if neg then - Z.of_N E else Z.of_N E.
Proof.
  destruct (digits_of_spec E) as (Hne & Hall & Hval).
  unfold parse_exponent.
  change (Ascii.eqb "e"%char "e"%char || Ascii.eqb "e"%char "E"%char) with true. cbv iota.
  destruct neg; rewrite scan_digits_all by done; rewrite Hval;
    destruct (digits_of E); done.
Qed.

(** The parser reads [format_decimal ds n] as the decimal
    [0.ds * 10^n]. *)
Lemma parse_format_decimal neg ds n :
  ds <> [] -> all_digits ds ->
  parse_unsigned neg (format_decimal ds n)
  = of_decimal neg (digits_value 0 ds) (n - Z.of_nat (length ds)).
Proof.
  intros Hne Hall. unfold format_decimal.
  destruct ds as [|d ds]; [done|]. clear Hne.
  assert (Hd : is_digit d = true) by (by inversion Hall).
  set (k := Z.of_nat (length (d :: ds))).
  destruct ((-5 <=? n) && (n <=? 21)) eqn:Hrange.
  - destruct (k <=? n) eqn:Hkn; [|destruct (0 <? n) eqn:Hn].
    + (* digits followed by zeros *)
      apply Z.leb_le in Hkn.
      change ((d :: ds) ++ zeros (Z.to_nat (n - k)))
        with (d :: (ds ++ zeros (Z.to_nat (n - k)))).
      rewrite parse_unsigned_digit by done.
      change (d :: (ds ++ zeros (Z.to_nat (n - k))))
        with ((d :: ds) ++ zeros (Z.to_nat (n - k))).
      rewrite scan_digits_all
        by (apply Forall_app; split; [done | apply all_digits_zeros]).
      rewrite length_app. simpl length at 1.
      rewrite digits_value_app, digits_value_zeros, of_decimal_shift.
      simpl. f_equal. lia.
    + (* a decimal point inside the digits *)
      apply Z.leb_gt in Hkn. apply Z.ltb_lt in Hn.
      assert (Hlen : length (take (Z.to_nat n) (d :: ds)) = Z.to_nat n)
        by (rewrite length_take; subst k; lia).
      destruct (take (Z.to_nat n) (d :: ds)) as [|d' pre] eqn:Htake;
        [simpl in Hlen; lia|].
      assert (Hpre : all_digits (d' :: pre))
        by (rewrite <- Htake; by apply Forall_take).
      change ((d' :: pre) ++ "."%char :: drop (Z.to_nat n) (d :: ds))
        with (d' :: (pre ++ "."%char :: drop (Z.to_nat n) (d :: ds))).
      rewrite parse_unsigned_digit by (by inversion Hpre).
      change (d' :: (pre ++ "."%char :: drop (Z.to_nat n) (d :: ds)))
        with ((d' :: pre) ++ "."%char :: drop (Z.to_nat n) (d :: ds)).
      rewrite scan_digits_app by done.
      rewrite scan_digits_all by (by apply Forall_drop).
      rewrite <- digits_value_app, <- Htake, take_drop, Htake, Hlen.
      rewrite length_drop.
      destruct (Z.to_nat n) eqn:En; [lia|]. simpl.
      f_equal. subst k. simpl length in *. lia.
    + (* zero, a decimal point, zeros, the digits *)
      apply Z.ltb_ge in Hn.
      rewrite parse_unsigned_digit by done.
      change ("0"%char :: "."%char :: zeros (Z.to_nat (- n)) ++ d :: ds)
        with (["0"%char] ++ "."%char :: (zeros (Z.to_nat (- n)) ++ d :: ds)).
      rewrite scan_digits_app by (done || by repeat constructor).
      rewrite scan_digits_all
        by (apply Forall_app; split; [apply all_digits_zeros | done]).
      change (digits_value 0 ["0"%char]) with 0%N.
      rewrite digits_value_0_zeros, length_app, length_zeros.
      simpl. f_equal. subst k. simpl length. lia.
  - (* exponent notation *)
    assert (Hexp :
      parse_exponent ("e"%char :: (if n <? 0 then "-"%char else "+"%char)
                        :: digits_of (Z.to_N (Z.abs (n - 1)))) = n - 1).
    { rewrite (parse_exponent_e (n <? 0)).
      destruct (n <? 0) eqn:Hn; [apply Z.ltb_lt in Hn | apply Z.ltb_ge in Hn].
      - lia.
      - apply andb_false_iff in Hrange as [H | H];
          [apply Z.leb_gt in H | apply Z.leb_gt in H]; lia. }
    destruct ds as [|d2 ds].
    + rewrite parse_unsigned_digit by done.
      change (d :: "e"%char :: ?l) with ([d] ++ "e"%char :: l).
      rewrite scan_digits_app by done.
      cbv iota beta. rewrite Hexp. simpl. f_equal. subst k. simpl length. lia.
    + change (take 1 (d :: d2 :: ds)) with [d].
      change (drop 1 (d :: d2 :: ds)) with (d2 :: ds).
      change ([d] ++ "."%char :: ?l) with (d :: "."%char :: l).
      rewrite parse_unsigned_digit by done.
      change (d :: "."%char :: ?l) with ([d] ++ "."%char :: l).
      rewrite scan_digits_app by (done || by repeat constructor).
      rewrite scan_digits_app by (done || by inversion Hall).
      rewrite <- digits_value_app. change ([d] ++ d2 :: ds) with (d :: d2 :: ds).
      rewrite Hexp. simpl length.
      cbv iota beta. f_equal. subst k. simpl length. lia.
Qed.

End ParseFormat.

(** ** Rounding a value that is a number *)

Section ExactRounding.

Lemma digits2_pos_spec p :
  2 ^ (Zpos (digits2_pos p) - 1) <= Zpos p < 2 ^ Zpos (digits2_pos p).
Proof.
  induction p as [p IH|p IH|]; [| |done]; simpl digits2_pos;
    rewrite Pos2Z.inj_succ;
    replace (Z.succ (Zpos (digits2_pos p)) - 1)
      with (Z.succ (Zpos (digits2_pos p) - 1)) by lia;
    rewrite !Z.pow_succ_r by lia; lia.
Qed.

Lemma Zdigits2_unique z d :
  2 ^ (d - 1) <= z < 2 ^ d -> 0 < z -> Zdigits2 z = d.
Proof.
  intros [Hlo Hhi] Hz. destruct z as [|p|p]; try lia. simpl.
  destruct (digits2_pos_spec p) as [Hlo' Hhi'].
  assert (0 < d).
  { destruct (Z.lt_ge_cases 0 d) as [|Hd]; [done|].
    destruct (Z.eq_dec d 0) as [->|]; [simpl in Hhi; lia|].
    rewrite Z.pow_neg_r in Hhi by lia. lia. }
  assert (d - 1 < Zpos (digits2_pos p))
    by (apply (Z.pow_lt_mono_r_iff 2); lia).
  assert (Zpos (digits2_pos p) - 1 < d)
    by (apply (Z.pow_lt_mono_r_iff 2); lia).
  lia.
Qed.

Lemma Zdigits2_mul_pow2 m j :
  0 <= j -> Zdigits2 (Zpos m * 2 ^ j) = Zpos (digits2_pos m) + j.
Proof.
  intros Hj. destruct (digits2_pos_spec m) as [Hlo Hhi].
  assert (0 < 2 ^ j) by (apply Z.pow_pos_nonneg; lia).
  apply Zdigits2_unique; [|lia].
  replace (Zpos (digits2_pos m) + j - 1) with (Zpos (digits2_pos m) - 1 + j) by lia.
  rewrite !Z.pow_add_r by lia. split.
  - by apply Z.mul_le_mono_nonneg_r; [lia|].
  - by apply Z.mul_lt_mono_pos_r.
Qed.

Lemma digits2_pos_mul_le a b :
  Zpos (digits2_pos (a * b)) <= Zpos (digits2_pos a) + Zpos (digits2_pos b).
Proof.
  destruct (digits2_pos_spec a) as [_ Ha], (digits2_pos_spec b) as [_ Hb],
    (digits2_pos_spec (a * b)) as [Hab _].
  assert (Zpos (a * b) < 2 ^ (Zpos (digits2_pos a) + Zpos (digits2_pos b))).
  { rewrite Z.pow_add_r, Pos2Z.inj_mul by lia.
    apply Z.mul_lt_mono_nonneg; lia. }
  assert (Zpos (digits2_pos (a * b)) - 1
          < Zpos (digits2_pos a) + Zpos (digits2_pos b))
    by (apply (Z.pow_lt_mono_r_iff 2); lia).
  lia.
Qed.

Lemma iter_pos_nat_iter {A : Type} (f : A -> A) p a :
  SpecFloat.iter_pos f p a = Nat.iter (Pos.to_nat p) f a.
Proof.
  revert a. induction p as [p IH|p IH|]; intros a; simpl SpecFloat.iter_pos.
  - rewrite !IH, Pos2Nat.inj_xI.
    replace (2 * Pos.to_nat p)%nat with (Pos.to_nat p + Pos.to_nat p)%nat by lia.
    by rewrite Nat.iter_succ_r, Nat.iter_add.
  - rewrite !IH, Pos2Nat.inj_xO.
    replace (2 * Pos.to_nat p)%nat with (Pos.to_nat p + Pos.to_nat p)%nat by lia.
    by rewrite Nat.iter_add.
  - done.
Qed.

Lemma shr_1_double z :
  0 <= z ->
  shr_1 {| shr_m := 2 * z; shr_r := false; shr_s := false |}
  = {| shr_m := z; shr_r := false; shr_s := false |}.
Proof. by destruct z. Qed.

Lemma nat_iter_shr_1_exact n z :
  0 <= z ->
  Nat.iter n shr_1
    {| shr_m := z * 2 ^ Z.of_nat n; shr_r := false; shr_s := false |}
  = {| shr_m := z; shr_r := false; shr_s := false |}.
Proof.
  revert z. induction n as [|n IH]; intros z Hz.
  - simpl. by rewrite Z.mul_1_r.
  - rewrite Nat2Z.inj_succ, Z.pow_succ_r by lia. simpl Nat.iter.
    replace (z * (2 * 2 ^ Z.of_nat n)) with (2 * z * 2 ^ Z.of_nat n) by lia.
    rewrite IH by lia. by apply shr_1_double.
Qed.

Lemma shr_exact z e j :
  0 <= z -> 0 <= j ->
  shr {| shr_m := z * 2 ^ j; shr_r := false; shr_s := false |} e j
  = ({| shr_m := z; shr_r := false; shr_s := false |}, e + j).
Proof.
  intros Hz Hj. destruct j as [|p|p]; [| |lia].
  - simpl. by rewrite Z.mul_1_r, Z.add_0_r.
  - unfold shr. rewrite iter_pos_nat_iter.
    rewrite <- (positive_nat_Z p) at 1. by rewrite nat_iter_shr_1_exact.
Qed.

Lemma bounded_inv m e :
  bounded prec emax m e = true ->
  fexp prec emax (Zpos (digits2_pos m) + e) = e /\ e <= emax - prec.
Proof.
  unfold bounded, canonical_mantissa.
  intros [H1 H2]%andb_prop. split; [by apply Z.eqb_eq | by apply Z.leb_le].
Qed.

(** An exactly representable mantissa with [j] extra zero bits rounds to
    itself. *)
Lemma binary_round_aux_exact s m e j :
  bounded prec emax m e = true -> 0 <= j ->
  binary_round_aux prec emax s (Zpos m * 2 ^ j) (e - j) loc_Exact
  = S754_finite s m e.
Proof.
  intros [Hcan Hmax]%bounded_inv Hj.
  unfold binary_round_aux, shr_fexp.
  rewrite Zdigits2_mul_pow2 by done.
  replace (Zpos (digits2_pos m) + j + (e - j)) with (Zpos (digits2_pos m) + e) by lia.
  rewrite Hcan. replace (e - (e - j)) with j by lia.
  simpl shr_record_of_loc at 1. rewrite shr_exact by lia.
  replace (e - j + j) with e by lia.
  simpl loc_of_shr_record. simpl round_nearest_even. simpl shr_m at 1.
  simpl Zdigits2. rewrite Hcan, Z.sub_diag. simpl.
  apply Z.leb_le in Hmax. by rewrite Hmax.
Qed.

Lemma fexp_mono a b : a <= b -> fexp prec emax a <= fexp prec emax b.
Proof. unfold fexp. lia. Qed.

Lemma new_location_exact d : new_location d 0 = loc_Exact.
Proof.
  unfold new_location, new_location_even, new_location_odd.
  by destruct (Z.even d).
Qed.

(** A quotient that is a number is that number. *)
Lemma of_ratio_exact s N D m e :
  bounded prec emax m e = true ->
  Zpos N * 2 ^ Z.max 0 (- e) = Zpos m * Zpos D * 2 ^ Z.max 0 e ->
  of_ratio s N D = S754_finite s m e.
Proof.
  intros Hb Heq. pose proof (bounded_inv m e Hb) as [Hcan Hmax].
  unfold of_ratio, SFdiv_core_binary.
  set (e' := Z.min (fexp prec emax (Zdigits2 (Zpos N) + 0 - (Zdigits2 (Zpos D) + 0))) (0 - 0)).
  assert (He'0 : e' <= 0) by (subst e'; lia).
  assert (He' : e' <= e).
  { destruct (Z.le_gt_cases 0 e) as [|Hneg]; [lia|].
    rewrite Z.max_r, Z.max_l, Z.mul_1_r in Heq by lia.
    assert (Hd : Zdigits2 (Zpos N) - Zdigits2 (Zpos D) <= Zpos (digits2_pos m) + e).
    { pose proof (Zdigits2_mul_pow2 N (- e) ltac:(lia)) as H1.
      rewrite Heq in H1. simpl Z.mul in H1. simpl Zdigits2 in *.
      pose proof (digits2_pos_mul_le m D). lia. }
    subst e'. apply fexp_mono in Hd. rewrite Hcan in Hd.
    replace (Zdigits2 (Zpos N) + 0 - (Zdigits2 (Zpos D) + 0))
      with (Zdigits2 (Zpos N) - Zdigits2 (Zpos D)) by lia. lia. }
  assert (Hm' : match 0 - 0 - e' with
                | 0 => Zpos N
                | Zpos _ => Z.shiftl (Zpos N) (0 - 0 - e')
                | Zneg _ => 0
                end = Zpos m * 2 ^ (e - e') * Zpos D).
  { assert (Hshift : Zpos N * 2 ^ (- e') = Zpos m * 2 ^ (e - e') * Zpos D).
    { destruct (Z.le_gt_cases 0 e) as [Hpos|Hneg].
      - rewrite Z.max_l, Z.max_r, Z.mul_1_r in Heq by lia.
        rewrite Heq. replace (e - e') with (e + - e') by lia.
        rewrite Z.pow_add_r by lia. lia.
      - rewrite Z.max_r, Z.max_l, Z.mul_1_r in Heq by lia.
        replace (- e') with (- e + (e - e')) by lia.
        rewrite Z.pow_add_r, Z.mul_assoc, Heq by lia. lia. }
    replace (0 - 0 - e') with (- e') by lia.
    destruct (- e') as [|p|p] eqn:E; [| |lia].
    - rewrite <- Hshift. simpl. lia.
    - by rewrite Z.shiftl_mul_pow2. }
  rewrite Hm'.
  rewrite (surjective_pairing (Z.div_eucl _ _)).
  change (fst (Z.div_eucl ?a ?b)) with (a / b).
  change (snd (Z.div_eucl ?a ?b)) with (a mod b).
  rewrite Z.div_mul, Z.mod_mul, new_location_exact by done.
  replace e' with (e - (e - e')) at 2 by lia.
  apply binary_round_aux_exact; [done | lia].
Qed.

(** The exact decimal expansion of a number reads back as that number. *)
Lemma of_decimal_exact s m e :
  bounded prec emax m e = true ->
  of_decimal s (fst (exact_decimal m e)) (- snd (exact_decimal m e))
  = S754_finite s m e.
Proof.
  intros Hb. destruct e as [|k|k]; simpl.
  - apply of_ratio_exact; [done|]. rewrite !Z.max_l by lia. lia.
  - apply of_ratio_exact; [done|].
    rewrite Z.max_l, Z.max_r by lia.
    rewrite Pos2Z.inj_mul, Pos2Z.inj_pow. lia.
  - apply of_ratio_exact; [done|].
    rewrite Z.max_r, Z.max_l by lia.
    rewrite Pos2Z.inj_mul, !Pos2Z.inj_pow.
    change (Zpos 10) with (2 * 5). rewrite Z.pow_mul_l.
    change (- Zneg k) with (Zpos k). change (2 ^ 0) with 1. lia.
Qed.

End ExactRounding.

(** ** [parseFloat] after [toString] *)

Section RoundTrip.

Lemma binary_round_aux_sign mx ex lx :
  binary_round_aux prec emax true mx ex lx
  = SFopp (binary_round_aux prec emax false mx ex lx).
Proof.
  unfold binary_round_aux.
  destruct (shr_fexp prec emax mx ex lx) as [mrs' e'].
  destruct (shr_fexp prec emax _ e' loc_Exact) as [mrs'' e''].
  destruct (shr_m mrs''); [done | | done]. by destruct (e'' <=? emax - prec).
Qed.

Lemma of_decimal_sign M e10 :
  of_decimal true M e10 = SFopp (of_decimal false M e10).
Proof.
  destruct M as [|m]; [done|].
  destruct e10; simpl; unfold of_ratio;
    destruct (SFdiv_core_binary _ _ _ _ _ _) as [[q e] l];
    apply binary_round_aux_sign.
Qed.

Lemma parse_unsigned_sign l :
  parse_unsigned true l = SFopp (parse_unsigned false l).
Proof.
  unfold parse_unsigned.
  destruct (starts_with _ l); [done|].
  destruct (scan_digits 0 0 l) as [[vi ci] l1].
  destruct (match l1 with "."%char :: r => scan_digits vi 0 r | _ => (vi, O, l1) end)
    as [[v cf] l2].
  destruct ci, cf; try done; apply of_decimal_sign.
Qed.

Lemma parse_chars_digit c l :
  is_digit c = true -> parse_chars (c :: l) = parse_unsigned false (c :: l).
Proof.
  intros Hc. unfold parse_chars.
  assert (Hw : is_white_space c = false)
    by (destruct c as [[] [] [] [] [] [] [] []]; done).
  simpl trim_start. rewrite Hw.
  destruct c as [[] [] [] [] [] [] [] []]; done.
Qed.

Lemma parse_chars_minus l : parse_chars ("-"%char :: l) = parse_unsigned true l.
Proof. done. Qed.

Lemma format_decimal_digit_head ds n :
  ds <> [] -> all_digits ds -> digit_head (format_decimal ds n).
Proof.
  intros Hne Hall. destruct ds as [|d ds]; [done|].
  assert (Hd : is_digit d = true) by (by inversion Hall).
  unfold format_decimal.
  destruct ((-5 <=? n) && (n <=? 21)).
  - destruct (_ <=? n); [by eexists _, _|].
    destruct (0 <? n) eqn:Hn; [|by eexists _, _].
    apply Z.ltb_lt in Hn. destruct (Z.to_nat n) eqn:E; [lia|]. by eexists _, _.
  - destruct ds; by eexists _, _.
Qed.

Lemma format_digits_of_digit_head N n : digit_head (format_decimal (digits_of N) n).
Proof.
  destruct (digits_of_spec N) as (Hne & Hall & _).
  by apply format_decimal_digit_head.
Qed.

Lemma candidate_sound x M D n k str :
  candidate x M D n k = Some str -> parse_chars str = x /\ digit_head str.
Proof.
  unfold candidate.
  set (str_lo := format_decimal (digits_of (M / 10 ^ N.of_nat (D - k))%N) n).
  set (str_hi := if (_ =? _)%N then _ else _).
  assert (Hlo : digit_head str_lo) by apply format_digits_of_digit_head.
  assert (Hhi : digit_head str_hi)
    by (subst str_hi; destruct (_ =? _)%N; apply format_digits_of_digit_head).
  destruct (bool_decide (parse_chars str_lo = x)) eqn:Elo;
    destruct (bool_decide (parse_chars str_hi = x)) eqn:Ehi;
    try apply bool_decide_eq_true in Elo; try apply bool_decide_eq_true in Ehi;
    intros [= <-]; try done.
  destruct (_ <? _)%N; [done|]. destruct (_ <? _)%N; [done|].
  by destruct (N.even _).
Qed.

Lemma first_some_sound {A B : Type} (f : A -> option B) l b :
  first_some f l = Some b -> exists a, f a = Some b.
Proof.
  induction l as [|a l IH]; [done|]. simpl.
  destruct (f a) as [b'|] eqn:E; [intros [= <-]; eauto | done].
Qed.

Lemma toString_pos_correct m e :
  bounded prec emax m e = true ->
  parse_chars (toString_pos m e) = S754_finite false m e
  /\ digit_head (toString_pos m e).
Proof.
  intros Hb. unfold toString_pos.
  pose proof (of_decimal_exact false m e Hb) as Hexact.
  destruct (exact_decimal m e) as [M K]. simpl in Hexact.
  destruct (first_some _ _) as [str|] eqn:E.
  - apply first_some_sound in E as [k Hk]. by apply candidate_sound in Hk.
  - destruct (digits_of_spec M) as (Hne & Hall & Hval).
    pose proof (format_decimal_digit_head (digits_of M)
                  (Z.of_nat (length (digits_of M)) - K) Hne Hall) as Hhead.
    split; [|done]. destruct Hhead as (c & l & Hcl & Hc).
    rewrite Hcl, parse_chars_digit, <- Hcl by done.
    rewrite parse_format_decimal, Hval by done.
    rewrite <- Hexact. f_equal. lia.
Qed.

Lemma toString_chars_head x : exists c l, toString_chars x = c :: l.
Proof.
  destruct x as [s|[]| |[] m e]; try by eexists _, _.
  unfold toString_chars, toString_pos.
  destruct (exact_decimal m e) as [M K].
  destruct (first_some _ _) as [str|] eqn:E.
  - apply first_some_sound in E as [k Hk].
    apply candidate_sound in Hk as [_ (c & l & -> & _)]. eauto.
  - destruct (format_digits_of_digit_head M (Z.of_nat (length (digits_of M)) - K))
      as (c & l & -> & _). eauto.
Qed.

(** [toString] never gives the empty string. *)
Lemma toString_not_empty x : exists c s, toString x = String c s.
Proof.
  unfold toString. destruct (toString_chars_head x) as (c & l & ->).
  by eexists _, _.
Qed.

(** Every number but [-0] is read back from its string; [-0] is written
    as ["0"] and read back as [+0]. *)
Lemma parseFloat_toString x :
  valid x = true ->
  parseFloat (toString x) = match x with S754_zero _ => zero | _ => x end.
Proof.
  intros Hx. unfold parseFloat, toString.
  rewrite list_ascii_of_string_of_list_ascii.
  destruct x as [s|[]| |[] m e]; try done; simpl in Hx.
  - destruct (toString_pos_correct m e Hx) as [Hp (c & l & Hcl & Hc)].
    unfold toString_chars. rewrite parse_chars_minus, parse_unsigned_sign.
    rewrite Hcl, <- parse_chars_digit, <- Hcl, Hp by done. done.
  - by destruct (toString_pos_correct m e Hx).
Qed.

End RoundTrip.

(** ** Every number the controller computes is a binary64 value *)

Section Validity.

Lemma Zdigits2_nonneg z : 0 <= Zdigits2 z.
Proof. by destruct z. Qed.

Lemma Zdigits2_bounds z :
  0 <= z -> z < 2 ^ Zdigits2 z /\ (0 < z -> 2 ^ (Zdigits2 z - 1) <= z).
Proof.
  intros Hz. destruct z as [|p|p]; [done | | lia].
  destruct (digits2_pos_spec p). simpl. lia.
Qed.

Lemma Zdigits2_lower z k : 0 <= z -> 2 ^ (k - 1) <= z -> 1 <= k -> k <= Zdigits2 z.
Proof.
  intros Hz Hk Hk1. destruct (Zdigits2_bounds z Hz) as [Hhi _].
  pose proof (Zdigits2_nonneg z).
  assert (k - 1 < Zdigits2 z) by (apply (Z.pow_lt_mono_r_iff 2); lia). lia.
Qed.

Lemma Zdigits2_upper z k : 0 <= z -> z < 2 ^ k -> 0 <= k -> Zdigits2 z <= k.
Proof.
  intros Hz Hk Hk0. destruct (Z.eq_dec z 0) as [->|Hnz]; [done|].
  destruct (Zdigits2_bounds z Hz) as [_ Hlo]. specialize (Hlo ltac:(lia)).
  assert (Zdigits2 z - 1 < k) by (apply (Z.pow_lt_mono_r_iff 2); lia). lia.
Qed.

Lemma shr_1_div2 mrs : 0 <= shr_m mrs -> shr_m (shr_1 mrs) = shr_m mrs / 2.
Proof.
  destruct mrs as [[|[p|p|]|p] r s]; simpl; intros H; try done.
  - change (Zpos p~1) with (1 + 2 * Zpos p). 
    by rewrite Z.mul_comm, Z.div_add, Z.add_0_l.
  - change (Zpos p~0) with (2 * Zpos p).
    by rewrite Z.mul_comm, Z.div_mul.
Qed.

Lemma nat_iter_shr_1_div n mrs :
  0 <= shr_m mrs ->
  shr_m (Nat.iter n shr_1 mrs) = shr_m mrs / 2 ^ Z.of_nat n.
Proof.
  intros Hm. induction n as [|n IH].
  - simpl. by rewrite Z.div_1_r.
  - simpl Nat.iter. rewrite shr_1_div2, IH.
    + rewrite Nat2Z.inj_succ, Z.pow_succ_r, Z.div_div by lia.
      f_equal. lia.
    + rewrite IH. apply Z.div_pos; [done|]. apply Z.pow_pos_nonneg; lia.
Qed.

Lemma shr_div mrs e n :
  0 <= shr_m mrs -> 0 <= n ->
  shr_m (fst (shr mrs e n)) = shr_m mrs / 2 ^ n /\ snd (shr mrs e n) = e + n.
Proof.
  intros Hm Hn. destruct n as [|p|p]; [| |lia]; simpl.
  - rewrite Z.div_1_r. split; [done | lia].
  - split; [|done]. rewrite iter_pos_nat_iter, nat_iter_shr_1_div by done.
    by rewrite positive_nat_Z.
Qed.

Lemma shr_record_of_loc_m m l : shr_m (shr_record_of_loc m l) = m.
Proof. by destruct l as [|[]]. Qed.

Lemma round_nearest_even_range m l :
  m <= round_nearest_even m l <= m + 1.
Proof. destruct l as [|[]]; simpl; try lia. destruct (Z.even m); lia. Qed.

(** After the first shift the mantissa has at most 53 bits, and exactly
    53 above the smallest exponent. *)
Lemma shr_fexp_range mx ex lx :
  0 <= mx -> ex <= fexp prec emax (Zdigits2 mx + ex) ->
  let '(mrs, e1) := shr_fexp prec emax mx ex lx in
  0 <= shr_m mrs < 2 ^ 53 /\ -1074 <= e1 /\ (-1074 < e1 -> 2 ^ 52 <= shr_m mrs).
Proof.
  intros Hmx Hpre. unfold shr_fexp.
  set (d := Zdigits2 mx) in *. set (n := fexp prec emax (d + ex) - ex).
  assert (Hn : 0 <= n) by (subst n; lia).
  destruct (shr_div (shr_record_of_loc mx lx) ex n) as [Hm He];
    [by rewrite shr_record_of_loc_m | done |].
  rewrite shr_record_of_loc_m in Hm.
  destruct (shr _ ex n) as [mrs e1]. simpl in Hm, He. rewrite Hm, He.
  assert (H2n : 0 < 2 ^ n) by (apply Z.pow_pos_nonneg; lia).
  destruct (Zdigits2_bounds mx Hmx) as [Hhi Hlo]. fold d in Hhi, Hlo.
  pose proof (Zdigits2_nonneg mx) as Hd. fold d in Hd.
  assert (Hfexp : fexp prec emax (d + ex) = Z.max (d + ex - 53) (-1074)) by done.
  split; [split|split].
  - by apply Z.div_pos.
  - apply Z.div_lt_upper_bound; [done|].
    destruct (Z.le_gt_cases n d) as [Hnd|Hnd].
    + apply Z.lt_le_trans with (2 ^ d); [done|].
      rewrite <- Z.pow_add_r by lia. apply Z.pow_le_mono_r; lia.
    + apply Z.lt_le_trans with (2 ^ d); [done|].
      apply Z.le_trans with (2 ^ n); [apply Z.pow_le_mono_r; lia|].
      assert (1 <= 2 ^ 53) by done. nia.
  - lia.
  - intros He1.
    assert (Hn' : n = d - 53) by lia.
    assert (0 < mx).
    { destruct (Z.eq_dec mx 0) as [->|]; [|lia]. subst d. simpl in *. lia. }
    apply Z.div_le_lower_bound; [done|].
    rewrite Hn', <- Z.pow_add_r by lia.
    replace (d - 53 + 52) with (d - 1) by lia. by apply Hlo.
Qed.

(** The second shift and the final test give a binary64 value. *)
Lemma round_finish_valid s m e1 :
  0 <= m <= 2 ^ 53 -> -1074 <= e1 -> (-1074 < e1 -> 2 ^ 52 <= m) ->
  valid
    (let '(mrs, e2) := shr_fexp prec emax m e1 loc_Exact in
     match shr_m mrs with
     | 0 => S754_zero s
     | Zpos m' => if e2 <=? emax - prec then S754_finite s m' e2 else S754_infinity s
     | Zneg _ => S754_nan
     end) = true.
Proof.
  intros [Hm0 Hm53] He1 Hnorm. unfold shr_fexp.
  destruct (Z.eq_dec m (2 ^ 53)) as [->|Hne].
  - (* the rounding carried into a 54th bit *)
    change (2 ^ 53) with 9007199254740992.
    change (Zdigits2 9007199254740992) with 54.
    replace (fexp prec emax (54 + e1) - e1) with 1
      by (change (fexp prec emax (54 + e1)) with (Z.max (54 + e1 - 53) (-1074)); lia).
    change (shr (shr_record_of_loc 9007199254740992 loc_Exact) e1 1)
      with ({| shr_m := 4503599627370496; shr_r := false; shr_s := false |}, e1 + 1).
    cbv iota beta. cbn [shr_m].
    destruct (e1 + 1 <=? emax - prec) eqn:E; [|done].
    unfold valid, valid_binary, bounded, canonical_mantissa.
    rewrite E, andb_true_r. apply Z.eqb_eq.
    change (digits2_pos 4503599627370496) with 53%positive.
    change (fexp prec emax (53 + (e1 + 1))) with (Z.max (53 + (e1 + 1) - 53) (-1074)).
    lia.
  - assert (Hd : Zdigits2 m <= 53) by (apply Zdigits2_upper; lia).
    assert (Hd' : -1074 < e1 -> Zdigits2 m = 53).
    { intros H. apply Zdigits2_unique; [|specialize (Hnorm H); lia].
      split; [by apply Hnorm | lia]. }
    pose proof (Zdigits2_nonneg m) as Hd0.
    assert (Hcan : fexp prec emax (Zdigits2 m + e1) = e1).
    { change (fexp prec emax (Zdigits2 m + e1))
        with (Z.max (Zdigits2 m + e1 - 53) (-1074)).
      destruct (Z.eq_dec e1 (-1074)) as [->|]; [lia|]. rewrite Hd' by lia. lia. }
    rewrite Hcan, Z.sub_diag. simpl.
    destruct m as [|m|m]; [done | | lia].
    destruct (e1 <=? emax - prec) eqn:E; [|done].
    unfold valid, valid_binary, bounded, canonical_mantissa.
    rewrite E, andb_true_r. by apply Z.eqb_eq.
Qed.

Lemma binary_round_aux_valid s mx ex lx :
  0 <= mx -> ex <= fexp prec emax (Zdigits2 mx + ex) ->
  valid (binary_round_aux prec emax s mx ex lx) = true.
Proof.
  intros Hmx Hpre. unfold binary_round_aux.
  pose proof (shr_fexp_range mx ex lx Hmx Hpre) as H1.
  destruct (shr_fexp prec emax mx ex lx) as [mrs e1].
  destruct H1 as ([Hm0 Hm53] & He1 & Hnorm).
  pose proof (round_nearest_even_range (shr_m mrs) (loc_of_shr_record mrs)) as Hr.
  apply (round_finish_valid s (round_nearest_even (shr_m mrs) (loc_of_shr_record mrs)) e1).
  - lia.
  - done.
  - intros H. specialize (Hnorm H). lia.
Qed.

End Validity.

Section ValidOperations.

(** The quotient computed by [SFdiv_core_binary] carries enough bits to
    be rounded. *)
Lemma SFdiv_core_binary_precise m1 e1 m2 e2 :
  let '(q, e', _) := SFdiv_core_binary prec emax (Zpos m1) e1 (Zpos m2) e2 in
  0 <= q /\ e' <= fexp prec emax (Zdigits2 q + e').
Proof.
  unfold SFdiv_core_binary.
  set (d1 := Zdigits2 (Zpos m1)). set (d2 := Zdigits2 (Zpos m2)).
  set (e' := Z.min (fexp prec emax (d1 + e1 - (d2 + e2))) (e1 - e2)).
  set (sh := e1 - e2 - e').
  assert (Hsh : 0 <= sh) by (subst sh e'; lia).
  assert (Hm' : match sh with
                | 0 => Zpos m1
                | Zpos _ => Z.shiftl (Zpos m1) sh
                | Zneg _ => 0
                end = Zpos m1 * 2 ^ sh).
  { destruct sh as [|p|p] eqn:E; [simpl; lia | | lia].
    by rewrite Z.shiftl_mul_pow2. }
  rewrite Hm'. clear Hm'.
  rewrite (surjective_pairing (Z.div_eucl _ _)).
  change (fst (Z.div_eucl ?a ?b)) with (a / b).
  set (q := Zpos m1 * 2 ^ sh / Zpos m2).
  assert (H2sh : 0 < 2 ^ sh) by (apply Z.pow_pos_nonneg; lia).
  assert (Hq : 0 <= q) by (subst q; apply Z.div_pos; lia).
  split; [done|].
  assert (Hdq : d1 + sh - d2 <= Zdigits2 q).
  { pose proof (Zdigits2_nonneg q).
    destruct (Z.le_gt_cases (d1 + sh - d2) 0) as [|Hk]; [lia|].
    apply Zdigits2_lower; [done| |lia].
    destruct (digits2_pos_spec m1) as [Hlo1 _], (digits2_pos_spec m2) as [_ Hhi2].
    fold (Zdigits2 (Zpos m1)) in Hlo1. fold (Zdigits2 (Zpos m2)) in Hhi2.
    fold d1 in Hlo1. fold d2 in Hhi2.
    assert (0 < d2) by (subst d2; simpl; lia).
    assert (0 < d1) by (subst d1; simpl; lia).
    subst q. apply Z.div_le_lower_bound; [done|].
    apply Z.le_trans with (2 ^ d2 * 2 ^ (d1 + sh - d2 - 1)).
    - apply Z.mul_le_mono_nonneg_r; [apply Z.pow_nonneg|]; lia.
    - rewrite <- Z.pow_add_r by lia.
      replace (d2 + (d1 + sh - d2 - 1)) with (d1 - 1 + sh) by lia.
      rewrite Z.pow_add_r by lia. apply Z.mul_le_mono_nonneg_r; lia. }
  apply Z.le_trans with (fexp prec emax (d1 + e1 - (d2 + e2))); [subst e'; lia|].
  apply fexp_mono. subst sh. lia.
Qed.

Lemma of_ratio_valid s n d : valid (of_ratio s n d) = true.
Proof.
  unfold of_ratio.
  pose proof (SFdiv_core_binary_precise n 0 d 0) as H.
  destruct (SFdiv_core_binary _ _ _ _ _ _) as [[q e'] l].
  destruct H as [Hq He']. by apply binary_round_aux_valid.
Qed.

Lemma of_decimal_valid s M e10 : valid (of_decimal s M e10) = true.
Proof.
  destruct M as [|m]; [done|]. destruct e10; apply of_ratio_valid.
Qed.

Lemma parseFloat_valid str : valid (parseFloat str) = true.
Proof.
  unfold parseFloat, parse_chars.
  assert (H : forall neg l, valid (parse_unsigned neg l) = true).
  { intros neg l. unfold parse_unsigned.
    destruct (starts_with _ l); [done|].
    destruct (scan_digits 0 0 l) as [[vi ci] l1].
    destruct (match l1 with "."%char :: r => scan_digits vi 0 r | _ => (vi, O, l1) end)
      as [[v cf] l2].
    destruct ci, cf; try done; apply of_decimal_valid. }
  destruct (trim_start _) as [|c l]; [apply H|].
  destruct (Ascii.ascii_dec c "-") as [->|]; [apply H|].
  destruct (Ascii.ascii_dec c "+") as [->|]; [apply H|].
  destruct c as [[] [] [] [] [] [] [] []]; apply H.
Qed.

Lemma div_valid x y : valid (div x y) = true.
Proof.
  destruct x as [sx|sx| |sx mx ex], y as [sy|sy| |sy my ey]; try done.
  unfold div, SFdiv.
  pose proof (SFdiv_core_binary_precise mx ex my ey) as H.
  destruct (SFdiv_core_binary _ _ _ _ _ _) as [[q e'] l].
  destruct H as [Hq He']. by apply binary_round_aux_valid.
Qed.

Lemma digits2_pos_mul_ge a b :
  Zpos (digits2_pos a) + Zpos (digits2_pos b) - 1 <= Zpos (digits2_pos (a * b)).
Proof.
  destruct (digits2_pos_spec a) as [Ha _], (digits2_pos_spec b) as [Hb _].
  apply (Zdigits2_lower (Zpos (a * b))); [done | | lia].
  replace (Zpos (digits2_pos a) + Zpos (digits2_pos b) - 1 - 1)
    with ((Zpos (digits2_pos a) - 1) + (Zpos (digits2_pos b) - 1)) by lia.
  rewrite Z.pow_add_r, Pos2Z.inj_mul by lia.
  apply Z.mul_le_mono_nonneg; try done; apply Z.pow_nonneg; lia.
Qed.

Lemma mul_valid x y : valid x = true -> valid y = true -> valid (mul x y) = true.
Proof.
  destruct x as [sx|sx| |sx mx ex], y as [sy|sy| |sy my ey]; try done.
  intros [Hx _]%bounded_inv [Hy _]%bounded_inv.
  apply binary_round_aux_valid; [done|].
  pose proof (digits2_pos_mul_ge mx my) as Hd.
  change (Zdigits2 (Zpos (mx * my))) with (Zpos (digits2_pos (mx * my))).
  unfold fexp, SpecFloat.emin in *.
  change prec with 53 in *. change emax with 1024 in *. lia.
Qed.

Lemma newWidth_valid clientX r : valid (newWidth clientX r) = true.
Proof. unfold newWidth. apply mul_valid; [apply div_valid | done]. Qed.

Lemma constrain_valid x :
  valid x = true -> valid (constrain minPercent maxPercent x) = true.
Proof.
  intros Hx. destruct (isNaN x) eqn:Hn.
  - by destruct x.
  - destruct (constrain_cases minPercent maxPercent x) as [(-> & _) | [(-> & _) | ->]];
      try done; by eexists _, _, _.
Qed.

Lemma handle_valid ev s :
  valid (App.chatbotWidth s) = true ->
  valid (App.chatbotWidth (App.handle ev s)) = true.
Proof.
  intros Hs. destruct ev as [| | | | | |clientX [r|]|]; simpl; try done;
    unfold App.handleMouseMove; destruct (negb _); try done.
  simpl. apply constrain_valid, newWidth_valid.
Qed.

(** The width of every reachable state is a binary64 value. *)
Lemma reachable_valid ls w :
  App.reachable ls w -> valid (App.chatbotWidth (fst w)) = true.
Proof.
  induction 1 as [innerWidth | ev w Hw IH]; simpl.
  - unfold App.initialChatbotWidth.
    destruct (localStorage.getItem ls "chatbotWidth") as [[|c saved]|];
      [done | apply parseFloat_valid | done].
  - by apply handle_valid.
Qed.

End ValidOperations.

(** ** Persistence *)

Section Persistence.

(** The store of a reachable state holds what the state was last saved
    as. *)
Lemma reachable_synced ls w :
  App.reachable ls w ->
  localStorage.getItem (snd w) "chatbotWidth"
  = Some (toString (App.chatbotWidth (fst w)))
  /\ localStorage.getItem (snd w) "chatbotVisible"
     = Some (boolToString (App.isChatbotVisible (fst w))).
Proof.
  unfold localStorage.getItem.
  induction 1 as [innerWidth | ev [s st] Hw [IHw IHv]]; simpl in *.
  - unfold App.mountEffects, App.saveVisible, App.saveWidth, localStorage.setItem.
    split; [by rewrite lookup_insert_ne, lookup_insert_eq | by rewrite lookup_insert_eq].
  - unfold App.updateEffects, App.saveVisible, App.saveWidth, localStorage.setItem.
    split.
    + destruct (bool_decide (App.isChatbotVisible s = _));
        [|rewrite lookup_insert_ne by done];
        (case_bool_decide as Hw'; [by rewrite <- Hw' | by rewrite lookup_insert_eq]).
    + case_bool_decide as Hv'; [|by rewrite lookup_insert_eq].
      rewrite <- Hv'.
      by destruct (bool_decide (App.chatbotWidth s = _));
        [|rewrite lookup_insert_ne by done].
Qed.

Lemma initialChatbotWidth_saved ls x :
  localStorage.getItem ls "chatbotWidth" = Some (toString x) ->
  App.initialChatbotWidth ls = parseFloat (toString x).
Proof.
  intros H. unfold App.initialChatbotWidth. rewrite H.
  by destruct (toString_not_empty x) as (c & s & ->).
Qed.

Lemma initialIsChatbotVisible_saved ls b :
  localStorage.getItem ls "chatbotVisible" = Some (boolToString b) ->
  App.initialIsChatbotVisible ls = b.
Proof.
  intros H. unfold App.initialIsChatbotVisible. rewrite H. by destruct b.
Qed.

End Persistence.

Section RoundTripFacts.

Lemma toString_zero sz : toString (S754_zero sz) = "0"%string.
Proof. by destruct sz. Qed.

Lemma sameValueZero_refl x : sameValueZero x x = true.
Proof.
  destruct x; try done; unfold sameValueZero; by apply bool_decide_eq_true_2.
Qed.

(** The one width whose representation changes: [-0] is saved as ["0"]
    and read back as [+0], which is the same number. *)
Lemma negative_zero_read_back :
  let w := App.mount {[ "chatbotWidth"%string := "-0"%string ]} (of_Z 1280) in
  let s' := App.initialState (snd w) (of_Z 1280) in
  App.chatbotWidth (fst w) = neg_zero
  /\ localStorage.getItem (snd w) "chatbotWidth" = Some "0"%string
  /\ App.chatbotWidth s' = zero
  /\ sameValueZero (App.chatbotWidth s') (App.chatbotWidth (fst w)) = true.
Proof. intros w s'. split; [|split; [|split]]; by vm_compute. Qed.

(** No handler produces [-0]: a width of [-0] is one that the initial
    store made [parseFloat] read. *)
Lemma handle_neg_zero ev s :
  App.chatbotWidth (App.handle ev s) = neg_zero -> App.chatbotWidth s = neg_zero.
Proof.
  destruct ev as [| | | | | |clientX [r|]|]; simpl; try done.
  - unfold App.handleMouseMove. destruct (negb (App.isResizing s)); [done|].
    cbn [App.setChatbotWidth App.chatbotWidth]. intros H. exfalso.
    destruct (isNaN (newWidth clientX r)) eqn:Hn.
    + by destruct (newWidth clientX r).
    + destruct (constrain_cases (of_Z 5) (of_Z 95) (newWidth clientX r))
        as [(Hc & Hlo & _)|[(Hc & _)|Hc]];
        [by eexists _, _, _ | by eexists _, _, _ | done | | |];
        rewrite Hc in H; [|done|done].
      by rewrite H in Hlo.
  - unfold App.handleMouseMove. by destruct (negb (App.isResizing s)).
Qed.

Lemma reachable_neg_zero ls w :
  App.reachable ls w ->
  App.chatbotWidth (fst w) = neg_zero -> App.initialChatbotWidth ls = neg_zero.
Proof.
  induction 1 as [innerWidth | ev w Hw IH]; [done|].
  simpl. intros H. by apply IH, (handle_neg_zero ev).
Qed.

End RoundTripFacts.

(** C9: a controller constructed from the store that a reachable
    controller state has written starts with the same visibility and the
    same width, as a number ([NaN] and the infinities included).  The
    width is restored bit for bit unless it is [-0], which is restored as
    [+0]; the two are written as the same string, so that the store the
    new controller writes on its first render is the store it was given. *)
Theorem C9_round_trip ls w innerWidth :
  App.reachable ls w ->
  let s' := App.initialState (snd w) innerWidth in
  App.isChatbotVisible s' = App.isChatbotVisible (fst w)
  /\ sameValueZero (App.chatbotWidth s') (App.chatbotWidth (fst w)) = true
  /\ (App.chatbotWidth (fst w) <> neg_zero ->
      App.chatbotWidth s' = App.chatbotWidth (fst w))
  /\ toString (App.chatbotWidth s') = toString (App.chatbotWidth (fst w))
  /\ snd (App.mount (snd w) innerWidth) = snd w.
Proof.
  intros Hw. destruct (reachable_synced ls w Hw) as [Hsw Hsv].
  assert (Hv : App.initialIsChatbotVisible (snd w) = App.isChatbotVisible (fst w))
    by exact (initialIsChatbotVisible_saved _ _ Hsv).
  assert (Hx : App.initialChatbotWidth (snd w)
               = match App.chatbotWidth (fst w) with
                 | S754_zero _ => zero
                 | _ => App.chatbotWidth (fst w)
                 end).
  { rewrite (initialChatbotWidth_saved _ _ Hsw).
    apply parseFloat_toString. by eapply reachable_valid. }
  assert (Hs : toString (App.initialChatbotWidth (snd w))
               = toString (App.chatbotWidth (fst w))).
  { rewrite Hx. by destruct (App.chatbotWidth (fst w)) as [sz| | |]. }
  simpl. split; [done|]. split; [|split; [|split; [done|]]].
  - rewrite Hx. destruct (App.chatbotWidth (fst w)) as [sz|sz| |sz m e];
      try done; apply sameValueZero_refl.
  - intros Hnz. rewrite Hx.
    by destruct (App.chatbotWidth (fst w)) as [[]| | |].
  - unfold App.mountEffects, App.saveVisible, App.saveWidth, localStorage.setItem.
    simpl. rewrite Hs, Hv.
    unfold localStorage.getItem in Hsw, Hsv.
    by rewrite (insert_id _ _ _ Hsw), (insert_id _ _ _ Hsv).
Qed.

Lemma C9_round_trip_witness :
  let w := App.run
             [App.ToggleChatbot; App.SeparatorMouseDown;
              App.MouseMove (of_Z 667) (Some {| left := zero; width := of_Z 1000 |});
              App.MouseUp]
             (App.mount ∅ (of_Z 1280)) in
  let s' := App.initialState (snd w) (of_Z 800) in
  App.reachable ∅ w
  /\ localStorage.getItem (snd w) "chatbotWidth" = Some "33.300000000000004"%string
  /\ localStorage.getItem (snd w) "chatbotVisible" = Some "false"%string
  /\ App.isChatbotVisible s' = App.isChatbotVisible (fst w)
  /\ sameValueZero (App.chatbotWidth s') (App.chatbotWidth (fst w)) = true
  /\ App.chatbotWidth s' = App.chatbotWidth (fst w).
Proof.
  intros w s'.
  assert (Hw : App.reachable ∅ w)
    by (do 4 apply App.reachable_step; apply App.reachable_mount).
  assert (Hnz : App.chatbotWidth (fst w) <> neg_zero) by (by vm_compute).
  pose proof (C9_round_trip ∅ w (of_Z 800) Hw) as (H1 & H2 & H3 & _).
  split; [done|]. split; [by vm_compute|]. split; [by vm_compute|].
  split; [exact H1|]. split; [exact H2 | exact (H3 Hnz)].
Defined.

(** ** The combobox *)

Section FilterFacts.
Context {A : Type}.

Lemma array_filter_spec (callback : A -> bool) arr result :
  array_filter callback arr result = result ++ List.filter callback arr.
Proof.
  revert result. induction arr as [|a arr IH]; intros result; simpl.
  - by rewrite app_nil_r.
  - rewrite IH. destruct (callback a); [by rewrite <- app_assoc | done].
Qed.

Lemma filter_sublist (f : A -> bool) l : sublist (List.filter f l) l.
Proof.
  induction l as [|a l IH]; simpl; [constructor|].
  destruct (f a); by constructor.
Qed.

Lemma filter_all (f : A -> bool) l :
  (forall a, a ∈ l -> f a = true) -> List.filter f l = l.
Proof.
  induction l as [|a l IH]; intros H; simpl; [done|].
  rewrite H by left. f_equal. apply IH. intros b Hb. apply H. by right.
Qed.

Lemma includes_empty s : includes s ""%string = true.
Proof. by destruct s. Qed.

Lemma prefix_app (sub s : string) :
  String.prefix sub s = true <-> exists post, s = (sub ++ post)%string.
Proof.
  revert s. induction sub as [|c sub IH]; intros s.
  - split; [by exists s | by destruct s].
  - destruct s as [|c' s]; [split; [done | by intros [post ?]]|].
    cbn [String.prefix].
    destruct (Ascii.ascii_dec c c') as [<-|Hne].
    + rewrite IH. split; intros [post H]; exists post.
      * by rewrite H.
      * by injection H.
    + split; [done | intros [post H]; by injection H].
Qed.
(** [includes s sub] holds exactly when [sub] is a substring of [s]. *)
Lemma includes_substring (s sub : string) :
  includes s sub = true
  <-> exists pre post, s = (pre ++ (sub ++ post))%string.
Proof.
  induction s as [|c s IH]; cbn [includes].
  - rewrite orb_false_r, prefix_app. split.
    + intros [post ->]. by exists ""%string, post.
    + intros (pre & post & H). destruct pre; [by exists post|done].
  - rewrite orb_true_iff, prefix_app, IH. split.
    + intros [[post ->] | (pre & post & ->)].
      * by exists ""%string, post.
      * by exists (String c pre), post.
    + intros (pre & post & H). destruct pre as [|c' pre].
      * left. by exists post.
      * right. injection H as -> ->. by exists pre, post.
Qed.

End FilterFacts.

Section ComboboxFacts.
Context {O V : Type}.
Variable props : SearchableSelect.Props O V.

Import SearchableSelect.

Lemma filteredOptions_filter s :
  filteredOptions props s
  = List.filter (filterCallback props (searchTerm s)) (options props).
Proof. unfold filteredOptions. by rewrite array_filter_spec. Qed.

Lemma reachable_run evs s :
  reachable props s -> reachable props (run props evs s).
Proof.
  revert s. induction evs as [|ev evs IH]; intros s Hs; [done|].
  simpl. apply IH. by constructor.
Qed.

End ComboboxFacts.

(** C4: when the label accessor has a string for every option, the
    filtered options are the options whose lowercased label contains the
    lowercased query as a substring, in the order of [options]; with the
    empty query they are all the options. *)
Theorem C4_filteredOptions {O V : Type} (props : SearchableSelect.Props O V)
    (labelOf : O -> string) (s : SearchableSelect.State) :
  (forall o, o ∈ SearchableSelect.options props ->
             SearchableSelect.getOptionLabel props o = Some (labelOf o)) ->
  SearchableSelect.filteredOptions props s
  = spec_filteredOptions labelOf (SearchableSelect.searchTerm s)
      (SearchableSelect.options props)
  /\ sublist (SearchableSelect.filteredOptions props s)
       (SearchableSelect.options props)
  /\ (forall o,
        o ∈ SearchableSelect.filteredOptions props s
        <-> o ∈ SearchableSelect.options props
            /\ exists pre post,
                 toLowerCase (labelOf o)
                 = (pre ++ (toLowerCase (SearchableSelect.searchTerm s) ++ post))%string)
  /\ (SearchableSelect.searchTerm s = ""%string ->
      SearchableSelect.filteredOptions props s = SearchableSelect.options props).
Proof.
  intros Hlabel. rewrite filteredOptions_filter. split; [|split; [|split]].
  - unfold spec_filteredOptions. apply List.filter_ext_in.
    intros o Ho%list_elem_of_In. unfold SearchableSelect.filterCallback.
    by rewrite Hlabel.
  - apply filter_sublist.
  - intros o. rewrite list_elem_of_In, List.filter_In, <- list_elem_of_In.
    split; intros [Ho H]; (split; [done|]);
      unfold SearchableSelect.filterCallback in *;
      rewrite Hlabel in * by done; by apply includes_substring.
  - intros ->. apply filter_all. intros o Ho.
    unfold SearchableSelect.filterCallback. rewrite Hlabel by done.
    apply includes_empty.
Qed.

Lemma C4_filteredOptions_witness :
  let s := {| SearchableSelect.isOpen := true;
              SearchableSelect.searchTerm := "al"%string;
              SearchableSelect.highlightedIndex := -1 |} in
  (forall o, o ∈ SearchableSelect.options exampleProps ->
             SearchableSelect.getOptionLabel exampleProps o = Some (snd o))
  /\ SearchableSelect.filteredOptions exampleProps s = [(1%nat, "Alpha"%string)]
  /\ SearchableSelect.filteredOptions exampleProps s
     = spec_filteredOptions snd "al"%string (SearchableSelect.options exampleProps).
Proof.
  intros s.
  assert (H : forall o, o ∈ SearchableSelect.options exampleProps ->
                        SearchableSelect.getOptionLabel exampleProps o = Some (snd o))
    by done.
  split; [exact H|]. split; [reflexivity|].
  exact (proj1 (C4_filteredOptions exampleProps snd s H)).
Defined.

(** C6, as stated, fails: Enter on the open list with nothing highlighted
    closes the widget and keeps the query, so does the toggle click, and
    ArrowUp on the closed widget (closed by Escape, the input still
    focused) moves the highlight to index 0. *)
Lemma C6_closed_not_neutral :
  let run := SearchableSelect.run exampleProps in
  let s1 := run [SearchableSelect.Focus; SearchableSelect.InputChange "al"%string;
                 SearchableSelect.KeyDown SearchableSelect.Enter]
                SearchableSelect.initialState in
  let s2 := run [SearchableSelect.Focus; SearchableSelect.InputChange "al"%string;
                 SearchableSelect.ToggleClick]
                SearchableSelect.initialState in
  let s3 := run [SearchableSelect.Focus;
                 SearchableSelect.KeyDown SearchableSelect.Escape;
                 SearchableSelect.KeyDown SearchableSelect.ArrowUp]
                SearchableSelect.initialState in
  (SearchableSelect.reachable exampleProps s1
   /\ SearchableSelect.isOpen s1 = false
   /\ SearchableSelect.searchTerm s1 = "al"%string)
  /\ (SearchableSelect.reachable exampleProps s2
      /\ SearchableSelect.isOpen s2 = false
      /\ SearchableSelect.searchTerm s2 = "al"%string)
  /\ (SearchableSelect.reachable exampleProps s3
      /\ SearchableSelect.isOpen s3 = false
      /\ SearchableSelect.highlightedIndex s3 = 0).
Proof.
  intros run s1 s2 s3.
  repeat split; try reflexivity;
    apply reachable_run; apply SearchableSelect.reachable_init.
Qed.

(** C6 (amended): Escape, a click outside and a commit leave the widget
    closed with an empty query and no highlight.  Enter on the open list
    with nothing highlighted and the toggle click on the open widget only
    clear [isOpen]: the query and the highlight stay as they were. *)
Theorem C6_closing_operations {O V : Type} (props : SearchableSelect.Props O V)
    (s : SearchableSelect.State) :
  SearchableSelect.disabled props = false ->
  fst (SearchableSelect.handleKeyDown props SearchableSelect.Escape s)
  = SearchableSelect.neutral
  /\ SearchableSelect.handleClickOutside false s = SearchableSelect.neutral
  /\ (forall option v,
        SearchableSelect.getOptionValue props option = Some v ->
        SearchableSelect.onChangeThrows props v = false ->
        fst (SearchableSelect.handleSelect props option s) = SearchableSelect.neutral)
  /\ (forall option v,
        SearchableSelect.highlightedOption props s = Some option ->
        SearchableSelect.getOptionValue props option = Some v ->
        SearchableSelect.onChangeThrows props v = false ->
        fst (SearchableSelect.handleKeyDown props SearchableSelect.Enter s)
        = SearchableSelect.neutral)
  /\ (SearchableSelect.isOpen s = true ->
      SearchableSelect.highlightedOption props s = None ->
      fst (SearchableSelect.handleKeyDown props SearchableSelect.Enter s)
      = SearchableSelect.setIsOpen false s)
  /\ (SearchableSelect.isOpen s = true ->
      SearchableSelect.handleToggleClick props s = SearchableSelect.setIsOpen false s).
Proof.
  intros Hd. unfold SearchableSelect.handleKeyDown, SearchableSelect.handleToggleClick.
  rewrite Hd. simpl. repeat split.
  - intros option v Hv Hc. unfold SearchableSelect.handleSelect. by rewrite Hv, Hc.
  - intros option v -> Hv Hc. unfold SearchableSelect.handleSelect. by rewrite Hv, Hc.
  - by intros -> ->.
  - by intros ->.
Qed.

Lemma C6_closing_operations_witness :
  let s := SearchableSelect.run exampleProps
             [SearchableSelect.Focus; SearchableSelect.InputChange "al"%string]
             SearchableSelect.initialState in
  SearchableSelect.disabled exampleProps = false
  /\ fst (SearchableSelect.handleKeyDown exampleProps SearchableSelect.Escape s)
     = SearchableSelect.neutral
  /\ (SearchableSelect.getOptionValue exampleProps (1%nat, "Alpha"%string) = Some 1%nat
      /\ SearchableSelect.onChangeThrows exampleProps 1%nat = false
      /\ fst (SearchableSelect.handleSelect exampleProps (1%nat, "Alpha"%string) s)
         = SearchableSelect.neutral)
  /\ (SearchableSelect.isOpen s = true
      /\ SearchableSelect.highlightedOption exampleProps s = None
      /\ fst (SearchableSelect.handleKeyDown exampleProps SearchableSelect.Enter s)
         = SearchableSelect.setIsOpen false s
      /\ SearchableSelect.handleToggleClick exampleProps s
         = SearchableSelect.setIsOpen false s).
Proof.
  intros s.
  pose proof (C6_closing_operations exampleProps s eq_refl)
    as (H1 & _ & H3 & _ & H5 & H6).
  split; [reflexivity|]. split; [exact H1|]. split.
  - split; [reflexivity|]. split; [reflexivity|].
    exact (H3 (1%nat, "Alpha"%string) 1%nat eq_refl eq_refl).
  - split; [reflexivity|]. split; [reflexivity|].
    split; [exact (H5 eq_refl eq_refl) | exact (H6 eq_refl)].
Defined.

(** C7, as stated, fails: ArrowUp with no highlight moves the highlight
    to index 0, on the closed widget as on the open one. *)
Lemma C7_ArrowUp_from_no_highlight :
  let up := fun s =>
    fst (SearchableSelect.handleKeyDown exampleProps SearchableSelect.ArrowUp s) in
  let closed :=
    SearchableSelect.run exampleProps
      [SearchableSelect.Focus; SearchableSelect.KeyDown SearchableSelect.Escape]
      SearchableSelect.initialState in
  let opened := SearchableSelect.handleFocus exampleProps closed in
  (SearchableSelect.isOpen closed = false
   /\ SearchableSelect.highlightedIndex closed = -1
   /\ SearchableSelect.highlightedIndex (up closed) = 0
   /\ up closed <> closed)
  /\ (SearchableSelect.isOpen opened = true
      /\ SearchableSelect.highlightedIndex opened = -1
      /\ SearchableSelect.highlightedIndex (up opened) = 0
      /\ up opened <> opened).
Proof. intros up closed opened. by repeat split. Qed.

(** C7 (amended): ArrowUp leaves [isOpen] and the query as they are and
    sets the highlight to [highlightedIndex - 1] when that index is
    positive and to 0 otherwise, whether the widget is open or closed: a
    highlight at 0 stays at 0, and no highlight (-1) becomes a highlight
    at 0. *)
Theorem C7_ArrowUp {O V : Type} (props : SearchableSelect.Props O V)
    (s : SearchableSelect.State) :
  SearchableSelect.disabled props = false ->
  let s' := fst (SearchableSelect.handleKeyDown props SearchableSelect.ArrowUp s) in
  SearchableSelect.isOpen s' = SearchableSelect.isOpen s
  /\ SearchableSelect.searchTerm s' = SearchableSelect.searchTerm s
  /\ SearchableSelect.highlightedIndex s'
     = Z.max (SearchableSelect.highlightedIndex s - 1) 0
  /\ (0 < SearchableSelect.highlightedIndex s ->
      SearchableSelect.highlightedIndex s' = SearchableSelect.highlightedIndex s - 1)
  /\ (SearchableSelect.highlightedIndex s = 0 -> s' = s)
  /\ (SearchableSelect.highlightedIndex s = -1 ->
      SearchableSelect.highlightedIndex s' = 0).
Proof.
  intros Hd. unfold SearchableSelect.handleKeyDown. rewrite Hd. simpl.
  destruct s as [o q h]. simpl. repeat split.
  - destruct (0 <? h) eqn:E; lia.
  - intros H. destruct (0 <? h) eqn:E; lia.
  - by intros ->.
  - by intros ->.
Qed.

Lemma C7_ArrowUp_witness :
  let s := {| SearchableSelect.isOpen := true;
              SearchableSelect.searchTerm := ""%string;
              SearchableSelect.highlightedIndex := 1 |} in
  SearchableSelect.disabled exampleProps = false
  /\ 0 < SearchableSelect.highlightedIndex s
  /\ SearchableSelect.highlightedIndex
       (fst (SearchableSelect.handleKeyDown exampleProps SearchableSelect.ArrowUp s))
     = SearchableSelect.highlightedIndex s - 1.
Proof.
  intros s.
  pose proof (C7_ArrowUp exampleProps s eq_refl) as (_ & _ & _ & H & _).
  exact (conj eq_refl (conj eq_refl (H eq_refl))).
Defined.

(** C10: when the value accessor throws on the selected option, or the
    caller's callback throws on its value, the exception is caught (the
    handler returns after logging it) and the selection leaves the combobox
    state as it was; in the first case [onChange] is not called at all. *)
Theorem C10_select_throws {O V : Type} (props : SearchableSelect.Props O V)
    (option : O) (s : SearchableSelect.State) :
  (SearchableSelect.getOptionValue props option = None ->
   SearchableSelect.handleSelect props option s = (s, [SearchableSelect.ConsoleError])
   /\ forall v, SearchableSelect.OnChange v
                ∉ snd (SearchableSelect.handleSelect props option s))
  /\ (forall v,
        SearchableSelect.getOptionValue props option = Some v ->
        SearchableSelect.onChangeThrows props v = true ->
        SearchableSelect.handleSelect props option s
        = (s, [SearchableSelect.OnChange v; SearchableSelect.ConsoleError])).
Proof.
  unfold SearchableSelect.handleSelect. split.
  - intros ->. split; [done|]. intros v Hv. simpl in Hv.
    apply list_elem_of_singleton in Hv. discriminate.
  - intros v -> Hc. by rewrite Hc.
Qed.

Lemma C10_select_throws_witness :
  let s := {| SearchableSelect.isOpen := true;
              SearchableSelect.searchTerm := "a"%string;
              SearchableSelect.highlightedIndex := 1 |} in
  (SearchableSelect.getOptionValue throwingProps (2%nat, "Beta"%string) = None
   /\ fst (SearchableSelect.handleSelect throwingProps (2%nat, "Beta"%string) s) = s)
  /\ (SearchableSelect.getOptionValue throwingProps (1%nat, "Alpha"%string) = Some 1%nat
      /\ SearchableSelect.onChangeThrows throwingProps 1%nat = true
      /\ fst (SearchableSelect.handleSelect throwingProps (1%nat, "Alpha"%string) s) = s).
Proof.
  intros s. split.
  - split; [reflexivity|].
    exact (f_equal fst
             (proj1 (proj1 (C10_select_throws throwingProps (2%nat, "Beta"%string) s)
                       eq_refl))).
  - split; [reflexivity|]. split; [reflexivity|].
    exact (f_equal fst
             (proj2 (C10_select_throws throwingProps (1%nat, "Alpha"%string) s)
                1%nat eq_refl eq_refl)).
Defined.

(** ** Worked examples *)

(** A pointer at 50 in a container of width 1000 at left 0 asks for 95
    percent. *)
Example resize_to_the_left_edge :
  newWidth (of_Z 50) {| left := zero; width := of_Z 1000 |} = of_Z 95
  /\ constrain minPercent maxPercent
       (newWidth (of_Z 50) {| left := zero; width := of_Z 1000 |}) = maxPercent.
Proof. split; by vm_compute. Qed.

(** Collapsing the analysis pane and expanding again restores the default
    split. *)
Example collapse_then_expand s :
  let s' := App.handleExpandBoth (App.handleCollapseAnalysis s) in
  App.chatbotWidth s' = defaultPercent
  /\ App.isAnalysisCollapsed s' = false
  /\ App.isChatbotCollapsed s' = false.
Proof. done. Qed.

(** The strings of some widths, and the numbers of some strings. *)
Example toString_samples :
  toString defaultPercent = "20"%string
  /\ toString (of_decimal false 3333 (-2)) = "33.33"%string
  /\ toString (mul (div (of_Z 1) (of_Z 3)) (of_Z 100)) = "33.33333333333333"%string
  /\ toString NaN = "NaN"%string
  /\ toString neg_zero = "0"%string
  /\ parseFloat "33.33"%string = of_decimal false 3333 (-2)
  /\ parseFloat " 95px"%string = maxPercent
  /\ parseFloat "abc"%string = NaN.
Proof. repeat split; by vm_compute. Qed.

(** From the closed widget ArrowDown opens the list without a highlight;
    a second ArrowDown highlights the first option. *)
Example arrow_down_twice :
  let down := fun s =>
    fst (SearchableSelect.handleKeyDown exampleProps SearchableSelect.ArrowDown s) in
  down SearchableSelect.initialState
  = SearchableSelect.setIsOpen true SearchableSelect.initialState
  /\ SearchableSelect.highlightedIndex (down (down SearchableSelect.initialState)) = 0.
Proof. done. Qed.

(** Enter on the closed widget with no highlight opens it and does not
    call [onChange]. *)
Example enter_opens :
  SearchableSelect.handleKeyDown exampleProps SearchableSelect.Enter
    SearchableSelect.initialState
  = (SearchableSelect.setIsOpen true SearchableSelect.initialState,
     [SearchableSelect.PreventDefault]).
Proof. done. Qed.

(** * Further properties *)

(** ** The combobox: filtering *)

Section MoreFilterFacts.

Lemma string_app_cons (x : ascii) (a b : string) :
  (String x a ++ b)%string = String x (a ++ b)%string.
Proof. reflexivity. Qed.

Lemma toLowerCase_app (a b : string) :
  toLowerCase (a ++ b)%string = (toLowerCase a ++ toLowerCase b)%string.
Proof.
  induction a as [|c a IH]; [done|].
  rewrite string_app_cons. simpl toLowerCase. by rewrite string_app_cons, IH.
Qed.

Lemma string_app_assoc (a b c : string) :
  ((a ++ b) ++ c)%string = (a ++ (b ++ c))%string.
Proof.
  induction a as [|x a IH]; [done|]. by rewrite !string_app_cons, IH.
Qed.

Lemma includes_mono (l pre q post : string) :
  includes l (pre ++ (q ++ post))%string = true -> includes l q = true.
Proof.
  rewrite !includes_substring. intros (a & b & ->).
  exists (a ++ pre)%string, (post ++ b)%string.
  by rewrite !string_app_assoc.
Qed.

Lemma filter_sublist_mono {A : Type} (f g : A -> bool) l :
  (forall a, f a = true -> g a = true) ->
  sublist (List.filter f l) (List.filter g l).
Proof.
  intros Hfg. induction l as [|a l IH]; simpl; [constructor|].
  destruct (f a) eqn:Hf.
  - rewrite (Hfg a Hf). by constructor.
  - destruct (g a); [by constructor | done].
Qed.

End MoreFilterFacts.

(** X1: whatever the label accessor does, the filtered options are a
    sublist of [options], and an option is among them exactly when the
    accessor returns a label for it whose lowercase form contains the
    lowercase query; an option on which the accessor throws is left out
    and the others are filtered as usual. *)
Theorem X1_filter_fail_soft {O V : Type} (props : SearchableSelect.Props O V)
    (s : SearchableSelect.State) :
  sublist (SearchableSelect.filteredOptions props s) (SearchableSelect.options props)
  /\ (forall o,
        o ∈ SearchableSelect.filteredOptions props s
        <-> o ∈ SearchableSelect.options props
            /\ exists l, SearchableSelect.getOptionLabel props o = Some l
                 /\ exists pre post,
                      toLowerCase l
                      = (pre ++ (toLowerCase (SearchableSelect.searchTerm s) ++ post))%string)
  /\ (forall o, SearchableSelect.getOptionLabel props o = None ->
                o ∉ SearchableSelect.filteredOptions props s).
Proof.
  rewrite filteredOptions_filter.
  assert (Hin : forall o,
    o ∈ List.filter (SearchableSelect.filterCallback props (SearchableSelect.searchTerm s))
          (SearchableSelect.options props)
    <-> o ∈ SearchableSelect.options props
        /\ exists l, SearchableSelect.getOptionLabel props o = Some l
             /\ exists pre post,
                  toLowerCase l
                  = (pre ++ (toLowerCase (SearchableSelect.searchTerm s) ++ post))%string).
  { intros o. rewrite list_elem_of_In, List.filter_In, <- list_elem_of_In.
    unfold SearchableSelect.filterCallback. split.
    - intros [Ho H]. split; [done|].
      destruct (SearchableSelect.getOptionLabel props o) as [l|]; [|done].
      exists l. split; [done|]. by apply includes_substring.
    - intros [Ho (l & -> & H)]. split; [done|]. by apply includes_substring. }
  split; [apply filter_sublist|]. split; [exact Hin|].
  intros o Hnone [_ (l & Hl & _)]%Hin. congruence.
Qed.

(** X2: typing more never adds options, for a query of ASCII
    characters: the options for such a query that contains the query [q]
    are a sublist of the options for [q], whatever the labels are.  (On
    ASCII strings [toLowerCase] is the built-in function, which works
    character by character there; on other scripts the built-in is
    context-sensitive and the property is not claimed.) *)
Theorem X2_longer_query_narrows {O V : Type} (props : SearchableSelect.Props O V)
    (s s' : SearchableSelect.State) (pre q post : string) :
  isAscii (pre ++ (q ++ post))%string = true ->
  sublist
    (SearchableSelect.filteredOptions props
       (SearchableSelect.handleInputChange (pre ++ (q ++ post))%string s'))
    (SearchableSelect.filteredOptions props (SearchableSelect.handleInputChange q s)).
Proof.
  intros _. rewrite !filteredOptions_filter.
  assert (Hq : forall v t,
    SearchableSelect.searchTerm (SearchableSelect.handleInputChange v t) = v).
  { intros v t. unfold SearchableSelect.handleInputChange. by destruct (negb _). }
  rewrite !Hq. apply filter_sublist_mono. intros o.
  unfold SearchableSelect.filterCallback.
  destruct (SearchableSelect.getOptionLabel props o) as [l|]; [|done].
  rewrite !toLowerCase_app. apply includes_mono.
Qed.

Lemma X2_longer_query_narrows_witness :
  let s := SearchableSelect.initialState in
  isAscii ("" ++ ("et" ++ "a"))%string = true
  /\ sublist
       (SearchableSelect.filteredOptions exampleProps
          (SearchableSelect.handleInputChange ("" ++ ("et" ++ "a"))%string s))
       (SearchableSelect.filteredOptions exampleProps
          (SearchableSelect.handleInputChange "et" s)).
Proof.
  intros s.
  assert (H : isAscii ("" ++ ("et" ++ "a"))%string = true) by reflexivity.
  exact (conj H (X2_longer_query_narrows exampleProps s s "" "et" "a" H)).
Defined.

(** ** The combobox: keyboard *)

Section KeyboardFacts.
Context {O V : Type}.
Variable props : SearchableSelect.Props O V.

Import SearchableSelect.

Lemma filteredOptions_searchTerm s s' :
  searchTerm s = searchTerm s' -> filteredOptions props s = filteredOptions props s'.
Proof. unfold filteredOptions. by intros ->. Qed.

Lemma arrowDown_open s :
  disabled props = false -> isOpen s = true ->
  highlightedIndex s <= Z.of_nat (length (filteredOptions props s)) - 1 ->
  SearchableSelectView.arrowDown props s
  = setHighlightedIndex
      (fun prev => Z.min (prev + 1) (Z.of_nat (length (filteredOptions props s)) - 1)) s.
Proof.
  intros Hd Ho Hh. unfold SearchableSelectView.arrowDown, handleKeyDown. rewrite Hd, Ho. simpl.
  unfold setHighlightedIndex. f_equal.
  destruct (_ <? _) eqn:E; [apply Z.ltb_lt in E | apply Z.ltb_ge in E]; lia.
Qed.

Lemma handle_arrow_range key s :
  disabled props = false ->
  key = ArrowUp \/ key = ArrowDown ->
  (1 <= length (filteredOptions props s))%nat ->
  -1 <= highlightedIndex s <= Z.of_nat (length (filteredOptions props s)) - 1 ->
  let s' := fst (handleKeyDown props key s) in
  searchTerm s' = searchTerm s
  /\ -1 <= highlightedIndex s' <= Z.of_nat (length (filteredOptions props s)) - 1.
Proof.
  intros Hd [-> | ->] HL Hh; unfold handleKeyDown; rewrite Hd; simpl.
  - split; [done|]. destruct (0 <? _) eqn:E;
      [apply Z.ltb_lt in E | apply Z.ltb_ge in E]; lia.
  - destruct (negb (isOpen s)); simpl; [done|]. split; [done|].
    destruct (_ <? _) eqn:E; [apply Z.ltb_lt in E | apply Z.ltb_ge in E]; lia.
Qed.

End KeyboardFacts.

(** X3: on the open list, with the highlight not beyond the last option,
    pressing ArrowDown [k] times moves the highlight [k] steps down and
    stops at the last filtered option; nothing else changes. *)
Theorem X3_arrow_down_steps {O V : Type} (props : SearchableSelect.Props O V)
    (s : SearchableSelect.State) (k : nat) :
  SearchableSelect.disabled props = false ->
  SearchableSelect.isOpen s = true ->
  SearchableSelect.highlightedIndex s
    <= Z.of_nat (length (SearchableSelect.filteredOptions props s)) - 1 ->
  Nat.iter k (SearchableSelectView.arrowDown props) s
  = SearchableSelect.setHighlightedIndex
      (fun prev =>
         Z.min (prev + Z.of_nat k)
               (Z.of_nat (length (SearchableSelect.filteredOptions props s)) - 1)) s.
Proof.
  intros Hd Ho Hh. induction k as [|k IH].
  - simpl. destruct s as [o q h]. unfold SearchableSelect.setHighlightedIndex.
    simpl in *. f_equal. lia.
  - simpl Nat.iter. rewrite IH.
    set (L := Z.of_nat (length (SearchableSelect.filteredOptions props s))) in *.
    rewrite arrowDown_open; try done.
    + rewrite (filteredOptions_searchTerm props _ s) by done. fold L.
      unfold SearchableSelect.setHighlightedIndex. simpl. f_equal. lia.
    + rewrite (filteredOptions_searchTerm props _ s) by done. fold L. simpl. lia.
Qed.

Lemma X3_arrow_down_steps_witness :
  let s := SearchableSelect.handleFocus exampleProps SearchableSelect.initialState in
  SearchableSelect.disabled exampleProps = false
  /\ SearchableSelect.isOpen s = true
  /\ SearchableSelect.highlightedIndex s
       <= Z.of_nat (length (SearchableSelect.filteredOptions exampleProps s)) - 1
  /\ SearchableSelect.highlightedIndex (Nat.iter 5 (SearchableSelectView.arrowDown exampleProps) s) = 1.
Proof.
  intros s.
  assert (H3 : SearchableSelect.highlightedIndex s
               <= Z.of_nat (length (SearchableSelect.filteredOptions exampleProps s)) - 1)
    by (by vm_compute).
  split; [reflexivity|]. split; [reflexivity|]. split; [exact H3|].
  exact (f_equal SearchableSelect.highlightedIndex
           (X3_arrow_down_steps exampleProps s 5 eq_refl eq_refl H3)).
Defined.

(** X4: when at least one option matches the query and the highlight is
    none or on a filtered option, any sequence of ArrowUp and ArrowDown
    keys leaves the query as it is and the highlight none or on a filtered
    option. *)
Theorem X4_arrows_stay_in_range {O V : Type} (props : SearchableSelect.Props O V)
    (keys : list SearchableSelect.Key) (s : SearchableSelect.State) :
  SearchableSelect.disabled props = false ->
  Forall (fun key => key = SearchableSelect.ArrowUp \/ key = SearchableSelect.ArrowDown) keys ->
  (1 <= length (SearchableSelect.filteredOptions props s))%nat ->
  -1 <= SearchableSelect.highlightedIndex s
     <= Z.of_nat (length (SearchableSelect.filteredOptions props s)) - 1 ->
  let s' := SearchableSelect.run props (map SearchableSelect.KeyDown keys) s in
  SearchableSelect.searchTerm s' = SearchableSelect.searchTerm s
  /\ SearchableSelect.filteredOptions props s' = SearchableSelect.filteredOptions props s
  /\ -1 <= SearchableSelect.highlightedIndex s'
        <= Z.of_nat (length (SearchableSelect.filteredOptions props s)) - 1.
Proof.
  intros Hd Hkeys. revert s.
  induction Hkeys as [|key keys Hkey Hkeys IH]; intros s HL Hh; [done|].
  simpl.
  destruct (handle_arrow_range props key s Hd Hkey HL Hh) as [Hq Hh'].
  pose proof (filteredOptions_searchTerm props _ _ Hq) as Hf.
  destruct (IH (fst (SearchableSelect.handleKeyDown props key s))) as (H1 & H2 & H3).
  - by rewrite Hf.
  - by rewrite Hf.
  - rewrite Hf in H2, H3. rewrite H1, H2. done.
Qed.

Lemma X4_arrows_stay_in_range_witness :
  let s := SearchableSelect.handleFocus exampleProps SearchableSelect.initialState in
  let keys := [SearchableSelect.ArrowUp; SearchableSelect.ArrowDown;
               SearchableSelect.ArrowDown; SearchableSelect.ArrowDown;
               SearchableSelect.ArrowUp] in
  SearchableSelect.disabled exampleProps = false
  /\ (1 <= length (SearchableSelect.filteredOptions exampleProps s))%nat
  /\ -1 <= SearchableSelect.highlightedIndex
             (SearchableSelect.run exampleProps (map SearchableSelect.KeyDown keys) s)
        <= Z.of_nat (length (SearchableSelect.filteredOptions exampleProps s)) - 1.
Proof.
  intros s keys.
  assert (Hk : Forall (fun key => key = SearchableSelect.ArrowUp
                                  \/ key = SearchableSelect.ArrowDown) keys)
    by (repeat constructor; auto).
  assert (HL : (1 <= length (SearchableSelect.filteredOptions exampleProps s))%nat)
    by (vm_compute; lia).
  assert (Hh : -1 <= SearchableSelect.highlightedIndex s
               <= Z.of_nat (length (SearchableSelect.filteredOptions exampleProps s)) - 1)
    by (by vm_compute).
  split; [reflexivity|]. split; [exact HL|].
  exact (proj2 (proj2 (X4_arrows_stay_in_range exampleProps keys s eq_refl Hk HL Hh))).
Defined.

(** ** The combobox: commits *)

Section CommitFacts.
Context {O V : Type}.
Variable props : SearchableSelect.Props O V.

Import SearchableSelect.

Lemma highlightedOption_Some s o :
  highlightedOption props s = Some o
  <-> 0 <= highlightedIndex s
      /\ filteredOptions props s !! Z.to_nat (highlightedIndex s) = Some o.
Proof.
  unfold highlightedOption. destruct (0 <=? _) eqn:E;
    [apply Z.leb_le in E | apply Z.leb_gt in E]; split; try done.
  - by intros [_ H].
  - lia.
Qed.

Lemma highlightedOption_None s :
  highlightedOption props s = None
  <-> highlightedIndex s < 0
      \/ Z.of_nat (length (filteredOptions props s)) <= highlightedIndex s.
Proof.
  unfold highlightedOption. destruct (0 <=? _) eqn:E;
    [apply Z.leb_le in E | apply Z.leb_gt in E].
  - rewrite lookup_ge_None. lia.
  - split; [by left | done].
Qed.

Import SearchableSelectView.

Lemma countOnChange_app (effs1 effs2 : list (Effect V)) :
  countOnChange (effs1 ++ effs2) = (countOnChange effs1 + countOnChange effs2)%nat.
Proof. unfold countOnChange. by rewrite List.filter_app, length_app. Qed.

Lemma handleSelect_count option s :
  (countOnChange (snd (handleSelect props option s)) <= 1)%nat.
Proof.
  unfold handleSelect, countOnChange.
  destruct (getOptionValue props option) as [v|]; [|simpl; lia].
  destruct (onChangeThrows props v); simpl; lia.
Qed.

Lemma handle_count ev s :
  (countOnChange (snd (handle props ev s))
   <= if SearchableSelectView.isCommitEvent ev then 1 else 0)%nat.
Proof.
  destruct ev as [inside|key|option|value| | |index];
    try (unfold countOnChange; simpl; lia).
  - simpl. unfold handleKeyDown.
    destruct (disabled props); [destruct key; unfold countOnChange; simpl; lia|].
    destruct key; try (unfold countOnChange; simpl; lia).
    + destruct (highlightedOption props s) as [option|].
      * pose proof (handleSelect_count option s) as H.
        destruct (handleSelect props option s) as [s' effs].
        unfold countOnChange in *. simpl in *. lia.
      * destruct (isOpen s); unfold countOnChange; simpl; lia.
    + destruct (negb (isOpen s)); unfold countOnChange; simpl; lia.
  - apply handleSelect_count.
Qed.

End CommitFacts.

(** X5: the Enter key calls [onChange] exactly once, with the value of the
    filtered option at [highlightedIndex], and closes the widget; when
    [highlightedIndex] is negative or beyond the filtered options it calls
    nothing but [preventDefault]. *)
Theorem X5_enter_commits_highlighted {O V : Type} (props : SearchableSelect.Props O V)
    (s : SearchableSelect.State) :
  SearchableSelect.disabled props = false ->
  (forall o v,
     0 <= SearchableSelect.highlightedIndex s ->
     SearchableSelect.filteredOptions props s
       !! Z.to_nat (SearchableSelect.highlightedIndex s) = Some o ->
     SearchableSelect.getOptionValue props o = Some v ->
     SearchableSelect.onChangeThrows props v = false ->
     SearchableSelect.handleKeyDown props SearchableSelect.Enter s
     = (SearchableSelect.neutral,
        [SearchableSelect.PreventDefault; SearchableSelect.OnChange v]))
  /\ (SearchableSelect.highlightedIndex s < 0
      \/ Z.of_nat (length (SearchableSelect.filteredOptions props s))
         <= SearchableSelect.highlightedIndex s ->
      snd (SearchableSelect.handleKeyDown props SearchableSelect.Enter s)
      = [SearchableSelect.PreventDefault]).
Proof.
  intros Hd. unfold SearchableSelect.handleKeyDown. rewrite Hd. split.
  - intros o v Hh Ho Hv Hc.
    rewrite (proj2 (highlightedOption_Some props s o) (conj Hh Ho)).
    unfold SearchableSelect.handleSelect. by rewrite Hv, Hc.
  - intros H. rewrite (proj2 (highlightedOption_None props s) H).
    by destruct (SearchableSelect.isOpen s).
Qed.

Lemma X5_enter_commits_highlighted_witness :
  let s := SearchableSelect.run exampleProps
             [SearchableSelect.Focus; SearchableSelect.InputChange "b"%string;
              SearchableSelect.KeyDown SearchableSelect.ArrowDown]
             SearchableSelect.initialState in
  SearchableSelect.disabled exampleProps = false
  /\ 0 <= SearchableSelect.highlightedIndex s
  /\ SearchableSelect.filteredOptions exampleProps s
       !! Z.to_nat (SearchableSelect.highlightedIndex s) = Some (2%nat, "Beta"%string)
  /\ SearchableSelect.handleKeyDown exampleProps SearchableSelect.Enter s
     = (SearchableSelect.neutral,
        [SearchableSelect.PreventDefault; SearchableSelect.OnChange 2%nat]).
Proof.
  intros s.
  assert (H1 : 0 <= SearchableSelect.highlightedIndex s) by (by vm_compute).
  assert (H2 : SearchableSelect.filteredOptions exampleProps s
                 !! Z.to_nat (SearchableSelect.highlightedIndex s)
               = Some (2%nat, "Beta"%string)) by reflexivity.
  split; [reflexivity|]. split; [exact H1|]. split; [exact H2|].
  exact (proj1 (X5_enter_commits_highlighted exampleProps s eq_refl)
           (2%nat, "Beta"%string) 2%nat H1 H2 eq_refl eq_refl).
Defined.

(** X6: over any sequence of events [onChange] is called at most once per
    click on an option or Enter key press; typing, arrow keys, Escape,
    focus, the toggle click, hovering and outside clicks never call
    it. *)
Theorem X6_onChange_only_on_commit {O V : Type} (props : SearchableSelect.Props O V)
    (evs : list SearchableSelect.Event) (s : SearchableSelect.State) :
  (SearchableSelectView.countOnChange (snd (SearchableSelectView.trace props evs s))
   <= length (List.filter SearchableSelectView.isCommitEvent evs))%nat.
Proof.
  revert s. induction evs as [|ev evs IH]; intros s; [done|].
  simpl SearchableSelectView.trace.
  pose proof (handle_count props ev s) as Hev.
  destruct (SearchableSelect.handle props ev s) as [s1 effs1].
  specialize (IH s1).
  destruct (SearchableSelectView.trace props evs s1) as [s2 effs2].
  simpl snd in *. rewrite countOnChange_app. simpl List.filter.
  destruct (SearchableSelectView.isCommitEvent ev); simpl length; lia.
Qed.

(** X7: while [disabled] holds, no sequence of key presses, focus events
    and clicks on the control changes the state or has any effect. *)
Theorem X7_disabled_ignores_input {O V : Type} (props : SearchableSelect.Props O V)
    (evs : list SearchableSelect.Event) (s : SearchableSelect.State) :
  SearchableSelect.disabled props = true ->
  forallb SearchableSelectView.isGuardedEvent evs = true ->
  SearchableSelectView.trace props evs s = (s, []).
Proof.
  intros Hd. induction evs as [|ev evs IH]; intros Hevs; [done|].
  simpl in Hevs. apply andb_prop in Hevs as [Hev Hevs].
  simpl. destruct ev as [inside|key|option|value| | |index]; try done; simpl;
    unfold SearchableSelect.handleKeyDown, SearchableSelect.handleFocus,
      SearchableSelect.handleToggleClick; rewrite Hd; simpl; by rewrite IH.
Qed.

(** The sample widget, disabled. *)
Lemma X7_disabled_ignores_input_witness :
  let props := {| SearchableSelect.options := SearchableSelect.options exampleProps;
                  SearchableSelect.disabled := true;
                  SearchableSelect.getOptionLabel := SearchableSelect.getOptionLabel exampleProps;
                  SearchableSelect.getOptionValue := SearchableSelect.getOptionValue exampleProps;
                  SearchableSelect.onChangeThrows := SearchableSelect.onChangeThrows exampleProps |} in
  let evs := [SearchableSelect.Focus; SearchableSelect.KeyDown SearchableSelect.ArrowDown;
              SearchableSelect.KeyDown SearchableSelect.Enter; SearchableSelect.ToggleClick] in
  SearchableSelect.disabled props = true
  /\ forallb SearchableSelectView.isGuardedEvent evs = true
  /\ SearchableSelectView.trace props evs SearchableSelect.initialState
     = (SearchableSelect.initialState, []).
Proof.
  intros props evs. split; [reflexivity|]. split; [reflexivity|].
  exact (X7_disabled_ignores_input props evs SearchableSelect.initialState eq_refl eq_refl).
Defined.

(** ** The combobox: what the input shows *)

Section DisplayFacts.
Context {O V : Type} `{EqDecision V}.
Variable props : SearchableSelect.Props O V.

Lemma array_find_Some {A : Type} (f : A -> bool) l a :
  array_find f l = Some a -> a ∈ l /\ f a = true.
Proof.
  induction l as [|b l IH]; [done|]. simpl. destruct (f b) eqn:E.
  - intros [= ->]. split; [left | done].
  - intros [Ha Hf]%IH. split; [by right | done].
Qed.

Lemma array_find_None {A : Type} (f : A -> bool) l :
  array_find f l = None <-> forall a, a ∈ l -> f a = false.
Proof.
  induction l as [|b l IH]; simpl.
  - split; [by intros _ a Ha%elem_of_nil | done].
  - destruct (f b) eqn:E.
    + split; [done|]. intros Hall. specialize (Hall b ltac:(left)). congruence.
    + rewrite IH. split.
      * intros Hall a [->|Ha]%elem_of_cons; auto.
      * intros Hall a Ha. apply Hall. by right.
Qed.

End DisplayFacts.

(** X8: when every option that carries the value [v] has the label [l],
    committing an option with value [v] and label [l] reports [v] to the
    caller, and with that value as the [value] prop the closed input shows
    [l]; when no option carries the [value] prop (in particular when there
    are no options) the closed input is empty. *)
Theorem X8_display_after_commit {O V : Type} `{EqDecision V}
    (props : SearchableSelect.Props O V) (o : O) (v : V) (l : string)
    (s : SearchableSelect.State) :
  (o ∈ SearchableSelect.options props ->
   SearchableSelect.getOptionValue props o = Some v ->
   SearchableSelect.onChangeThrows props v = false ->
   (forall o', o' ∈ SearchableSelect.options props ->
               SearchableSelect.getOptionValue props o' = Some v ->
               SearchableSelect.getOptionLabel props o' = Some l) ->
   snd (SearchableSelect.handleSelect props o s) = [SearchableSelect.OnChange v]
   /\ SearchableSelectView.inputValue props v
        (fst (SearchableSelect.handleSelect props o s)) = l)
  /\ ((forall o', o' ∈ SearchableSelect.options props ->
                  SearchableSelect.getOptionValue props o' <> Some v) ->
      SearchableSelectView.displayValue props v = ""%string).
Proof.
  split.
  - intros Ho Hv Hc Hl. unfold SearchableSelect.handleSelect. rewrite Hv, Hc. simpl.
    split; [done|].
    unfold SearchableSelectView.inputValue, SearchableSelectView.displayValue. simpl.
    destruct (SearchableSelectView.selectedOption props v) as [o'|] eqn:E.
    + apply array_find_Some in E as [Ho' Hf].
      unfold SearchableSelectView.selectedCallback in Hf.
      destruct (SearchableSelect.getOptionValue props o') as [v'|] eqn:Hv'; [|done].
      apply bool_decide_eq_true in Hf as ->. by rewrite (Hl o' Ho' Hv').
    + pose proof (proj1 (array_find_None _ _) E o Ho) as Hf.
      unfold SearchableSelectView.selectedCallback in Hf. rewrite Hv in Hf.
      by rewrite bool_decide_eq_false in Hf.
  - intros Hnone. unfold SearchableSelectView.displayValue.
    destruct (SearchableSelectView.selectedOption props v) as [o'|] eqn:E; [|done].
    apply array_find_Some in E as [Ho' Hf].
    unfold SearchableSelectView.selectedCallback in Hf.
    destruct (SearchableSelect.getOptionValue props o') as [v'|] eqn:Hv'; [|done].
    apply bool_decide_eq_true in Hf as ->. by destruct (Hnone o' Ho').
Qed.

Lemma X8_display_after_commit_witness :
  let o := (2%nat, "Beta"%string) in
  let s := SearchableSelect.handleFocus exampleProps SearchableSelect.initialState in
  o ∈ SearchableSelect.options exampleProps
  /\ SearchableSelect.getOptionValue exampleProps o = Some 2%nat
  /\ SearchableSelectView.inputValue exampleProps 2%nat
       (fst (SearchableSelect.handleSelect exampleProps o s)) = "Beta"%string
  /\ SearchableSelectView.displayValue exampleProps 7%nat = ""%string.
Proof.
  intros o s.
  assert (Ho : o ∈ SearchableSelect.options exampleProps) by (right; left).
  assert (Hl : forall o', o' ∈ SearchableSelect.options exampleProps ->
                 SearchableSelect.getOptionValue exampleProps o' = Some 2%nat ->
                 SearchableSelect.getOptionLabel exampleProps o' = Some "Beta"%string).
  { intros o' Ho' Hv'. simpl in *.
    repeat (apply elem_of_cons in Ho' as [->|Ho']; [done || (simpl in Hv'; congruence)|]).
    by apply elem_of_nil in Ho'. }
  assert (Hn : forall o', o' ∈ SearchableSelect.options exampleProps ->
                 SearchableSelect.getOptionValue exampleProps o' <> Some 7%nat).
  { intros o' Ho'. simpl in *.
    repeat (apply elem_of_cons in Ho' as [->|Ho']; [done|]).
    by apply elem_of_nil in Ho'. }
  pose proof (X8_display_after_commit exampleProps o 2%nat "Beta"%string s) as [H1 _].
  pose proof (X8_display_after_commit exampleProps o 7%nat "Beta"%string s) as [_ H2].
  split; [exact Ho|]. split; [reflexivity|].
  split; [exact (proj2 (H1 Ho eq_refl eq_refl Hl)) | exact (H2 Hn)].
Defined.

(** ** The layout controller and its store *)

Section StoreFacts.

(** The store a controller in state [s] has written over [ls]. *)
Lemma mount_store ls innerWidth :
  snd (App.mount ls innerWidth)
  = <["chatbotVisible"%string :=
        boolToString (App.isChatbotVisible (fst (App.mount ls innerWidth)))]>
      (<["chatbotWidth"%string :=
           toString (App.chatbotWidth (fst (App.mount ls innerWidth)))]> ls).
Proof. done. Qed.

Lemma step_store ls ev (w : App.State * gmap string string) :
  snd w = <["chatbotVisible"%string := boolToString (App.isChatbotVisible (fst w))]>
            (<["chatbotWidth"%string := toString (App.chatbotWidth (fst w))]> ls) ->
  snd (App.step ev w)
  = <["chatbotVisible"%string :=
        boolToString (App.isChatbotVisible (fst (App.step ev w)))]>
      (<["chatbotWidth"%string :=
           toString (App.chatbotWidth (fst (App.step ev w)))]> ls).
Proof.
  destruct w as [s st]. simpl. intros ->. generalize (App.handle ev s) as s'.
  intros s'.
  unfold App.updateEffects, App.saveVisible, App.saveWidth, localStorage.setItem.
  destruct (decide (App.chatbotWidth s = App.chatbotWidth s')) as [Hw|Hw];
    destruct (decide (App.isChatbotVisible s = App.isChatbotVisible s')) as [Hv|Hv].
  - rewrite (bool_decide_eq_true_2 _ Hw), (bool_decide_eq_true_2 _ Hv). by rewrite Hw, Hv.
  - rewrite (bool_decide_eq_true_2 _ Hw), (bool_decide_eq_false_2 _ Hv).
    by rewrite insert_insert_eq, Hw.
  - rewrite (bool_decide_eq_false_2 _ Hw), (bool_decide_eq_true_2 _ Hv).
    rewrite (insert_insert_ne _ "chatbotWidth"%string "chatbotVisible"%string) by done.
    by rewrite insert_insert_eq, Hv.
  - rewrite (bool_decide_eq_false_2 _ Hw), (bool_decide_eq_false_2 _ Hv).
    rewrite (insert_insert_ne _ "chatbotWidth"%string "chatbotVisible"%string) by done.
    by rewrite !insert_insert_eq.
Qed.

Lemma run_store ls evs (w : App.State * gmap string string) :
  snd w = <["chatbotVisible"%string := boolToString (App.isChatbotVisible (fst w))]>
            (<["chatbotWidth"%string := toString (App.chatbotWidth (fst w))]> ls) ->
  snd (App.run evs w)
  = <["chatbotVisible"%string :=
        boolToString (App.isChatbotVisible (fst (App.run evs w)))]>
      (<["chatbotWidth"%string :=
           toString (App.chatbotWidth (fst (App.run evs w)))]> ls).
Proof.
  revert w. induction evs as [|ev evs IH]; intros w Hw; [done|].
  simpl. apply IH. by apply step_store.
Qed.

(** A transition that changes neither the width nor the visibility
    leaves the store as it is. *)
Lemma step_same s st s' ev :
  App.handle ev s = s' ->
  App.chatbotWidth s' = App.chatbotWidth s ->
  App.isChatbotVisible s' = App.isChatbotVisible s ->
  App.step ev (s, st) = (s', st).
Proof.
  intros H Hw Hv. unfold App.step. simpl. rewrite H. f_equal.
  unfold App.updateEffects. rewrite Hw, Hv.
  by rewrite !bool_decide_eq_true_2.
Qed.

Lemma handleMouseMove_idle clientX container s :
  App.isResizing s = false -> App.handleMouseMove clientX container s = s.
Proof. intros H. unfold App.handleMouseMove. by rewrite H. Qed.

End StoreFacts.

(** X9: whatever the operations, the store of a controller mounted on
    [ls] is [ls] with the two keys [chatbotWidth] and [chatbotVisible]
    set to the strings of the current width and visibility: the two keys
    are always up to date and no other key is ever written or removed. *)
Theorem X9_store_is_two_keys ls innerWidth evs :
  let w := App.run evs (App.mount ls innerWidth) in
  snd w
  = <["chatbotVisible"%string := boolToString (App.isChatbotVisible (fst w))]>
      (<["chatbotWidth"%string := toString (App.chatbotWidth (fst w))]> ls).
Proof. intros w. apply run_store, mount_store. Qed.

(** X10: in every state reached from a mount, showing or hiding the chat
    twice gives back the same state and the same store. *)
Theorem X10_toggle_twice ls innerWidth evs :
  let w := App.run evs (App.mount ls innerWidth) in
  App.step App.ToggleChatbot (App.step App.ToggleChatbot w) = w.
Proof.
  intros w.
  assert (Hw := run_store ls evs _ (mount_store ls innerWidth)).
  fold w in Hw.
  assert (Hs : fst (App.step App.ToggleChatbot (App.step App.ToggleChatbot w)) = fst w).
  { destruct w as [[cw d v a c r] st]. simpl.
    unfold App.handleToggleChatbot, App.setIsChatbotVisible. simpl.
    by rewrite negb_involutive. }
  assert (H2 := step_store ls App.ToggleChatbot _
                  (step_store ls App.ToggleChatbot _ Hw)).
  rewrite Hs in H2. rewrite <- Hw in H2.
  destruct (App.step _ _) as [s2 st2]. destruct w as [s st].
  simpl in *. by subst.
Qed.

(** X11: once the pointer is released, pointer moves change neither the
    state nor the store, until the separator is pressed again. *)
Theorem X11_moves_after_release moves (w : App.State * gmap string string) :
  forallb AppView.isMouseMove moves = true ->
  App.run moves (App.step App.MouseUp w) = App.step App.MouseUp w.
Proof.
  assert (Hr : App.isResizing (fst (App.step App.MouseUp w)) = false) by done.
  revert Hr. generalize (App.step App.MouseUp w). clear w.
  induction moves as [|ev moves IH]; intros [s st] Hr Hm; [done|].
  simpl in Hm. apply andb_prop in Hm as [Hev Hm]. simpl in Hr.
  destruct ev as [| | | | | |clientX container|]; try done.
  change (App.run (App.MouseMove clientX container :: moves) (s, st))
    with (App.run moves (App.step (App.MouseMove clientX container) (s, st))).
  rewrite (step_same s st s); [by apply IH | | done | done].
  by apply handleMouseMove_idle.
Qed.

Lemma X11_moves_after_release_witness :
  let moves := [App.MouseMove (of_Z 50) (Some {| left := zero; width := of_Z 1000 |});
                App.MouseMove (of_Z 900) None] in
  let w := App.step App.SeparatorMouseDown (App.mount ∅ (of_Z 1280)) in
  forallb AppView.isMouseMove moves = true
  /\ App.run moves (App.step App.MouseUp w) = App.step App.MouseUp w.
Proof.
  intros moves w.
  assert (H : forallb AppView.isMouseMove moves = true) by reflexivity.
  exact (conj H (X11_moves_after_release moves w H)).
Defined.

(** X12: on a desktop viewport with the chat visible, the two panes get
    5% and 95% after collapsing the analysis, 95% and 5% after collapsing
    the chat, and 80% and 20% after expanding both; the separator can be
    dragged only in the last case. *)
Theorem X12_pane_widths (s : App.State) :
  App.isDesktop s = true ->
  App.isChatbotVisible s = true ->
  (AppView.analysisPaneWidth (App.handleCollapseAnalysis s) = "5%"%string
   /\ AppView.chatPaneWidth (App.handleCollapseAnalysis s) = Some "95%"%string
   /\ AppView.separatorShown (App.handleCollapseAnalysis s) = false)
  /\ (AppView.analysisPaneWidth (App.handleCollapseChatbot s) = "95%"%string
      /\ AppView.chatPaneWidth (App.handleCollapseChatbot s) = Some "5%"%string
      /\ AppView.separatorShown (App.handleCollapseChatbot s) = false)
  /\ (AppView.analysisPaneWidth (App.handleExpandBoth s) = "80%"%string
      /\ AppView.chatPaneWidth (App.handleExpandBoth s) = Some "20%"%string
      /\ AppView.separatorShown (App.handleExpandBoth s) = true).
Proof.
  intros Hd Hv.
  unfold AppView.analysisPaneWidth, AppView.chatPaneWidth, AppView.separatorShown.
  simpl. rewrite Hd, Hv. simpl.
  repeat split; by vm_compute.
Qed.

Lemma X12_pane_widths_witness :
  let s := App.initialState ∅ (of_Z 1280) in
  App.isDesktop s = true
  /\ App.isChatbotVisible s = true
  /\ AppView.chatPaneWidth (App.handleCollapseAnalysis s) = Some "95%"%string.
Proof.
  intros s.
  assert (Hd : App.isDesktop s = true) by (by vm_compute).
  assert (Hv : App.isChatbotVisible s = true) by (by vm_compute).
  exact (conj Hd (conj Hv (proj1 (proj2 (proj1 (X12_pane_widths s Hd Hv)))))).
Defined.

(** X13: below the desktop breakpoint, or with the chat hidden, the
    analysis pane takes the whole width whatever the stored width and the
    collapse flags are; a hidden chat has no pane, and a visible one takes
    the whole width below the breakpoint. *)
Theorem X13_full_width (s : App.State) :
  App.isDesktop s && App.isChatbotVisible s = false ->
  AppView.analysisPaneWidth s = "100%"%string
  /\ AppView.chatPaneWidth s
     = if App.isChatbotVisible s then Some "100%"%string else None.
Proof.
  intros H. unfold AppView.analysisPaneWidth, AppView.chatPaneWidth.
  rewrite H. simpl.
  destruct (App.isDesktop s), (App.isChatbotVisible s); done.
Qed.

Lemma X13_full_width_witness :
  let s := App.handleCollapseChatbot (App.initialState ∅ (of_Z 800)) in
  App.isDesktop s && App.isChatbotVisible s = false
  /\ AppView.analysisPaneWidth s = "100%"%string
  /\ AppView.chatPaneWidth s
     = if App.isChatbotVisible s then Some "100%"%string else None.
Proof.
  intros s.
  assert (H : App.isDesktop s && App.isChatbotVisible s = false) by (by vm_compute).
  exact (conj H (X13_full_width s H)).
Defined.

(** X14: in the earlier variant of the component, a pointer move during
    a resize over a container whose computed width is a number leaves the
    width within [25, 60]; without a resize under way, or without a
    container, the move changes nothing. *)
Theorem X14_resizable_range clientX r (s : AppResizable.State) :
  isNaN (newWidth clientX r) = false ->
  (AppResizable.isResizing s = true ->
   inRangeResizable
     (AppResizable.chatbotWidth (AppResizable.handleMouseMove clientX (Some r) s))
   = true)
  /\ (AppResizable.isResizing s = false ->
      AppResizable.handleMouseMove clientX (Some r) s = s)
  /\ AppResizable.handleMouseMove clientX None s = s.
Proof.
  intros Hn. unfold AppResizable.handleMouseMove. repeat split.
  - intros ->. simpl. apply constrain_inRange; [by eexists _, _, _ .. | done | done].
  - by intros ->.
  - by destruct (negb _).
Qed.

Lemma X14_resizable_range_witness :
  let r := {| left := zero; width := of_Z 1000 |} in
  let s := {| AppResizable.chatbotWidth := of_Z 40;
              AppResizable.isResizing := true;
              AppResizable.isDesktop := true |} in
  isNaN (newWidth (of_Z 50) r) = false
  /\ inRangeResizable
       (AppResizable.chatbotWidth
          (AppResizable.handleMouseMove (of_Z 50) (Some r) s)) = true.
Proof.
  intros r s.
  assert (Hn : isNaN (newWidth (of_Z 50) r) = false) by (by vm_compute).
  exact (conj Hn (proj1 (X14_resizable_range (of_Z 50) r s Hn) eq_refl)).
Defined.

(** ** The meeting date and the selection of [App.jsx] *)

Section MeetingDateFacts.

Import AppData.

Lemma take_digits_spec n l ds rest :
  take_digits n l = Some (ds, rest) ->
  l = ds ++ rest /\ length ds = n /\ forallb is_digit ds = true.
Proof.
  revert l ds rest. induction n as [|n IH]; intros l ds rest; simpl.
  - by intros [= <- <-].
  - destruct l as [|c l]; [done|].
    destruct (is_digit c) eqn:Hc; [|done].
    destruct (take_digits n l) as [[ds' rest']|] eqn:Ht; [|done].
    intros [= <- <-]. destruct (IH _ _ _ Ht) as (-> & <- & Hd).
    simpl. by rewrite Hc, Hd.
Qed.

Lemma take_digits_app ds rest :
  forallb is_digit ds = true ->
  take_digits (length ds) (ds ++ rest) = Some (ds, rest).
Proof.
  induction ds as [|c ds IH]; simpl; [done|].
  intros [Hc Hd]%andb_prop. by rewrite Hc, IH.
Qed.

(** Digits read from [l ++ c :: r], with [c] not a digit, are read from
    [l]. *)
Lemma take_digits_stop n l c r ds rest :
  is_digit c = false ->
  take_digits n (l ++ c :: r) = Some (ds, rest) ->
  exists rest', take_digits n l = Some (ds, rest') /\ rest = rest' ++ c :: r.
Proof.
  intros Hc. revert l ds rest. induction n as [|n IH]; intros l ds rest; simpl.
  - intros [= <- <-]. by exists l.
  - destruct l as [|a l]; simpl; [by rewrite Hc|].
    destruct (is_digit a); [|done].
    destruct (take_digits n (l ++ c :: r)) as [[ds' rest0]|] eqn:Ht; [|done].
    intros [= <- <-]. destruct (IH _ _ _ Ht) as (rest' & -> & ->).
    by exists rest'.
Qed.

Lemma match_here_stamp dateStr timeStr post :
  length dateStr = 8%nat -> length timeStr = 6%nat ->
  forallb is_digit dateStr = true -> forallb is_digit timeStr = true ->
  match_here ("-"%char :: dateStr ++ "_"%char :: timeStr ++ post)
  = Some (dateStr, timeStr).
Proof.
  intros H8 H6 Hd Ht. unfold match_here.
  change (Ascii.eqb "-" "-") with true. cbv iota.
  rewrite <- H8, take_digits_app by done.
  change (Ascii.eqb "_" "_") with true. cbv iota.
  by rewrite <- H6, take_digits_app.
Qed.

(** A match that starts inside [p] and runs over [p ++ "-" :: r] lies
    within [p]: a hyphen is neither a digit nor an underscore. *)
Lemma match_here_within p r :
  p <> [] ->
  match_here p = None -> match_here (p ++ "-"%char :: r) = None.
Proof.
  intros Hp. destruct p as [|c p]; [done|].
  unfold match_here. rewrite <- app_comm_cons.
  destruct (Ascii.eqb c "-"); [|done].
  destruct (take_digits 8 (p ++ "-"%char :: r)) as [[ds rest]|] eqn:Ht; [|done].
  apply take_digits_stop in Ht as (rest' & -> & ->); [|done].
  destruct rest' as [|c' l2]; [done|]. rewrite <- app_comm_cons.
  destruct (Ascii.eqb c' "_"); [|done].
  destruct (take_digits 6 (l2 ++ "-"%char :: r)) as [[ds2 rest2]|] eqn:Ht2; [|done].
  apply take_digits_stop in Ht2 as (rest2' & -> & ->); done.
Qed.

Lemma regex_match_leftmost pre dateStr timeStr post :
  regex_match pre = None ->
  length dateStr = 8%nat -> length timeStr = 6%nat ->
  forallb is_digit dateStr = true -> forallb is_digit timeStr = true ->
  regex_match (pre ++ "-"%char :: dateStr ++ "_"%char :: timeStr ++ post)
  = Some (dateStr, timeStr).
Proof.
  intros Hpre H8 H6 Hd Ht. induction pre as [|c pre IH].
  - cbn [app]. destruct dateStr as [|d dateStr]; [done|].
    cbn [regex_match app]. change (d :: dateStr ++ _) with ((d :: dateStr) ++ "_"%char :: timeStr ++ post).
    by rewrite match_here_stamp.
  - cbn [regex_match] in Hpre.
    destruct (match_here (c :: pre)) eqn:Hm; [done|].
    change ((c :: pre) ++ ?l) with (c :: (pre ++ l)).
    cbn [regex_match].
    change (c :: (pre ++ ?l)) with ((c :: pre) ++ l).
    rewrite match_here_within by done.
    by apply IH.
Qed.

Lemma regex_match_groups l dateStr timeStr :
  regex_match l = Some (dateStr, timeStr) ->
  length dateStr = 8%nat /\ length timeStr = 6%nat
  /\ forallb is_digit dateStr = true /\ forallb is_digit timeStr = true
  /\ In "-"%char l.
Proof.
  induction l as [|c l IH]; [done|]. cbn [regex_match].
  destruct (match_here (c :: l)) as [[d t]|] eqn:Hm.
  - intros [= -> ->]. unfold match_here in Hm.
    destruct (Ascii.eqb_spec c "-") as [->|]; [|done].
    destruct (take_digits 8 l) as [[ds [|c' l2]]|] eqn:H8; try done.
    destruct (Ascii.eqb c' "_"); [|done].
    destruct (take_digits 6 l2) as [[ds2 rest2]|] eqn:H6; [|done].
    injection Hm as <- <-.
    apply take_digits_spec in H8 as (_ & ? & ?).
    apply take_digits_spec in H6 as (_ & ? & ?).
    repeat split; try done. by left.
  - intros H. destruct (IH H) as (? & ? & ? & ? & ?).
    repeat split; try done. by right.
Qed.

Lemma formatDateTime_parts Y Mo D h mi se :
  length Y = 4%nat -> length Mo = 2%nat -> length D = 2%nat ->
  length h = 2%nat -> length mi = 2%nat -> length se = 2%nat ->
  formatDateTime (Y ++ Mo ++ D) (h ++ mi ++ se)
  = Y ++ "-"%char :: Mo ++ "-"%char :: D ++ " "%char ::
    h ++ ":"%char :: mi ++ ":"%char :: se.
Proof.
  intros HY HMo HD Hh Hmi Hse.
  destruct Y as [|y1 [|y2 [|y3 [|y4 [|]]]]]; try done.
  destruct Mo as [|m1 [|m2 [|]]]; try done.
  destruct D as [|d1 [|d2 [|]]]; try done.
  destruct h as [|h1 [|h2 [|]]]; try done.
  destruct mi as [|n1 [|n2 [|]]]; try done.
  destruct se as [|s1 [|s2 [|]]]; try done.
Qed.

Lemma split_digits n (l : chars) :
  (n <= length l)%nat ->
  exists a b, l = a ++ b /\ length a = n /\ length b = (length l - n)%nat.
Proof.
  intros H. exists (take n l), (drop n l).
  rewrite take_drop, length_take, length_drop. repeat split; lia.
Qed.

End MeetingDateFacts.

(** X15: when the selected meeting carries no date of its own, the date
    is read from the leftmost place of the meeting name where a hyphen is
    followed by eight digits, an underscore and six digits, and is laid
    out as [YYYY-MM-DD HH:MM:SS]; what follows the six digits is
    ignored. *)
Theorem X15_date_from_name (s : AppData.State) pre Y Mo D h mi se post :
  AppData.recordedDateTime s = None ->
  AppData.selectedMeeting s
  = string_of_list_ascii
      (pre ++ "-"%char :: (Y ++ Mo ++ D) ++ "_"%char :: (h ++ mi ++ se) ++ post) ->
  AppData.regex_match pre = None ->
  length Y = 4%nat -> length Mo = 2%nat -> length D = 2%nat ->
  length h = 2%nat -> length mi = 2%nat -> length se = 2%nat ->
  forallb is_digit (Y ++ Mo ++ D) = true ->
  forallb is_digit (h ++ mi ++ se) = true ->
  AppData.getMeetingDateTime s
  = Some (string_of_list_ascii
            (Y ++ "-"%char :: Mo ++ "-"%char :: D ++ " "%char ::
             h ++ ":"%char :: mi ++ ":"%char :: se)).
Proof.
  intros Hrec Hname Hpre HY HMo HD Hh Hmi Hse Hd Ht.
  unfold AppData.getMeetingDateTime. rewrite Hrec, Hname.
  rewrite list_ascii_of_string_of_list_ascii.
  rewrite regex_match_leftmost; try done.
  - by rewrite formatDateTime_parts.
  - rewrite !length_app. lia.
  - rewrite !length_app. lia.
Qed.

Lemma X15_date_from_name_witness :
  let s := {| AppData.selectedProject := "Apollo";
              AppData.selectedMeeting := "Apollo-Sync-20251130_093000.vtt";
              AppData.projectData := None; AppData.loading := false;
              AppData.error := JNull; AppData.projectKey := "k1" |} in
  AppData.getMeetingDateTime s = Some "2025-11-30 09:30:00"%string.
Proof.
  intros s.
  exact (X15_date_from_name s
           (list_ascii_of_string "Apollo-Sync") (list_ascii_of_string "2025")
           (list_ascii_of_string "11") (list_ascii_of_string "30")
           (list_ascii_of_string "09") (list_ascii_of_string "30")
           (list_ascii_of_string "00") (list_ascii_of_string ".vtt")
           eq_refl eq_refl eq_refl eq_refl eq_refl eq_refl eq_refl eq_refl eq_refl
           eq_refl eq_refl).
Defined.

(** X16: when the selected meeting carries no date of its own, a date is
    returned only for a name that contains a hyphen, and it always has
    the shape [dddd-dd-dd dd:dd:dd] with decimal digits [d]; the digits
    are not checked to form a calendar date. *)
Theorem X16_date_shape (s : AppData.State) r :
  AppData.recordedDateTime s = None ->
  AppData.getMeetingDateTime s = Some r ->
  In "-"%char (list_ascii_of_string (AppData.selectedMeeting s))
  /\ exists Y Mo D h mi se,
       r = string_of_list_ascii
             (Y ++ "-"%char :: Mo ++ "-"%char :: D ++ " "%char ::
              h ++ ":"%char :: mi ++ ":"%char :: se)
       /\ length Y = 4%nat /\ length Mo = 2%nat /\ length D = 2%nat
       /\ length h = 2%nat /\ length mi = 2%nat /\ length se = 2%nat
       /\ forallb is_digit (Y ++ Mo ++ D ++ h ++ mi ++ se) = true.
Proof.
  intros Hrec. unfold AppData.getMeetingDateTime. rewrite Hrec.
  destruct (AppData.regex_match _) as [[dateStr timeStr]|] eqn:Hm; [|done].
  intros [= <-].
  apply regex_match_groups in Hm as (H8 & H6 & Hd & Ht & Hin).
  split; [done|].
  destruct (split_digits 4%nat dateStr) as (Y & l1 & -> & HY & Hl1); [lia|].
  destruct (split_digits 2%nat l1) as (Mo & D & -> & HMo & HD); [lia|].
  destruct (split_digits 2%nat timeStr) as (h & l2 & -> & Hh & Hl2); [lia|].
  destruct (split_digits 2%nat l2) as (mi & se & -> & Hmi & Hse); [lia|].
  exists Y, Mo, D, h, mi, se.
  rewrite formatDateTime_parts by lia.
  repeat split; try lia.
  rewrite !forallb_app in *.
  by repeat (apply andb_prop in Hd as [? Hd] || apply andb_prop in Ht as [? Ht]
             || apply andb_true_intro || split).
Qed.

Lemma X16_date_shape_witness :
  let s := {| AppData.selectedProject := "Apollo";
              AppData.selectedMeeting := "Review-99999999_999999";
              AppData.projectData := None; AppData.loading := false;
              AppData.error := JNull; AppData.projectKey := "k1" |} in
  AppData.getMeetingDateTime s = Some "9999-99-99 99:99:99"%string
  /\ In "-"%char (list_ascii_of_string (AppData.selectedMeeting s)).
Proof.
  intros s.
  assert (H : AppData.getMeetingDateTime s = Some "9999-99-99 99:99:99"%string)
    by reflexivity.
  exact (conj H (proj1 (X16_date_shape s _ eq_refl H))).
Defined.

Section SelectFacts.

Import AppData.

Lemma array_find_first {A : Type} (f : A -> bool) l1 a l2 :
  forallb (fun b => negb (f b)) l1 = true -> f a = true ->
  array_find f (l1 ++ a :: l2) = Some a.
Proof.
  intros H1 Ha. induction l1 as [|b l1 IH]; simpl in *; [by rewrite Ha|].
  apply andb_prop in H1 as [Hb H1]. apply negb_true_iff in Hb.
  rewrite Hb. by apply IH.
Qed.

Lemma nonEmpty_false s : nonEmpty s = false -> s = ""%string.
Proof. by destruct s. Qed.

Lemma truthy_js_or a b : truthy b = true -> truthy (js_or a b) = true.
Proof. intros Hb. unfold js_or. by destruct (truthy a) eqn:E. Qed.

Lemma settle_projectKey result s :
  projectKey (handleSelectSettle result s) = projectKey s.
Proof. by destruct result. Qed.

Lemma settle_selection result s :
  selectedProject (handleSelectSettle result s) = selectedProject s
  /\ selectedMeeting (handleSelectSettle result s) = selectedMeeting s.
Proof. by destruct result. Qed.

Lemma begin_selection p m k s :
  selectedMeeting (fst (handleSelectBegin p m k s)) = m.
Proof.
  unfold handleSelectBegin.
  by destruct (nonEmpty p), (nonEmpty m), (nonEmpty (keyToUse k s)).
Qed.

End SelectFacts.

(** X17: a selection starts a request exactly when the project name, the
    meeting name and the key in use (the key given, or else the stored
    one) are all non-empty, and then with that key; the data loaded before
    is kept only when the project name is empty and the meeting name is
    not, and is dropped otherwise; the error is reset, except that a
    selection with project and meeting but no key in use sets the
    missing-key message. *)
Theorem X17_select_request p m k (s : AppData.State) :
  let r := AppData.handleSelectBegin p m k s in
  let key := AppData.keyToUse k s in
  snd r = (if nonEmpty p && nonEmpty m && nonEmpty key then Some key else None)
  /\ AppData.projectData (fst r)
     = (if negb (nonEmpty p) && nonEmpty m then AppData.projectData s else None)
  /\ AppData.error (fst r)
     = (if nonEmpty p && nonEmpty m && negb (nonEmpty key)
        then JString "Project key not found. Please select the project again."
        else JNull)
  /\ AppData.loading (fst r)
     = (AppData.loading s || (nonEmpty p && nonEmpty m && nonEmpty key))
  /\ AppData.selectedProject (fst r) = p
  /\ AppData.selectedMeeting (fst r) = m.
Proof.
  intros r key. subst r key. unfold AppData.handleSelectBegin.
  destruct (nonEmpty p), (nonEmpty m), (nonEmpty (AppData.keyToUse k s));
    simpl; rewrite ?orb_true_r, ?orb_false_r; done.
Qed.

(** X18: when the request fails, an error message is always set and it
    is never a falsy value: the server's detail when it is truthy, else
    the error's own message when it is truthy, else a fixed text; the
    data is dropped and the loading flag is cleared. *)
Theorem X18_failure_is_reported err (s : AppData.State) :
  let s' := AppData.handleSelectSettle (inr err) s in
  truthy (AppData.error s') = true
  /\ AppData.error s'
     = (if truthy (AppData.detail err) then AppData.detail err
        else if truthy (AppData.message err) then AppData.message err
        else JString "Failed to load project data. Please try again.")
  /\ AppData.projectData s' = None
  /\ AppData.loading s' = false.
Proof.
  intros s'. subst s'. simpl. unfold AppData.errorMessage.
  split; [by apply truthy_js_or|].
  split; [|done]. unfold js_or.
  destruct (truthy (AppData.detail err)) eqn:E1; rewrite ?E1; [done|].
  by destruct (truthy (AppData.message err)) eqn:E2.
Qed.

(** X19: a key given with one selection is stored and used by every later
    selection that gives none, whatever requests settle in between and
    whichever project the later selection names. *)
Theorem X19_key_remembered p1 m1 k p2 m2 outcomes (s : AppData.State) :
  nonEmpty k = true -> nonEmpty p2 = true -> nonEmpty m2 = true ->
  let s1 := fst (AppData.handleSelectBegin p1 m1 k s) in
  let s2 := fold_left (fun s r => AppData.handleSelectSettle r s) outcomes s1 in
  snd (AppData.handleSelectBegin p2 m2 "" s2) = Some k.
Proof.
  intros Hk Hp Hm s1 s2.
  assert (H1 : AppData.projectKey s1 = k).
  { subst s1. unfold AppData.handleSelectBegin, AppData.keyToUse. rewrite Hk.
    destruct (nonEmpty p1), (nonEmpty m1); simpl; by rewrite ?Hk. }
  assert (H2 : AppData.projectKey s2 = k).
  { subst s2. revert H1. generalize s1. clear.
    induction outcomes as [|r outcomes IH]; intros s1 H1; [done|].
    simpl. apply IH. by rewrite settle_projectKey. }
  unfold AppData.handleSelectBegin, AppData.keyToUse. simpl.
  rewrite H2, Hp, Hm, Hk. done.
Qed.

Lemma X19_key_remembered_witness :
  let s1 := fst (AppData.handleSelectBegin "Apollo" "" "k1" AppData.initialState) in
  let s2 := fold_left (fun s r => AppData.handleSelectSettle r s)
              [inr {| AppData.detail := JUndefined;
                      AppData.message := JString "Network Error" |}] s1 in
  nonEmpty "k1" = true
  /\ snd (AppData.handleSelectBegin "Gemini" "Kickoff" "" s2) = Some "k1"%string.
Proof.
  intros s1 s2.
  exact (conj eq_refl
           (X19_key_remembered "Apollo" "" "k1" "Gemini" "Kickoff"
              [inr {| AppData.detail := JUndefined;
                      AppData.message := JString "Network Error" |}]
              AppData.initialState eq_refl eq_refl eq_refl)).
Defined.

(** X20: a response is applied to whatever is selected when it arrives.
    When two selections each start a request and the first request is
    answered last, the data shown is the first selection's while the
    second selection is the current one, and the loading flag is cleared
    by the first answer to arrive although a request is still open. *)
Theorem X20_late_response p1 m1 k1 p2 m2 k2 d1 d2 key1 key2 (s : AppData.State) :
  let b1 := AppData.handleSelectBegin p1 m1 k1 s in
  let b2 := AppData.handleSelectBegin p2 m2 k2 (fst b1) in
  snd b1 = Some key1 -> snd b2 = Some key2 ->
  let s3 := AppData.handleSelectSettle (inl d2) (fst b2) in
  let s4 := AppData.handleSelectSettle (inl d1) s3 in
  AppData.loading (fst b2) = true
  /\ AppData.loading s3 = false
  /\ AppData.selectedProject s4 = p2
  /\ AppData.selectedMeeting s4 = m2
  /\ AppData.projectData s4 = Some d1
  /\ AppData.error s4 = JNull.
Proof.
  intros b1 b2 H1 H2 s3 s4.
  subst s4 s3. simpl.
  subst b2. revert H2. generalize (fst b1). intros s1.
  unfold AppData.handleSelectBegin.
  destruct (nonEmpty p2), (nonEmpty m2), (nonEmpty (AppData.keyToUse k2 s1));
    simpl; done.
Qed.

Lemma X20_late_response_witness :
  let d1 := {| AppData.meetings := Some [] |} in
  let d2 := {| AppData.meetings := None |} in
  let b1 := AppData.handleSelectBegin "Apollo" "Kickoff" "k1" AppData.initialState in
  let b2 := AppData.handleSelectBegin "Gemini" "Review" "k2" (fst b1) in
  snd b1 = Some "k1"%string /\ snd b2 = Some "k2"%string
  /\ AppData.projectData
       (AppData.handleSelectSettle (inl d1)
          (AppData.handleSelectSettle (inl d2) (fst b2))) = Some d1.
Proof.
  intros d1 d2 b1 b2.
  assert (H1 : snd b1 = Some "k1"%string) by reflexivity.
  assert (H2 : snd b2 = Some "k2"%string) by reflexivity.
  exact (conj H1 (conj H2
    (proj1 (proj2 (proj2 (proj2 (proj2
      (X20_late_response "Apollo" "Kickoff" "k1" "Gemini" "Review" "k2"
         d1 d2 "k1" "k2" AppData.initialState H1 H2)))))))).
Defined.

(** X21: after a selection whose request succeeds, the participants and
    the date shown are those of the first meeting of the answer that
    bears the selected name, later meetings of the same name being
    ignored: a missing participant list counts as empty, and a non-empty
    recorded date is shown as it is, whatever the name looks like. *)
Theorem X21_loaded_meeting p m k key ms1 mt ms2 (s : AppData.State) :
  snd (AppData.handleSelectBegin p m k s) = Some key ->
  forallb (fun m' => negb (bool_decide (AppData.meeting_name m' = m))) ms1 = true ->
  AppData.meeting_name mt = m ->
  let data := {| AppData.meetings := Some (ms1 ++ mt :: ms2) |} in
  let s' := AppData.handleSelectSettle (inl data)
              (fst (AppData.handleSelectBegin p m k s)) in
  AppData.selectedMeetingData s' = Some mt
  /\ AppData.participantsOf s'
     = match AppData.participants mt with Some ps => ps | None => [] end
  /\ (forall dt, AppData.date_time mt = Some dt -> nonEmpty dt = true ->
      AppData.getMeetingDateTime s' = Some dt).
Proof.
  intros Hreq H1 Hmt data s'.
  assert (Hsel : AppData.selectedMeeting s' = m).
  { subst s'. rewrite (proj2 (settle_selection _ _)).
    apply begin_selection. }
  assert (Hdata : AppData.projectData s' = Some data) by done.
  assert (Hfind : AppData.selectedMeetingData s' = Some mt).
  { unfold AppData.selectedMeetingData. rewrite Hdata, Hsel. simpl.
    apply array_find_first; [done|]. by apply bool_decide_eq_true_2. }
  split; [done|]. split.
  - unfold AppData.participantsOf. by rewrite Hfind.
  - intros dt Hdt Hne. unfold AppData.getMeetingDateTime, AppData.recordedDateTime.
    by rewrite Hfind, Hdt, Hne.
Qed.

Lemma X21_loaded_meeting_witness :
  let mt := {| AppData.meeting_name := "Kickoff-20251130_093000";
               AppData.date_time := Some "30 Nov 2025, 09:30"%string;
               AppData.participants := None |} in
  let other := {| AppData.meeting_name := "Review";
                  AppData.date_time := None;
                  AppData.participants := Some ["Ada"%string] |} in
  let s' := AppData.handleSelectSettle
              (inl {| AppData.meetings := Some ([other] ++ mt :: [mt; other]) |})
              (fst (AppData.handleSelectBegin "Apollo" "Kickoff-20251130_093000" "k1"
                      AppData.initialState)) in
  AppData.participantsOf s' = []
  /\ AppData.getMeetingDateTime s' = Some "30 Nov 2025, 09:30"%string.
Proof.
  intros mt other s'.
  pose proof (X21_loaded_meeting "Apollo" "Kickoff-20251130_093000" "k1" "k1"
                [other] mt [mt; other] AppData.initialState
                eq_refl eq_refl eq_refl) as (_ & Hp & Hd).
  exact (conj Hp (Hd _ eq_refl eq_refl)).
Defined.

(** ** The project selector *)

Section GroupingFacts.

Import ProjectSelector.

Lemma map_has_spec k pm : map_has k pm = true <-> k ∈ map fst pm.
Proof.
  unfold map_has. induction pm as [|e pm IH]; simpl.
  - split; [done | by intros ?%elem_of_nil].
  - rewrite orb_true_iff, IH, elem_of_cons, bool_decide_eq_true.
    split; (intros [?|?]; [by left | by right]).
Qed.

Lemma map_alter_keys f k pm : map fst (map_alter f k pm) = map fst pm.
Proof.
  induction pm as [|e pm IH]; simpl; [done|].
  case_bool_decide; simpl; [done | by rewrite IH].
Qed.

Lemma map_alter_elem f k pm e :
  e ∈ map_alter f k pm ->
  e ∈ pm \/ exists p, (k, p) ∈ pm /\ e = (k, f p).
Proof.
  induction pm as [|[k' p'] pm IH]; simpl; [by left|].
  case_bool_decide as Hk; simpl in Hk.
  - intros [->|He]%elem_of_cons.
    + right. exists p'. subst k'. split; [left | done].
    + left. by right.
  - intros [->|He]%elem_of_cons; [left; left|].
    destruct (IH He) as [?|(p & Hp & ->)]; [left; by right|].
    right. exists p. split; [by right | done].
Qed.

(** Every stored project keeps its place, its name and its key. *)
Lemma map_alter_lookup f k pm k' p :
  (forall q, project_name (f q) = project_name q /\ project_key (f q) = project_key q) ->
  (k', p) ∈ pm ->
  exists p', (k', p') ∈ map_alter f k pm
             /\ project_name p' = project_name p /\ project_key p' = project_key p.
Proof.
  intros Hf. induction pm as [|[k0 p0] pm IH]; [by intros ?%elem_of_nil|].
  simpl. intros [[= -> ->]|He]%elem_of_cons.
  - case_bool_decide.
    + exists (f p0). split; [left | apply Hf].
    + exists p0. split; [left | done].
  - case_bool_decide.
    + exists p. split; [by right | done].
    + destruct (IH He) as (p' & Hp' & ?). exists p'. split; [by right | done].
Qed.

Lemma namedOnly_app ms1 ms2 : namedOnly (ms1 ++ ms2) = namedOnly ms1 ++ namedOnly ms2.
Proof. unfold namedOnly. by rewrite map_app, List.filter_app. Qed.

Lemma namedOnly_elem x ms :
  x ∈ namedOnly ms -> exists m, m ∈ ms /\ meeting_name m = x.
Proof.
  unfold namedOnly. rewrite list_elem_of_In, filter_In, <- list_elem_of_In.
  intros [(m & -> & Hm)%list_elem_of_fmap _]. by exists m.
Qed.

Lemma addMeeting_distinct acc meeting :
  NoDup (namedOnly acc) -> NoDup (namedOnly (addMeeting acc meeting)).
Proof.
  intros Hacc. unfold addMeeting.
  destruct (existsb _ acc) eqn:Hex; [done|].
  rewrite namedOnly_app. unfold namedOnly at 2. simpl.
  destruct (nonEmpty (or_empty (meetingKey meeting))) eqn:Hne;
    [|by rewrite app_nil_r].
  apply NoDup_app. split; [done|]. split; [|apply NoDup_singleton].
  intros x (m & Hm & Hx)%namedOnly_elem Hx'%list_elem_of_singleton.
  destruct (meetingKey meeting) as [v|] eqn:Hv; [|done]. simpl in *. subst x.
  assert (existsb (fun m => bool_decide (Some (meeting_name m) = Some v)) acc = true);
    [|congruence].
  apply existsb_exists. exists m. split; [by apply list_elem_of_In|].
  apply bool_decide_eq_true. by f_equal.
Qed.

Lemma pushMeetings_distinct ms p :
  NoDup (namedOnly (meetings p)) -> NoDup (namedOnly (meetings (pushMeetings ms p))).
Proof.
  unfold pushMeetings. simpl. generalize (meetings p).
  induction ms as [|meeting ms IH]; intros acc Hacc; [done|].
  simpl. by apply IH, addMeeting_distinct.
Qed.

Lemma addTranscript_groupedWell pm t :
  groupedWell pm -> groupedWell (addTranscript pm t).
Proof.
  intros [Hnd Hall]. unfold addTranscript.
  destruct (projectNameOf t) as [name|]; [|done].
  destruct (nonEmpty name) eqn:Hname; [|done].
  set (pm1 := if map_has name pm then pm else pm ++ _).
  assert (H1 : groupedWell pm1).
  { subst pm1. destruct (map_has name pm) eqn:Hhas; [done|].
    split.
    - rewrite map_app. simpl. apply NoDup_app. split; [done|].
      split; [|apply NoDup_singleton].
      intros x Hx ->%list_elem_of_singleton.
      apply map_has_spec in Hx. congruence.
    - intros k p [Hp|[= -> ->]%list_elem_of_singleton]%elem_of_app; [by apply Hall|].
      simpl. repeat split; [done | apply NoDup_nil_2]. }
  destruct (Raw.meetings t) as [ms|]; [|done].
  destruct H1 as [Hnd1 Hall1]. split; [by rewrite map_alter_keys|].
  intros k p [Hp|(p0 & Hp0 & [= -> ->])]%map_alter_elem; [by apply Hall1|].
  destruct (Hall1 _ _ Hp0) as (Hn & Hk & Hm).
  repeat split; [done | done | by apply pushMeetings_distinct].
Qed.

Lemma fold_groupedWell ts pm :
  groupedWell pm -> groupedWell (fold_left addTranscript ts pm).
Proof.
  revert pm. induction ts as [|t ts IH]; intros pm Hpm; [done|].
  simpl. by apply IH, addTranscript_groupedWell.
Qed.

Lemma groupedWell_nil : groupedWell [].
Proof. split; [apply NoDup_nil_2 | by intros k p ?%elem_of_nil]. Qed.

Lemma groupedWell_names pm :
  groupedWell pm -> map project_name (map snd pm) = map fst pm.
Proof.
  intros [_ Hall]. induction pm as [|[k p] pm IH]; [done|]. simpl.
  rewrite IH.
  - f_equal. apply (Hall k p). left.
  - intros k' p' H. apply Hall. by right.
Qed.

(** The names in the map are the non-empty names of the transcripts. *)
Lemma addTranscript_keys pm t k :
  k ∈ map fst (addTranscript pm t)
  <-> k ∈ map fst pm \/ (projectNameOf t = Some k /\ nonEmpty k = true).
Proof.
  unfold addTranscript.
  destruct (projectNameOf t) as [name|];
    [|split; [by left | by intros [?|[? _]]]].
  destruct (nonEmpty name) eqn:Hname;
    [|split; [by left | intros [?|[[= ->] ?]]; [done | congruence]]].
  set (pm1 := if map_has name pm then pm else pm ++ _).
  assert (H1 : k ∈ map fst pm1 <-> k ∈ map fst pm \/ k = name).
  { subst pm1. destruct (map_has name pm) eqn:Hhas.
    - apply map_has_spec in Hhas. split; [by left | by intros [?| ->]].
    - rewrite map_app, elem_of_app. simpl. rewrite list_elem_of_singleton. done. }
  assert (H2 : k = name <-> Some name = Some k /\ nonEmpty k = true).
  { split; [by intros -> | by intros [[= ->] _]]. }
  destruct (Raw.meetings t) as [ms|]; rewrite ?map_alter_keys, H1, H2; done.
Qed.

Lemma fold_keys ts pm k :
  k ∈ map fst (fold_left addTranscript ts pm)
  <-> k ∈ map fst pm
      \/ exists t, t ∈ ts /\ projectNameOf t = Some k /\ nonEmpty k = true.
Proof.
  revert pm. induction ts as [|t ts IH]; intros pm; simpl.
  - split; [by left|]. intros [?|(t & ?%elem_of_nil & _)]; done.
  - rewrite IH, addTranscript_keys. split.
    + intros [[?|?]|(t' & ? & ?)]; [by left | right; exists t | right; exists t'];
        (split; [by constructor | done]).
    + intros [?|(t' & [->|?]%elem_of_cons & ?)];
        [by left; left | by left; right | right; by exists t'].
Qed.

(** A project once stored keeps its key. *)
Lemma addTranscript_lookup pm t k p :
  (k, p) ∈ pm ->
  exists p', (k, p') ∈ addTranscript pm t
             /\ project_name p' = project_name p /\ project_key p' = project_key p.
Proof.
  intros Hp. unfold addTranscript.
  destruct (projectNameOf t) as [name|]; [|by exists p].
  destruct (nonEmpty name); [|by exists p].
  set (pm1 := if map_has name pm then pm else pm ++ _).
  assert (H1 : (k, p) ∈ pm1).
  { subst pm1. destruct (map_has name pm); [done|]. apply elem_of_app. by left. }
  destruct (Raw.meetings t) as [ms|]; [|by exists p].
  by apply map_alter_lookup.
Qed.

Lemma fold_lookup ts pm k p :
  (k, p) ∈ pm ->
  exists p', (k, p') ∈ fold_left addTranscript ts pm
             /\ project_name p' = project_name p /\ project_key p' = project_key p.
Proof.
  revert pm p. induction ts as [|t ts IH]; intros pm p Hp; [by exists p|].
  simpl. destruct (addTranscript_lookup pm t k p Hp) as (p1 & Hp1 & Hn1 & Hk1).
  destruct (IH _ _ Hp1) as (p' & Hp' & Hn & Hk).
  exists p'. split; [done|]. split; congruence.
Qed.

Lemma findProject_Some projectList name p :
  findProject projectList name = Some p -> project_name p = name.
Proof.
  intros [_ H]%array_find_Some. by apply bool_decide_eq_true in H.
Qed.

End GroupingFacts.

(** X22: the projects extracted from any list of transcripts have
    pairwise distinct, non-empty names, and a name is among them exactly
    when it is the name of some transcript; transcripts whose name is
    missing or empty are left out. *)
Theorem X22_projects_distinct (transcripts : list ProjectSelector.Raw.Transcript) :
  let names := map ProjectSelector.project_name
                 (ProjectSelector.extractProjects transcripts) in
  NoDup names
  /\ forall name,
       name ∈ names
       <-> nonEmpty name = true
           /\ exists t, t ∈ transcripts /\ ProjectSelector.projectNameOf t = Some name.
Proof.
  intros names. subst names. unfold ProjectSelector.extractProjects.
  pose proof (fold_groupedWell transcripts [] groupedWell_nil) as Hg.
  rewrite (groupedWell_names _ Hg). split; [apply Hg|].
  intros name. rewrite fold_keys. split.
  - intros [?%elem_of_nil|(t & ? & ? & ?)]; [done|]. split; [done | by exists t].
  - intros (? & t & ? & ?). right. by exists t.
Qed.

(** X23: within every extracted project the non-empty meeting names are
    pairwise distinct; only the empty name, which stands for a meeting
    without a name, can occur more than once. *)
Theorem X23_meetings_distinct (transcripts : list ProjectSelector.Raw.Transcript) p :
  p ∈ ProjectSelector.extractProjects transcripts ->
  NoDup (List.filter nonEmpty
           (map ProjectSelector.meeting_name (ProjectSelector.meetings p))).
Proof.
  unfold ProjectSelector.extractProjects.
  intros ([k p'] & -> & Hp)%list_elem_of_fmap.
  pose proof (fold_groupedWell transcripts [] groupedWell_nil) as [_ Hall].
  apply (Hall k p' Hp).
Qed.

Lemma X23_meetings_distinct_witness :
  let nameless := {| ProjectSelector.Raw.meeting_name := None;
                     ProjectSelector.Raw.meetingName := None;
                     ProjectSelector.Raw.meeting_time := None;
                     ProjectSelector.Raw.meetingTime := None |} in
  let kickoff := {| ProjectSelector.Raw.meeting_name := None;
                    ProjectSelector.Raw.meetingName := Some "Kickoff"%string;
                    ProjectSelector.Raw.meeting_time := None;
                    ProjectSelector.Raw.meetingTime := None |} in
  let t := {| ProjectSelector.Raw.project_name := Some "Apollo"%string;
              ProjectSelector.Raw.Project_name := None;
              ProjectSelector.Raw.project_key := Some "k1"%string;
              ProjectSelector.Raw.Project_key := None;
              ProjectSelector.Raw.meetings :=
                Some [nameless; kickoff; nameless; kickoff] |} in
  let p := {| ProjectSelector.project_name := "Apollo";
              ProjectSelector.project_key := "k1";
              ProjectSelector.meetings :=
                [ {| ProjectSelector.meeting_name := "";
                     ProjectSelector.meeting_time := "" |};
                  {| ProjectSelector.meeting_name := "Kickoff";
                     ProjectSelector.meeting_time := "" |};
                  {| ProjectSelector.meeting_name := "";
                     ProjectSelector.meeting_time := "" |} ] |} in
  ProjectSelector.extractProjects [t] = [p]
  /\ NoDup (List.filter nonEmpty
              (map ProjectSelector.meeting_name (ProjectSelector.meetings p))).
Proof.
  intros nameless kickoff t p.
  assert (H : ProjectSelector.extractProjects [t] = [p]) by reflexivity.
  split; [done|].
  apply (X23_meetings_distinct [t] p). rewrite H. by left.
Defined.

(** X24: a project takes its key from the first transcript that bears
    its name; the keys of later transcripts of the same name are
    ignored, also when the first transcript has none. *)
Theorem X24_key_of_first_transcript ts1 t ts2 name :
  ProjectSelector.projectNameOf t = Some name ->
  nonEmpty name = true ->
  Forall (fun t' => ProjectSelector.projectNameOf t' <> Some name) ts1 ->
  exists p,
    ProjectSelector.findProject
      (ProjectSelector.extractProjects (ts1 ++ t :: ts2)) name = Some p
    /\ ProjectSelector.project_key p = or_empty (ProjectSelector.projectKeyOf t).
Proof.
  intros Ht Hname H1.
  unfold ProjectSelector.extractProjects. rewrite fold_left_app. simpl.
  set (pm := fold_left ProjectSelector.addTranscript ts1 []).
  assert (Hfresh : ProjectSelector.map_has name pm = false).
  { apply not_true_is_false. rewrite map_has_spec. subst pm. rewrite fold_keys.
    intros [?%elem_of_nil|(t' & Ht' & Hn & _)]; [done|].
    by apply (proj1 (Forall_forall _ _) H1 t' Ht'). }
  assert (Hin : exists p0, (name, p0) ∈ ProjectSelector.addTranscript pm t
                  /\ ProjectSelector.project_key p0
                     = or_empty (ProjectSelector.projectKeyOf t)).
  { unfold ProjectSelector.addTranscript. rewrite Ht, Hname, Hfresh.
    set (p0 := {| ProjectSelector.project_name := name;
                  ProjectSelector.project_key := _;
                  ProjectSelector.meetings := [] |}).
    assert (H0 : (name, p0) ∈ pm ++ [(name, p0)])
      by (apply elem_of_app; right; by left).
    destruct (ProjectSelector.Raw.meetings t) as [ms|]; [|by exists p0].
    destruct (map_alter_lookup (ProjectSelector.pushMeetings ms) name _ name p0
                ltac:(done) H0) as (p' & Hp' & _ & Hk).
    by exists p'. }
  destruct Hin as (p0 & Hp0 & Hk0).
  destruct (fold_lookup ts2 _ name p0 Hp0) as (p & Hp & _ & Hk).
  assert (Hg : ProjectSelector.groupedWell
                 (fold_left ProjectSelector.addTranscript ts2
                    (ProjectSelector.addTranscript pm t))).
  { apply fold_groupedWell, addTranscript_groupedWell.
    apply fold_groupedWell, groupedWell_nil. }
  revert Hg Hp. generalize (fold_left ProjectSelector.addTranscript ts2
                              (ProjectSelector.addTranscript pm t)).
  intros l [Hnd Hall] Hp. exists p. split; [|congruence].
  unfold ProjectSelector.findProject.
  induction l as [|[k q] l IH]; [by apply elem_of_nil in Hp|].
  simpl. apply elem_of_cons in Hp as [[= <- <-]|Hp].
  - rewrite bool_decide_eq_true_2; [done|]. apply (Hall name p). left.
  - simpl in Hnd. apply NoDup_cons in Hnd as [Hk' Hnd].
    rewrite bool_decide_eq_false_2.
    + apply IH; [done | | done]. intros k' p' H. apply Hall. by right.
    + intros Hq. apply Hk'. rewrite <- (proj1 (Hall k q ltac:(left))), Hq.
      apply list_elem_of_fmap. by exists (name, p).
Qed.

Lemma X24_key_of_first_transcript_witness :
  let mk name key :=
    {| ProjectSelector.Raw.project_name := Some name;
       ProjectSelector.Raw.Project_name := None;
       ProjectSelector.Raw.project_key := key;
       ProjectSelector.Raw.Project_key := None;
       ProjectSelector.Raw.meetings := None |} in
  exists p,
    ProjectSelector.findProject
      (ProjectSelector.extractProjects
         ([mk "Gemini"%string (Some "g"%string)]
          ++ mk "Apollo"%string None :: [mk "Apollo"%string (Some "k1"%string)]))
      "Apollo" = Some p
    /\ ProjectSelector.project_key p = ""%string.
Proof.
  intros mk.
  apply (X24_key_of_first_transcript
           [mk "Gemini"%string (Some "g"%string)] (mk "Apollo"%string None)
           [mk "Apollo"%string (Some "k1"%string)] "Apollo" eq_refl eq_refl).
  repeat constructor. discriminate.
Defined.

(** X25: choosing a project in the selector never starts a request and
    clears the meeting and the loaded data; choosing a meeting next
    starts a request with the project's key when it has one, and else
    with the key the application stored before, which a project chosen
    earlier may have left there; with neither, no request is started and
    the missing-key message is set. *)
Theorem X25_choose_project_then_meeting projectList p m (s : ProjectSelector.State) :
  ProjectSelector.findProject projectList (ProjectSelector.project_name p) = Some p ->
  nonEmpty (ProjectSelector.project_name p) = true ->
  nonEmpty m = true ->
  let r1 := ProjectSelector.onProjectChange projectList
              (ProjectSelector.project_name p) s in
  let r2 := ProjectSelector.onMeetingChange projectList m (fst r1) in
  let stored := AppData.projectKey (ProjectSelector.app s) in
  snd r1 = None
  /\ AppData.selectedMeeting (ProjectSelector.app (fst r1)) = ""%string
  /\ AppData.projectData (ProjectSelector.app (fst r1)) = None
  /\ snd r2
     = (if nonEmpty (ProjectSelector.project_key p)
        then Some (ProjectSelector.project_key p)
        else if nonEmpty stored then Some stored else None)
  /\ AppData.error (ProjectSelector.app (fst r2))
     = (if nonEmpty (ProjectSelector.project_key p) || nonEmpty stored then JNull
        else JString "Project key not found. Please select the project again.").
Proof.
  intros Hfind Hp Hm r1 r2 stored. subst r1 r2 stored.
  unfold ProjectSelector.onProjectChange, ProjectSelector.onMeetingChange.
  rewrite Hfind. cbn [fst snd ProjectSelector.app ProjectSelector.selectedProjectKey].
  set (a := ProjectSelector.app s).
  assert (H1 : AppData.handleSelectBegin (ProjectSelector.project_name p) ""
                 (ProjectSelector.project_key p) a
               = ({| AppData.selectedProject := ProjectSelector.project_name p;
                     AppData.selectedMeeting := "";
                     AppData.projectData := None;
                     AppData.loading := AppData.loading a;
                     AppData.error := JNull;
                     AppData.projectKey :=
                       if nonEmpty (ProjectSelector.project_key p)
                       then ProjectSelector.project_key p
                       else AppData.projectKey a |}, None)).
  { unfold AppData.handleSelectBegin. simpl. by rewrite andb_false_r. }
  rewrite H1. cbn [fst snd AppData.selectedProject AppData.selectedMeeting
                   AppData.projectData].
  rewrite Hfind.
  repeat split.
  - unfold AppData.handleSelectBegin, AppData.keyToUse. simpl. rewrite Hp, Hm.
    destruct (nonEmpty (ProjectSelector.project_key p)) eqn:Hk; simpl.
    + rewrite ?Hk. simpl. by rewrite ?Hk.
    + rewrite ?Hk. simpl.
      destruct (nonEmpty (AppData.projectKey a)) eqn:Hs; simpl; by rewrite ?Hs.
  - unfold AppData.handleSelectBegin, AppData.keyToUse. simpl. rewrite Hp, Hm.
    destruct (nonEmpty (ProjectSelector.project_key p)) eqn:Hk; simpl.
    + rewrite ?Hk. simpl. by rewrite ?Hk.
    + rewrite ?Hk. simpl.
      destruct (nonEmpty (AppData.projectKey a)) eqn:Hs; simpl; by rewrite ?Hs.
Qed.

Lemma X25_choose_project_then_meeting_witness :
  let apollo := {| ProjectSelector.project_name := "Apollo";
                   ProjectSelector.project_key := "k1";
                   ProjectSelector.meetings := [] |} in
  let gemini := {| ProjectSelector.project_name := "Gemini";
                   ProjectSelector.project_key := "";
                   ProjectSelector.meetings := [] |} in
  let s0 := {| ProjectSelector.app := AppData.initialState;
               ProjectSelector.selectedProjectKey := "" |} in
  let s1 := fst (ProjectSelector.onProjectChange [apollo; gemini] "Apollo" s0) in
  let r1 := ProjectSelector.onProjectChange [apollo; gemini] "Gemini" s1 in
  snd (ProjectSelector.onMeetingChange [apollo; gemini] "Review" (fst r1))
  = Some "k1"%string.
Proof.
  intros apollo gemini s0 s1 r1.
  exact (proj1 (proj2 (proj2 (proj2
    (X25_choose_project_then_meeting [apollo; gemini] gemini "Review" s1
       eq_refl eq_refl eq_refl))))).
Defined.

(** ** Request errors and the error banner *)

(** X26: a request for project data that fails without a response shows
    a banner whose text the interceptor has set: for a request that timed
    out, the time-out text, without the hint on starting the backend; for
    a network error, the cannot-connect text, with the hint. *)
Theorem X26_connection_errors (error : api.AxiosError) (s : AppData.State) :
  api.response error = None ->
  let s' := AppData.handleSelectSettle
              (inr (api.fetchError (api.interceptor error))) s in
  (api.code error = Some "ECONNABORTED"%string ->
   errorBanner (AppData.error s')
   = Banner "Request timeout. Please check if the backend server is running." false)
  /\ (api.code error <> Some "ECONNABORTED"%string ->
      api.message error = "Network Error"%string ->
      errorBanner (AppData.error s')
      = Banner "Cannot connect to backend server. Please ensure the backend is running on port 8000."
               true).
Proof.
  intros Hr s'. subst s'. split.
  - intros Hc. unfold api.interceptor. rewrite bool_decide_eq_true_2 by done.
    simpl. unfold AppData.errorMessage, api.fetchError. simpl. rewrite Hr.
    by vm_compute.
  - intros Hc Hm. unfold api.interceptor.
    rewrite bool_decide_eq_false_2, bool_decide_eq_true_2 by done.
    simpl. unfold AppData.errorMessage, api.fetchError. simpl. rewrite Hr.
    by vm_compute.
Qed.

Lemma X26_connection_errors_witness :
  let error := {| api.code := Some "ERR_NETWORK"%string;
                  api.message := "Network Error";
                  api.response := None |} in
  errorBanner
    (AppData.error
       (AppData.handleSelectSettle
          (inr (api.fetchError (api.interceptor error))) AppData.initialState))
  = Banner "Cannot connect to backend server. Please ensure the backend is running on port 8000."
           true.
Proof.
  intros error.
  exact (proj2 (X26_connection_errors error AppData.initialState eq_refl)
           ltac:(discriminate) eq_refl).
Defined.

(** ** The chat *)

Section ChatFacts.

Import Chatbot.

Lemma conversation_send n :
  conversation n false ++ ["user"%string] = conversation n true.
Proof. unfold conversation. by rewrite app_nil_r. Qed.

Lemma conversation_settle n :
  conversation n true ++ ["assistant"%string] = conversation (S n) false.
Proof.
  unfold conversation. rewrite app_nil_r. simpl. f_equal.
  rewrite <- app_assoc. simpl.
  induction n as [|n IH]; [done|]. simpl. by rewrite IH.
Qed.

Lemma conversation_no_system n pending :
  Forall (fun r => r <> "system"%string) (conversation n pending).
Proof.
  unfold conversation. constructor; [done|].
  apply Forall_app. split.
  - induction n as [|n IH]; [done|]. simpl. by repeat constructor.
  - destruct pending; by repeat constructor.
Qed.

Lemma filter_no_system (l : list Message) :
  Forall (fun r => r <> "system"%string) (map role l) ->
  List.filter (fun msg => negb (bool_decide (role msg = "system"%string))) l = l.
Proof.
  induction l as [|msg l IH]; [done|]. simpl.
  intros [Hm Hl]%Forall_cons. rewrite bool_decide_eq_false_2 by done.
  simpl. by rewrite IH.
Qed.

Lemma reachable_conversation projectName meetingName s :
  reachable projectName meetingName s ->
  exists n, map role (messages s) = conversation n (loading s).
Proof.
  induction 1 as [|value s Hs [n IH]|s Hs [n IH]|outcome s Hs [n IH] Hl].
  - by exists 0%nat.
  - by exists n.
  - unfold handleSendBegin.
    destruct (isBlank (input s) || negb (nonEmpty projectName) || loading s) eqn:Hg;
      [by exists n|].
    apply orb_false_elim in Hg as [_ Hl]. rewrite Hl in IH.
    exists n. simpl. by rewrite map_app, IH, <- conversation_send.
  - rewrite Hl in IH. exists (S n). simpl.
    rewrite map_app, IH, <- conversation_settle. by destruct outcome.
Qed.

End ChatFacts.

(** X27: as long as the project and the meeting stay the same, the chat
    is a greeting followed by questions and replies in turn, and it ends
    with a question exactly while a request is open; the request of a
    question carries the input as typed and, as its history, every
    message before the question, the greeting and earlier error replies
    included. *)
Theorem X27_conversation_alternates projectName meetingName (s : Chatbot.State) :
  Chatbot.reachable projectName meetingName s ->
  (exists n, map Chatbot.role (Chatbot.messages s)
             = Chatbot.conversation n (Chatbot.loading s))
  /\ forall request,
       snd (Chatbot.handleSendBegin projectName s) = Some request ->
       Chatbot.question request = Chatbot.input s
       /\ Chatbot.chat_history request
          = map (fun msg => (Chatbot.role msg, Chatbot.content msg))
                (Chatbot.messages s).
Proof.
  intros Hs. destruct (reachable_conversation _ _ _ Hs) as [n Hn].
  split; [by exists n|].
  intros request. unfold Chatbot.handleSendBegin.
  destruct (_ || _ || _); [done|]. simpl. intros [= <-]. simpl.
  split; [done|]. rewrite filter_no_system; [done|].
  rewrite Hn. apply conversation_no_system.
Qed.

Lemma X27_conversation_alternates_witness :
  let s := Chatbot.handleSendSettle
             (inr {| api.code := None; api.message := "Network Error";
                     api.response := None |})
             (fst (Chatbot.handleSendBegin "Apollo"
                     (Chatbot.setInput "Who attended?"
                        (Chatbot.mount "Apollo" "Kickoff")))) in
  exists n, map Chatbot.role (Chatbot.messages s)
            = Chatbot.conversation n (Chatbot.loading s).
Proof.
  intros s.
  apply (X27_conversation_alternates "Apollo" "Kickoff" s).
  apply Chatbot.reachable_settle; [|reflexivity].
  apply Chatbot.reachable_send, Chatbot.reachable_input, Chatbot.reachable_mount.
Defined.

(** X28: when the project or the meeting changes while a request is
    open, the chat starts over with the new greeting, no question can be
    sent until the open request settles, and its reply is then added to
    the new conversation, right after the greeting. *)
Theorem X28_reply_after_change old new projectName outcome (s : Chatbot.State) :
  Chatbot.loading s = true ->
  old <> new ->
  let s1 := Chatbot.propsChange old new s in
  let s2 := Chatbot.handleSendSettle outcome s1 in
  Chatbot.handleSendBegin projectName s1 = (s1, None)
  /\ map Chatbot.role (Chatbot.messages s2) = ["assistant"%string; "assistant"%string]
  /\ (exists reply, Chatbot.messages s2
                    = [Chatbot.welcome (fst new) (snd new); reply])
  /\ forall n pending,
       map Chatbot.role (Chatbot.messages s2) <> Chatbot.conversation n pending.
Proof.
  intros Hl Hne s1 s2. subst s2 s1. unfold Chatbot.propsChange.
  rewrite bool_decide_eq_false_2 by done.
  assert (Hroles : map Chatbot.role
            (Chatbot.messages
               (Chatbot.handleSendSettle outcome
                  {| Chatbot.messages := [Chatbot.welcome (fst new) (snd new)];
                     Chatbot.input := Chatbot.input s;
                     Chatbot.loading := Chatbot.loading s |}))
          = ["assistant"%string; "assistant"%string]) by (by destruct outcome).
  split; [|split; [|split]].
  - unfold Chatbot.handleSendBegin. simpl. by rewrite Hl, orb_true_r.
  - done.
  - simpl. by eexists.
  - rewrite Hroles. intros [|n] [] H; simpl in H; try done.
    all: destruct n; simpl in H; done.
Qed.

Lemma X28_reply_after_change_witness :
  let s := fst (Chatbot.handleSendBegin "Apollo"
                  (Chatbot.setInput "Who attended?"
                     (Chatbot.mount "Apollo" "Kickoff"))) in
  let s1 := Chatbot.propsChange ("Apollo", "Kickoff")%string
              ("Gemini", "Review")%string s in
  Chatbot.loading s = true
  /\ Chatbot.handleSendBegin "Gemini" s1 = (s1, None).
Proof.
  intros s s1.
  assert (Hl : Chatbot.loading s = true) by reflexivity.
  exact (conj Hl
    (proj1 (X28_reply_after_change ("Apollo", "Kickoff")%string
              ("Gemini", "Review")%string "Gemini"
              (inl {| Chatbot.answer := "Ada and Grace.";
                      Chatbot.answer_sources := None |})
              s Hl ltac:(discriminate)))).
Defined.

(** X29: the reply to a failed question is never empty; it does not
    depend on what the server sent when the status is 404, and when
    there is no response it is the error's message after [Error: ], or a
    fixed apology when the message is empty. *)
Theorem X29_error_reply (error : api.AxiosError) :
  nonEmpty (Chatbot.errorMessage error) = true
  /\ (forall r, api.response error = Some r -> api.status r = 404%Z ->
      Chatbot.errorMessage error
      = "Project not found. Please make sure you've selected a valid project."%string)
  /\ (api.response error = None ->
      Chatbot.errorMessage error
      = if nonEmpty (api.message error) then ("Error: " ++ api.message error)%string
        else "Sorry, I encountered an error. Please try again."%string).
Proof.
  unfold Chatbot.errorMessage. repeat split.
  - destruct (api.response error) as [r|].
    + destruct (api.status r =? 404)%Z; [done|].
      by destruct (api.status r =? 500)%Z.
    + by destruct (nonEmpty (api.message error)).
  - intros r -> Hr. by rewrite Hr.
  - by intros ->.
Qed.
